(** * blogger: canonical log assembly, redaction, masking and field filtering

    A shallow embedding of the Go package [logger] (canonical_logger.go,
    the zap encoder wrapper, the set-up of the loggers and the slog handler
    that adds the DD fields), of the gRPC client masker, of the HTTP
    middleware and the gRPC server interceptor that call the canonical
    logger, and of the package [config], together with the parts of the Go
    standard library they call: [strings], [unicode/utf8], [encoding/json],
    [html/template], [time.Duration], [os.Getenv] and [log/slog]
    attributes.

    Go strings and byte slices are byte sequences; they are modelled by
    [string], every [ascii] being one byte.  Go [int] and [rune] values are
    modelled by [Z].  Go maps with string keys are [gmap string _]. *)

From Stdlib Require Import ZArith String Ascii List Bool Lia Floats.
From Stdlib Require Import DecimalString DecimalPos.
From stdpp Require Import gmap strings list.

#[local] Set Warnings "-register-all".
#[local] Open Scope Z_scope.

(** ** What the embedding takes from the Go runtime as given

    Two library facilities are not re-implemented: the decimal to binary64
    conversion of [strconv.ParseFloat] (a [None] result is its range error)
    and the Unicode case tables behind [unicode.To(unicode.LowerCase, r)],
    which are consulted for runes above U+007F only. *)

Record Runtime : Type := {
  strconv_ParseFloat : string -> option float;
  unicode_To_LowerCase : Z -> Z
}.

(** ** Bytes *)

Definition byte (c : ascii) : Z := Z.of_N (N_of_ascii c).
Definition chr (b : Z) : ascii := ascii_of_N (Z.to_N b).

Definition bytes (s : string) : list Z := map byte (list_ascii_of_string s).

Fixpoint of_bytes (l : list Z) : string :=
  match l with
  | [] => ""
  | b :: l' => String (chr b) (of_bytes l')
  end.

(** [s[i:]] for [0 <= i]; Go panics beyond [len(s)], which no caller below
    reaches. *)
Fixpoint drop_str (n : nat) (s : string) : string :=
  match n, s with
  | O, _ => s
  | S n', String _ s' => drop_str n' s'
  | S _, "" => ""
  end.

(** [s[:i]] *)
Fixpoint take_str (n : nat) (s : string) : string :=
  match n, s with
  | S n', String c s' => String c (take_str n' s')
  | _, _ => ""
  end.

Definition len (s : string) : Z := Z.of_nat (String.length s).

(** ** unicode/utf8 *)

Module utf8.

Definition RuneError : Z := 0xFFFD.
Definition RuneSelf : Z := 0x80.
Definition MaxRune : Z := 0x10FFFF.

(** The [first] table with [acceptRanges]: for a leading byte, the length of
    the sequence it starts and the range the second byte must lie in;
    [None] for the bytes that start no sequence (0x80-0xC1, 0xF5-0xFF). *)
Definition first (p0 : Z) : option (nat * (Z * Z)) :=
  if p0 <? 0xC2 then None
  else if p0 <? 0xE0 then Some (2%nat, (0x80, 0xBF))
  else if p0 =? 0xE0 then Some (3%nat, (0xA0, 0xBF))
  else if p0 <? 0xED then Some (3%nat, (0x80, 0xBF))
  else if p0 =? 0xED then Some (3%nat, (0x80, 0x9F))
  else if p0 <? 0xF0 then Some (3%nat, (0x80, 0xBF))
  else if p0 =? 0xF0 then Some (4%nat, (0x90, 0xBF))
  else if p0 <? 0xF4 then Some (4%nat, (0x80, 0xBF))
  else if p0 =? 0xF4 then Some (4%nat, (0x80, 0x8F))
  else None.

Definition cont (b : Z) : bool := (0x80 <=? b) && (b <=? 0xBF).

(** [DecodeRuneInString]: the first rune of [s] and its width in bytes;
    [(RuneError, 0)] on the empty string and [(RuneError, 1)] on a byte
    sequence that is not a shortest-form encoding. *)
Definition DecodeRuneInString (s : string) : Z * nat :=
  match bytes (take_str 4 s) with
  | [] => (RuneError, 0%nat)
  | p0 :: rest =>
      if p0 <? RuneSelf then (p0, 1%nat)
      else
        match first p0 with
        | None => (RuneError, 1%nat)
        | Some (sz, (lo, hi)) =>
            if (length rest <? sz - 1)%nat then (RuneError, 1%nat)
            else
              match rest with
              | [] => (RuneError, 1%nat)
              | b1 :: rest1 =>
                  if (b1 <? lo) || (hi <? b1) then (RuneError, 1%nat)
                  else if (sz <=? 2)%nat then
                    (Z.lor (Z.shiftl (Z.land p0 0x1F) 6) (Z.land b1 0x3F), 2%nat)
                  else
                    match rest1 with
                    | [] => (RuneError, 1%nat)
                    | b2 :: rest2 =>
                        if negb (cont b2) then (RuneError, 1%nat)
                        else if (sz <=? 3)%nat then
                          (Z.lor (Z.shiftl (Z.land p0 0x0F) 12)
                             (Z.lor (Z.shiftl (Z.land b1 0x3F) 6) (Z.land b2 0x3F)),
                           3%nat)
                        else
                          match rest2 with
                          | [] => (RuneError, 1%nat)
                          | b3 :: _ =>
                              if negb (cont b3) then (RuneError, 1%nat)
                              else
                                (Z.lor (Z.shiftl (Z.land p0 0x07) 18)
                                   (Z.lor (Z.shiftl (Z.land b1 0x3F) 12)
                                      (Z.lor (Z.shiftl (Z.land b2 0x3F) 6)
                                         (Z.land b3 0x3F))),
                                 4%nat)
                          end
                    end
              end
        end
  end.

Definition encode3 (r : Z) : string :=
  of_bytes [Z.lor 0xE0 (Z.shiftr r 12);
            Z.lor 0x80 (Z.land (Z.shiftr r 6) 0x3F);
            Z.lor 0x80 (Z.land r 0x3F)].

(** [AppendRune]/[EncodeRune]: the UTF-8 encoding of [r]; a negative rune,
    a surrogate half or a rune above [MaxRune] is written as [RuneError]. *)
Definition EncodeRune (r : Z) : string :=
  if (0 <=? r) && (r <? 0x80) then of_bytes [r]
  else if (0 <=? r) && (r <? 0x800) then
    of_bytes [Z.lor 0xC0 (Z.shiftr r 6); Z.lor 0x80 (Z.land r 0x3F)]
  else if (r <? 0) || (MaxRune <? r) || ((0xD800 <=? r) && (r <=? 0xDFFF)) then
    encode3 RuneError
  else if r <? 0x10000 then encode3 r
  else
    of_bytes [Z.lor 0xF0 (Z.shiftr r 18);
              Z.lor 0x80 (Z.land (Z.shiftr r 12) 0x3F);
              Z.lor 0x80 (Z.land (Z.shiftr r 6) 0x3F);
              Z.lor 0x80 (Z.land r 0x3F)].

(** The runes a [for _, c := range s] loop visits.  [skip] counts the bytes
    still belonging to the rune decoded last. *)
Fixpoint runes_from (skip : nat) (s : string) : list Z :=
  match s with
  | "" => []
  | String _ s' =>
      match skip with
      | S k => runes_from k s'
      | O =>
          let '(r, size) := DecodeRuneInString s in
          r :: runes_from (size - 1) s'
      end
  end.

Definition runes (s : string) : list Z := runes_from 0 s.

End utf8.

(** ** unicode *)

Module unicode.

Definition MaxASCII : Z := 0x7F.

Definition ToLower (rt : Runtime) (r : Z) : Z :=
  if r <=? MaxASCII then
    if (65 <=? r) && (r <=? 90) then r + 32 else r
  else unicode_To_LowerCase rt r.

End unicode.

(** ** strings *)

Module strings.

(** [HasPrefix] *)
Fixpoint HasPrefix (s prefix : string) {struct prefix} : bool :=
  match prefix, s with
  | "", _ => true
  | String p prefix', String c s' => Ascii.eqb p c && HasPrefix s' prefix'
  | String _ _, "" => false
  end.

(** [Index]: the byte offset of the first occurrence of [substr] in [s],
    or -1. *)
Fixpoint Index (s substr : string) : Z :=
  if HasPrefix s substr then 0
  else
    match s with
    | "" => -1
    | String _ s' =>
        let i := Index s' substr in
        if i <? 0 then -1 else i + 1
    end.

Definition Contains (s substr : string) : bool := 0 <=? Index s substr.

(** [Join] *)
Fixpoint Join (elems : list string) (sep : string) : string :=
  match elems with
  | [] => ""
  | [e] => e
  | e :: rest => e +:+ sep +:+ Join rest sep
  end.

(** [Split] for a non-empty separator: cut at every occurrence of [sep]
    found scanning from the left, occurrences not overlapping.  [skip]
    counts the bytes of the separator matched last that are still to be
    passed over, [cur] is the segment being collected, reversed. *)
Fixpoint split_from (sep : string) (skip : nat) (cur : list ascii) (s : string)
  : list string :=
  match s with
  | "" => [string_of_list_ascii (rev cur)]
  | String c s' =>
      match skip with
      | S k => split_from sep k cur s'
      | O =>
          if HasPrefix s sep then
            string_of_list_ascii (rev cur)
              :: split_from sep (String.length sep - 1) [] s'
          else split_from sep 0 (c :: cur) s'
      end
  end.

(** [Split(s, sep)], for the non-empty separators the package uses (with an
    empty one Go explodes [s] into its UTF-8 sequences instead). *)
Definition Split (s sep : string) : list string := split_from sep 0 [] s.

(** [Map]: every rune of [s] is replaced by its image, a negative image
    dropping the rune.  Go returns [s] itself when no rune changes; a byte
    that is not valid UTF-8 counts as a change and is written as U+FFFD. *)
Definition Map (mapping : Z -> Z) (s : string) : string :=
  String.concat ""
    (map (fun c => let r := mapping c in
                   if 0 <=? r then utf8.EncodeRune r else "")
         (utf8.runes s)).

Definition isASCII (s : string) : bool :=
  forallb (fun c => byte c <? utf8.RuneSelf) (list_ascii_of_string s).

Definition lowerByte (c : ascii) : ascii :=
  if (65 <=? byte c) && (byte c <=? 90) then chr (byte c + 32) else c.

Fixpoint mapBytes (f : ascii -> ascii) (s : string) : string :=
  match s with
  | "" => ""
  | String c s' => String (f c) (mapBytes f s')
  end.

(** [ToLower]: bytewise on a string that is all ASCII, otherwise
    [Map(unicode.ToLower, s)]. *)
Definition ToLower (rt : Runtime) (s : string) : string :=
  if isASCII s then mapBytes lowerByte s
  else Map (unicode.ToLower rt) s.

End strings.


(** ** Go values held in an [interface{}]

    The dynamic values that reach the logger: what [encoding/json] stores
    into an [interface{}] (nil, bool, float64, string, []interface{},
    map[string]interface{}), the nil map, and the [int] values callers put
    into error detail maps. *)

Inductive any : Type :=
| ANil
| ABool (b : bool)
| AFloat64 (f : float)
| AInt (n : Z)
| AString (s : string)
| ASlice (elems : list any)
| ANilMap
| AMap (m : gmap string any).

(** A variable of type [map[string]interface{}]: [None] is the nil map. *)
Definition anyOfMap (m : option (gmap string any)) : any :=
  match m with
  | None => ANilMap
  | Some m => AMap m
  end.

(** ** encoding/json: [Unmarshal] into a [map[string]interface{}] *)

Module json.

Inductive error : Type :=
| SyntaxError
| UnmarshalTypeError.

Definition maxNestingDepth : Z := 10000.

Definition isSpace (c : Z) : bool :=
  (c =? 32) || (c =? 9) || (c =? 13) || (c =? 10).

Definition isDigit (c : Z) : bool := (48 <=? c) && (c <=? 57).

Definition hexval (c : Z) : option Z :=
  if (48 <=? c) && (c <=? 57) then Some (c - 48)
  else if (97 <=? c) && (c <=? 102) then Some (c - 97 + 10)
  else if (65 <=? c) && (c <=? 70) then Some (c - 65 + 10)
  else None.

(** [getu4]: the code unit of a leading [\uXXXX], or -1. *)
Definition getu4 (s : string) : Z :=
  match bytes (take_str 6 s) with
  | [b; u; h1; h2; h3; h4] =>
      if (b =? 92) && (u =? 117) then
        match hexval h1, hexval h2, hexval h3, hexval h4 with
        | Some d1, Some d2, Some d3, Some d4 =>
            ((d1 * 16 + d2) * 16 + d3) * 16 + d4
        | _, _, _, _ => -1
        end
      else -1
  | _ => -1
  end.

(** [utf16.IsSurrogate] and [utf16.DecodeRune] *)
Definition utf16_IsSurrogate (r : Z) : bool := (0xD800 <=? r) && (r <? 0xE000).

Definition utf16_DecodeRune (r1 r2 : Z) : Z :=
  if (0xD800 <=? r1) && (r1 <? 0xDC00) && (0xDC00 <=? r2) && (r2 <? 0xE000)
  then Z.lor (Z.shiftl (r1 - 0xD800) 10) (r2 - 0xDC00) + 0x10000
  else utf8.RuneError.

(** The byte a two-character escape stands for. *)
Definition escaped (e : Z) : option Z :=
  if (e =? 34) || (e =? 92) || (e =? 47) || (e =? 39) then Some e
  else if e =? 98 then Some 8
  else if e =? 102 then Some 12
  else if e =? 110 then Some 10
  else if e =? 114 then Some 13
  else if e =? 116 then Some 9
  else None.

(** [unquoteBytes], on the text between the quotes: escapes are resolved,
    surrogate pairs combined, and what is not valid UTF-8 is replaced by
    U+FFFD.  [skip] counts the bytes of the item handled last that are
    still to be passed over.  [None] is Go's [ok = false]. *)
Fixpoint unquote_from (skip : nat) (s : string) : option string :=
  match s with
  | "" => Some ""
  | String c s' =>
      match skip with
      | S k => unquote_from k s'
      | O =>
          if byte c =? 92 then
            match s' with
            | "" => None
            | String e _ =>
                if byte e =? 117 then
                  let rr := getu4 s in
                  if rr <? 0 then None
                  else if utf16_IsSurrogate rr then
                    let dec := utf16_DecodeRune rr (getu4 (drop_str 6 s)) in
                    if negb (dec =? utf8.RuneError) then
                      t ← unquote_from 11 s'; Some (utf8.EncodeRune dec +:+ t)
                    else
                      t ← unquote_from 5 s';
                      Some (utf8.EncodeRune utf8.RuneError +:+ t)
                  else
                    t ← unquote_from 5 s'; Some (utf8.EncodeRune rr +:+ t)
                else
                  match escaped (byte e) with
                  | None => None
                  | Some b => t ← unquote_from 1 s'; Some (String (chr b) t)
                  end
            end
          else if (byte c =? 34) || (byte c <? 32) then None
          else if byte c <? utf8.RuneSelf then
            t ← unquote_from 0 s'; Some (String c t)
          else
            let '(rr, size) := utf8.DecodeRuneInString s in
            t ← unquote_from (size - 1) s'; Some (utf8.EncodeRune rr +:+ t)
      end
  end.

Definition unquote (s : string) : option string := unquote_from 0 s.

(** *** The scanner

    Go validates the whole input with a byte-at-a-time state machine
    ([scanner.step], a stack of [parseState]s) and then decodes it.  Here
    the two passes are fused: every [parseState] entry carries the
    container under construction, and a completed value is handed to the
    entry on top of the stack. *)

Inductive state : Type :=
| stateBeginValue
| stateBeginStringOrEmpty
| stateBeginString
| stateBeginValueOrEmpty
| stateEndValue
| stateEndTop
| stateInString
| stateInStringEsc
| stateInStringEscU (seen : nat)
| stateNeg
| state1
| state0
| stateDot
| stateDot0
| stateE
| stateESign
| stateE0
| stateLiteral (rest : list Z) (v : any).

Inductive parseState : Type :=
| parseObjectKey (m : gmap string any) (key : option string)
| parseObjectValue (m : gmap string any) (key : string)
| parseArrayValue (elems : list any).

(** [item] is the literal being scanned, reversed; [top] the finished
    top-level value; [savedError] whether the decoder has recorded a type
    error ([d.saveError]). *)
Record scanner : Type := Scanner {
  step : state;
  stack : list parseState;
  item : list ascii;
  top : option any;
  savedError : bool
}.

Definition reset : scanner := Scanner stateBeginValue [] [] None false.

Definition setStep (st : scanner) (s : state) : scanner :=
  Scanner s (stack st) (item st) (top st) (savedError st).

Definition pushItem (st : scanner) (c : ascii) (s : state) : scanner :=
  Scanner s (stack st) (c :: item st) (top st) (savedError st).

Definition itemText (st : scanner) : string :=
  string_of_list_ascii (rev (item st)).

(** A finished value goes to the innermost open container, or becomes the
    top-level value. *)
Definition deliver (st : scanner) (v : any) (s : state) : option scanner :=
  match stack st with
  | [] => Some (Scanner s [] [] (Some v) (savedError st))
  | parseObjectKey m _ :: ps =>
      match v with
      | AString k =>
          Some (Scanner s (parseObjectKey m (Some k) :: ps) [] (top st) (savedError st))
      | _ => None
      end
  | parseObjectValue m k :: ps =>
      Some (Scanner s (parseObjectValue (<[k:=v]> m) k :: ps) [] (top st) (savedError st))
  | parseArrayValue elems :: ps =>
      Some (Scanner s (parseArrayValue (v :: elems) :: ps) [] (top st) (savedError st))
  end.

(** [pushParseState] *)
Definition pushParseState (st : scanner) (p : parseState) (s : state)
  : option scanner :=
  if Z.of_nat (length (p :: stack st)) <=? maxNestingDepth
  then Some (Scanner s (p :: stack st) [] (top st) (savedError st))
  else None.

(** [popParseState], handing the closed container [v] to its parent. *)
Definition popParseState (st : scanner) (v : any) : option scanner :=
  match stack st with
  | [] => None
  | _ :: ps =>
      deliver (Scanner (step st) ps [] (top st) (savedError st)) v
        (match ps with [] => stateEndTop | _ => stateEndValue end)
  end.

Definition stateEndTop_ (st : scanner) (c : Z) : option scanner :=
  if isSpace c then Some (setStep st stateEndTop) else None.

Definition stateEndValue_ (st : scanner) (c : Z) : option scanner :=
  match stack st with
  | [] => stateEndTop_ st c
  | p :: ps =>
      if isSpace c then Some (setStep st stateEndValue)
      else
        match p with
        | parseObjectKey m (Some k) =>
            if c =? 58 then
              Some (Scanner stateBeginValue (parseObjectValue m k :: ps) []
                      (top st) (savedError st))
            else None
        | parseObjectKey _ None => None
        | parseObjectValue m _ =>
            if c =? 44 then
              Some (Scanner stateBeginString (parseObjectKey m None :: ps) []
                      (top st) (savedError st))
            else if c =? 125 then popParseState st (AMap m)
            else None
        | parseArrayValue elems =>
            if c =? 44 then Some (setStep st stateBeginValue)
            else if c =? 93 then popParseState st (ASlice (rev elems))
            else None
        end
  end.

Definition stateBeginValue_ (st : scanner) (a : ascii) : option scanner :=
  let c := byte a in
  if isSpace c then Some st
  else if c =? 123 then pushParseState st (parseObjectKey ∅ None) stateBeginStringOrEmpty
  else if c =? 91 then pushParseState st (parseArrayValue []) stateBeginValueOrEmpty
  else if c =? 34 then Some (Scanner stateInString (stack st) [] (top st) (savedError st))
  else if c =? 45 then Some (pushItem st a stateNeg)
  else if c =? 48 then Some (pushItem st a state0)
  else if c =? 116 then Some (setStep st (stateLiteral [114; 117; 101] (ABool true)))
  else if c =? 102 then Some (setStep st (stateLiteral [97; 108; 115; 101] (ABool false)))
  else if c =? 110 then Some (setStep st (stateLiteral [117; 108; 108] ANil))
  else if (49 <=? c) && (c <=? 57) then Some (pushItem st a state1)
  else None.

Definition stateBeginString_ (st : scanner) (a : ascii) : option scanner :=
  let c := byte a in
  if isSpace c then Some st
  else if c =? 34 then Some (Scanner stateInString (stack st) [] (top st) (savedError st))
  else None.

(** The end of a number: [convertNumber], a failure of which is a saved
    type error and leaves nil as the value, then [stateEndValue] on the
    byte that ended it. *)
Definition endNumber (rt : Runtime) (st : scanner) (c : Z) : option scanner :=
  match strconv_ParseFloat rt (itemText st) with
  | Some f => st' ← deliver st (AFloat64 f) stateEndValue; stateEndValue_ st' c
  | None =>
      st' ← deliver (Scanner (step st) (stack st) (item st) (top st) true) ANil
              stateEndValue;
      stateEndValue_ st' c
  end.

Definition state0_ (rt : Runtime) (st : scanner) (a : ascii) : option scanner :=
  let c := byte a in
  if c =? 46 then Some (pushItem st a stateDot)
  else if (c =? 101) || (c =? 69) then Some (pushItem st a stateE)
  else endNumber rt st c.

Definition stateESign_ (st : scanner) (a : ascii) : option scanner :=
  if isDigit (byte a) then Some (pushItem st a stateE0) else None.

(** One [scanner.step] call on the byte [a]; [None] is a syntax error. *)
Definition scan (rt : Runtime) (st : scanner) (a : ascii) : option scanner :=
  let c := byte a in
  match step st with
  | stateBeginValue => stateBeginValue_ st a
  | stateBeginStringOrEmpty =>
      if isSpace c then Some st
      else if c =? 125 then
        match stack st with
        | parseObjectKey m _ :: _ => popParseState st (AMap m)
        | _ => None
        end
      else stateBeginString_ st a
  | stateBeginString => stateBeginString_ st a
  | stateBeginValueOrEmpty =>
      if isSpace c then Some st
      else if c =? 93 then stateEndValue_ st c
      else stateBeginValue_ st a
  | stateEndValue => stateEndValue_ st c
  | stateEndTop => stateEndTop_ st c
  | stateInString =>
      if c =? 34 then
        match unquote (itemText st) with
        | Some s => deliver st (AString s) stateEndValue
        | None => None
        end
      else if c =? 92 then Some (pushItem st a stateInStringEsc)
      else if c <? 32 then None
      else Some (pushItem st a stateInString)
  | stateInStringEsc =>
      if (c =? 98) || (c =? 102) || (c =? 110) || (c =? 114) || (c =? 116)
         || (c =? 92) || (c =? 47) || (c =? 34)
      then Some (pushItem st a stateInString)
      else if c =? 117 then Some (pushItem st a (stateInStringEscU 0))
      else None
  | stateInStringEscU seen =>
      match hexval c with
      | Some _ =>
          Some (pushItem st a
                  (if (seen <? 3)%nat then stateInStringEscU (S seen)
                   else stateInString))
      | None => None
      end
  | stateNeg =>
      if c =? 48 then Some (pushItem st a state0)
      else if (49 <=? c) && (c <=? 57) then Some (pushItem st a state1)
      else None
  | state1 =>
      if isDigit c then Some (pushItem st a state1) else state0_ rt st a
  | state0 => state0_ rt st a
  | stateDot =>
      if isDigit c then Some (pushItem st a stateDot0) else None
  | stateDot0 =>
      if isDigit c then Some (pushItem st a stateDot0)
      else if (c =? 101) || (c =? 69) then Some (pushItem st a stateE)
      else endNumber rt st c
  | stateE =>
      if (c =? 43) || (c =? 45) then Some (pushItem st a stateESign)
      else stateESign_ st a
  | stateESign => stateESign_ st a
  | stateE0 =>
      if isDigit c then Some (pushItem st a stateE0) else endNumber rt st c
  | stateLiteral rest v =>
      match rest with
      | [] => None
      | x :: rest' =>
          if c =? x then
            match rest' with
            | [] => deliver st v stateEndValue
            | _ => Some (setStep st (stateLiteral rest' v))
            end
          else None
      end
  end.

(** [checkValid]'s loop over the input. *)
Fixpoint scanAll (rt : Runtime) (st : scanner) (data : string) : option scanner :=
  match data with
  | "" => Some st
  | String a data' => st' ← scan rt st a; scanAll rt st' data'
  end.

Definition endTop (st : scanner) : bool :=
  match step st with
  | stateEndTop => true
  | _ => false
  end.

(** [scanner.eof]: the input may stop right after the top-level value; a
    number or literal still open is closed by a space. *)
Definition eof (rt : Runtime) (st : scanner) : option scanner :=
  if endTop st then Some st
  else
    st' ← scan rt st " "%char;
    if endTop st' then Some st' else None.

(** [Unmarshal(data, &jsonObj)] for a nil [jsonObj] of type
    [map[string]interface{}]: the error, or the map [jsonObj] holds
    afterwards.  An object fills a fresh map; [null] leaves the map nil
    without an error; any other top-level value, and a number that does
    not convert, is an [UnmarshalTypeError]. *)
Definition Unmarshal (rt : Runtime) (data : string)
  : error + option (gmap string any) :=
  match st ← scanAll rt reset data; eof rt st with
  | None => inl SyntaxError
  | Some st =>
      match top st with
      | Some (AMap m) =>
          if savedError st then inl UnmarshalTypeError else inr (Some m)
      | Some ANil =>
          if savedError st then inl UnmarshalTypeError else inr None
      | _ => inl UnmarshalTypeError
      end
  end.

End json.

(** ** strconv and fmt: decimal text of an integer *)

Module strconv.

(** [Itoa], which is also how [fmt.Sprint] writes an [int]. *)
Definition Itoa (n : Z) : string := NilZero.string_of_int (Z.to_int n).

(** [FormatUint(v, 10)] for [0 <= v]. *)
Definition FormatUint (v : Z) : string :=
  NilZero.string_of_uint (N.to_uint (Z.to_N v)).

End strconv.

(** ** time.Duration *)

Module time.

Definition Nanosecond : Z := 1.
Definition Microsecond : Z := 1000 * Nanosecond.
Definition Millisecond : Z := 1000 * Microsecond.
Definition Second : Z := 1000 * Millisecond.

(** [fmtFrac]: writes the fraction [v / 10^prec] in front of [buf], without
    trailing zeros and without the point when it is zero, and returns
    [v / 10^prec]. *)
Fixpoint fmtFrac_loop (buf : string) (v : Z) (prec : nat) (print : bool)
  : string * Z * bool :=
  match prec with
  | O => (buf, v, print)
  | S prec' =>
      let digit := v mod 10 in
      let print := print || negb (digit =? 0) in
      fmtFrac_loop (if print then String (chr (digit + 48)) buf else buf)
        (v / 10) prec' print
  end.

Definition fmtFrac (buf : string) (v : Z) (prec : nat) : string * Z :=
  let '(buf, v, print) := fmtFrac_loop buf v prec false in
  (if print then "." +:+ buf else buf, v).

(** [fmtInt]: writes [v] in decimal in front of [buf]. *)
Definition fmtInt (buf : string) (v : Z) : string := strconv.FormatUint v +:+ buf.

(** [Duration.String], the duration being a count of nanoseconds in the
    int64 range. *)
Definition String_ (d : Z) : string :=
  let u := Z.abs d in
  let neg := d <? 0 in
  let buf :=
    if u <? Second then
      if u =? 0 then "0s"
      else
        let '(prec, unit) :=
          if u <? Microsecond then (0%nat, "ns")
          else if u <? Millisecond then (3%nat, of_bytes [0xC2; 0xB5; 115])
          else (6%nat, "ms") in
        let '(buf, u) := fmtFrac unit u prec in
        fmtInt buf u
    else
      let '(buf, u) := fmtFrac "s" u 9 in
      let buf := fmtInt buf (u mod 60) in
      let u := u / 60 in
      if 0 <? u then
        let buf := fmtInt ("m" +:+ buf) (u mod 60) in
        let u := u / 60 in
        if 0 <? u then fmtInt ("h" +:+ buf) u else buf
      else buf in
  if neg then "-" +:+ buf else buf.

End time.

(** ** log/slog: attributes and levels *)

Module slog.

(** What [slog.String], [slog.Int], [slog.Any] and [slog.Group] build. *)
Inductive Attr : Type :=
| String (key value : string)
| Int (key : string) (value : Z)
| Any (key : string) (value : any)
| Group (key : string) (args : list Attr).

Definition Key (a : Attr) : string :=
  match a with
  | String k _ | Int k _ | Any k _ | Group k _ => k
  end.

Definition LevelDebug : Z := -4.
Definition LevelInfo : Z := 0.
Definition LevelWarn : Z := 4.
Definition LevelError : Z := 8.

(** [Level.String] *)
Definition Level_String (l : Z) : string :=
  let str (base : string) (val : Z) : string :=
    if val =? 0 then base
    else base +:+ (if 0 <? val then "+" else "") +:+ strconv.Itoa val in
  if l <? LevelInfo then str "DEBUG" (l - LevelDebug)
  else if l <? LevelWarn then str "INFO" (l - LevelInfo)
  else if l <? LevelError then str "WARN" (l - LevelWarn)
  else str "ERROR" (l - LevelError).

(** The [Logger] method an emission goes through. *)
Inductive Method : Type :=
| DebugContext
| InfoContext
| WarnContext
| ErrorContext.

(** One call [slogger.XContext(ctx, msg, args...)]. *)
Record Call : Type := {
  method : Method;
  msg : string;
  args : list Attr
}.

End slog.

(** ** html/template *)

Module template.

(** [htmlReplacementTable]: the bytes the HTML escaper rewrites. *)
Definition htmlReplacementTable (c : Z) : option string :=
  if c =? 0 then Some (utf8.EncodeRune utf8.RuneError)
  else if c =? 34 then Some "&#34;"
  else if c =? 38 then Some "&amp;"
  else if c =? 39 then Some "&#39;"
  else if c =? 43 then Some "&#43;"
  else if c =? 60 then Some "&lt;"
  else if c =? 62 then Some "&gt;"
  else None.

(** [htmlEscaper], the escaper html/template inserts after an action in
    text context.  The runes it rewrites are single bytes and every other
    byte is copied, so it is a map over bytes. *)
Fixpoint htmlEscaper (s : string) : string :=
  match s with
  | "" => ""
  | String c s' =>
      match htmlReplacementTable (byte c) with
      | Some repl => repl +:+ htmlEscaper s'
      | None => String c (htmlEscaper s')
      end
  end.

(** A parsed template: literal text and [{{.Field}}] actions. *)
Inductive Node : Type :=
| TextNode (text : string)
| FieldNode (ident : string).

Definition Template : Type := list Node.

(** One piece of the source after a left delimiter: the action up to the
    right delimiter, which must be a field access, and the text after. *)
Definition parseAction (piece : string) : option (list Node) :=
  let i := strings.Index piece "}}" in
  if i <? 0 then None
  else
    match take_str (Z.to_nat i) piece with
    | String "."%char ident =>
        let text := drop_str (Z.to_nat i + 2) piece in
        Some (FieldNode ident :: match text with "" => [] | _ => [TextNode text] end)
    | _ => None
    end.

Fixpoint parseActions (pieces : list string) : option (list Node) :=
  match pieces with
  | [] => Some []
  | p :: pieces' =>
      n ← parseAction p; ns ← parseActions pieces'; Some (n ++ ns)
  end.

(** [template.New(name).Parse(text)] for templates made of text and field
    actions; [None] is the parse error. *)
Definition Parse (text : string) : option Template :=
  match strings.Split text "{{" with
  | [] => Some []
  | t :: pieces =>
      ns ← parseActions pieces;
      Some (match t with "" => ns | _ => TextNode t :: ns end)
  end.

(** [Execute] on a value whose fields [data] gives already printed the way
    [fmt.Sprint] prints them; an action naming no field of the value is the
    execution error. *)
Fixpoint Execute (t : Template) (data : string -> option string) : option string :=
  match t with
  | [] => Some ""
  | TextNode text :: t' => out ← Execute t' data; Some (text +:+ out)
  | FieldNode ident :: t' =>
      v ← data ident; out ← Execute t' data; Some (htmlEscaper v +:+ out)
  end.

End template.

(** ** Package logger: canonical_logger.go *)

Module logger.

(** [type Level int], [Debug Level = 1 << iota] and the three that follow. *)
Definition Debug : Z := 1.
Definition Info : Z := 2.
Definition Warn : Z := 4.
Definition Error : Z := 8.

Module CanonicalLog.
Record t : Type := mk {
  Transport : string;
  Traffic : string;
  Method : string;
  Status : Z;
  Path : string;
  Duration : Z;
  Message : string;
  Level : Z
}.

Definition withMessage (c : t) (m : string) : t :=
  mk (Transport c) (Traffic c) (Method c) (Status c) (Path c) (Duration c) m (Level c).

(** The exported fields as a template sees them. *)
Definition field (c : t) (ident : string) : option string :=
  if String.eqb ident "Transport" then Some (Transport c)
  else if String.eqb ident "Traffic" then Some (Traffic c)
  else if String.eqb ident "Method" then Some (Method c)
  else if String.eqb ident "Status" then Some (strconv.Itoa (Status c))
  else if String.eqb ident "Path" then Some (Path c)
  else if String.eqb ident "Duration" then Some (time.String_ (Duration c))
  else if String.eqb ident "Message" then Some (Message c)
  else if String.eqb ident "Level" then Some (slog.Level_String (Level c))
  else None.
End CanonicalLog.

Module StackError.
Record t : Type := mk {
  Kind : string;
  Message : string;
  Stack : string
}.
End StackError.

(** A nil slice or nil map is [None]. *)
Module ExceptionError.
Record t : Type := mk {
  Code : Z;
  GlobalMessage : string;
  DebugMessage : string;
  APIStatusCode : Z;
  ErrFields : option (gmap string any);
  OverrideLogLevel : bool;
  Level : string;
  StackErrors : option (list StackError.t)
}.

Definition Error (e : t) : string := DebugMessage e.
End ExceptionError.

(** A non-nil [error] value: a [*ExceptionError], whose pointer may itself
    be nil, or a value of any other type, of which only its existence
    matters here. *)
Inductive error : Type :=
| ExceptionErrorPtr (cErr : option ExceptionError.t)
| otherError (text : string).

(** The package-level variables. *)
Record Package : Type := {
  canonicalLogTemplate : option template.Template;
  DenyPatterns : list string
}.

Definition defaultDenyPatterns : list string :=
  ["login"; "refresh-token"; "verify-otp"; "password"; "token"; "secret"; "key"].

(** The state of the package when the program starts. *)
Definition init : Package :=
  {| canonicalLogTemplate := None; DenyPatterns := defaultDenyPatterns |}.

Definition logTemplate : string :=
  "[{{.Transport}}][{{.Traffic}}] {{.Method}} {{.Status}} {{.Path}} {{.Duration}} - {{.Message}}".

(** [CompileCanonicalLogTemplate]; [None] is the panic on a parse error. *)
Definition CompileCanonicalLogTemplate (pkg : Package) : option Package :=
  match template.Parse logTemplate with
  | None => None
  | Some compiled =>
      Some {| canonicalLogTemplate := Some compiled;
              DenyPatterns := DenyPatterns pkg |}
  end.

(** [GetCanonicalLogTemplate]; [None] is the error return. *)
Definition GetCanonicalLogTemplate (pkg : Package) : option template.Template :=
  canonicalLogTemplate pkg.

Fixpoint Sanitize_loop (logKeyLower : string) (patterns : list string) : bool :=
  match patterns with
  | [] => false
  | denyPattern :: patterns' =>
      if strings.Contains logKeyLower denyPattern then true
      else Sanitize_loop logKeyLower patterns'
  end.

Definition Sanitize (rt : Runtime) (pkg : Package) (logKey : string) : bool :=
  let logKeyLower := strings.ToLower rt logKey in
  Sanitize_loop logKeyLower (DenyPatterns pkg).

Definition GetStackField (stackErrors : option (list StackError.t)) : StackError.t :=
  match stackErrors with
  | Some (first :: _) => first
  | _ => StackError.mk "unknown" "no stack information available" ""
  end.

(** The frame delimiter: a newline followed by a tab. *)
Definition frameSep : string := of_bytes [10; 9].

(** The payload field built at lines 76-81, 116-121 and 125-130: the
    decoded map when [json.Unmarshal] reports no error, else the bytes as a
    string. *)
Definition payloadField (rt : Runtime) (key payload : string) : slog.Attr :=
  match json.Unmarshal rt payload with
  | inl _ => slog.String key payload
  | inr jsonObj => slog.Any key (anyOfMap jsonObj)
  end.

(** Lines 93-104: the [error] group of the first stack frame. *)
Definition stackGroup (stackErrors : option (list StackError.t)) : slog.Attr :=
  let stackTrace := GetStackField stackErrors in
  let stackTraceParts := strings.Split (StackError.Stack stackTrace) frameSep in
  let stack :=
    if (6 <? length stackTraceParts)%nat
    then strings.Join (take 6 stackTraceParts) frameSep
    else StackError.Stack stackTrace in
  slog.Group "error"
    [slog.String "kind" (StackError.Kind stackTrace);
     slog.String "message" (StackError.Message stackTrace);
     slog.String "stack" stack].

(** Lines 88-131: the level, the response fields and the record after the
    error has been looked at. *)
Definition classify (rt : Runtime) (response : string) (err : option error)
    (canonicalLog : CanonicalLog.t) : Z * list slog.Attr * CanonicalLog.t :=
  match err with
  | Some e =>
      match e with
      | ExceptionErrorPtr (Some cErr) =>
          let respFields :=
            match ExceptionError.StackErrors cErr with
            | Some _ => [stackGroup (ExceptionError.StackErrors cErr)]
            | None => []
            end in
          let respFields :=
            respFields ++
            [slog.Group "response"
               [slog.Int "status_code" (ExceptionError.APIStatusCode cErr);
                slog.Any "data" ANil;
                slog.Group "error"
                  [slog.Int "code" (ExceptionError.Code cErr);
                   slog.String "message" (ExceptionError.GlobalMessage cErr);
                   slog.String "debug_message" (ExceptionError.DebugMessage cErr);
                   slog.Any "details" (anyOfMap (ExceptionError.ErrFields cErr))]]] in
          (Error, respFields,
           CanonicalLog.withMessage canonicalLog (ExceptionError.DebugMessage cErr))
      | _ => (Error, [payloadField rt "response" response], canonicalLog)
      end
  | None => (Info, [payloadField rt "response" response], canonicalLog)
  end.

(** Lines 143-155: the summary line. *)
Definition summary (pkg : Package) (canonicalLog : CanonicalLog.t) : string :=
  match GetCanonicalLogTemplate pkg with
  | None => "failed to get canonical log template"
  | Some logTmpl =>
      match template.Execute logTmpl (CanonicalLog.field canonicalLog) with
      | None => "failed to execute canonical log template"
      | Some logMsg => logMsg
      end
  end.

(** Lines 160-171: the logger method for a level. *)
Definition methodOf (level : Z) : slog.Method :=
  if level =? Debug then slog.DebugContext
  else if level =? Info then slog.InfoContext
  else if level =? Warn then slog.WarnContext
  else if level =? Error then slog.ErrorContext
  else slog.ErrorContext.

(** [CanonicalLogger]: the one call it makes on [slogger].  [metadata] is
    the attribute list the transport adapters pass. *)
Definition CanonicalLogger (rt : Runtime) (pkg : Package) (level : Z)
    (request response : string) (err : option error)
    (canonicalLog : CanonicalLog.t) (metadata : list slog.Attr) : slog.Call :=
  let logKey := CanonicalLog.Path canonicalLog in
  let reqFields := [payloadField rt "request" request] in
  let shouldSanitize := Sanitize rt pkg logKey in
  let reqFields :=
    if shouldSanitize then [slog.String "request" "REDACTED"] else reqFields in
  let '(level, respFields, canonicalLog) := classify rt response err canonicalLog in
  let respFields :=
    if shouldSanitize then [slog.String "response" "REDACTED"] else respFields in
  let mdFields := [slog.String "logger_name" "canonical"; slog.Group "md" metadata] in
  let logMsg := summary pkg canonicalLog in
  let fields := (reqFields ++ respFields) ++ mdFields in
  {| slog.method := methodOf level; slog.msg := logMsg; slog.args := fields |}.

End logger.

(** ** Package logger: the zap encoder wrapper *)

Module zapcore.

Inductive FieldType : Type :=
| UnknownType | ArrayMarshalerType | ObjectMarshalerType | BinaryType
| BoolType | ByteStringType | Complex128Type | Complex64Type | DurationType
| Float64Type | Float32Type | Int64Type | Int32Type | Int16Type | Int8Type
| StringType | TimeType | TimeFullType | Uint64Type | Uint32Type
| Uint16Type | Uint8Type | UintptrType | ReflectType | NamespaceType
| StringerType | ErrorType | SkipType | InlineMarshalerType.

Definition isInt64Type (t : FieldType) : bool :=
  match t with
  | Int64Type => true
  | _ => false
  end.

Record Field : Type := {
  Key : string;
  Type_ : FieldType;
  Integer : Z;
  String_ : string;
  Interface : any
}.

End zapcore.

Module CoolEncoder.
Section Encoder.

(** [zapcore.Entry] and what an encoder returns, a buffer with an error,
    are zap's own. *)
Variables Entry Encoded : Type.

(** [type CoolEncoder struct { zapcore.Encoder }] *)
Record t : Type := mk {
  Encoder_EncodeEntry : Entry -> list zapcore.Field -> Encoded
}.

(** The loop of [EncodeEntry]; [filtered] grows by [append]. *)
Fixpoint filter_loop (fields filtered : list zapcore.Field) : list zapcore.Field :=
  match fields with
  | [] => filtered
  | field :: fields' =>
      if String.eqb (zapcore.Key field) "skip"
         || zapcore.isInt64Type (zapcore.Type_ field)
      then filter_loop fields' filtered
      else filter_loop fields' (filtered ++ [field])
  end.

Definition EncodeEntry (c : t) (entry : Entry) (fields : list zapcore.Field)
  : Encoded :=
  let filtered := filter_loop fields [] in
  Encoder_EncodeEntry c entry filtered.

End Encoder.

Arguments mk {Entry Encoded} _.
Arguments Encoder_EncodeEntry {Entry Encoded} _ _ _.
Arguments EncodeEntry {Entry Encoded} _ _ _.
End CoolEncoder.

(** ** Package grpcclient: masking by struct tag *)

Module reflect.

(** A struct tag in its conventional form, as the key/value pairs it
    spells, in order. *)
Definition StructTag : Type := list (string * string).

Fixpoint Lookup (tag : StructTag) (key : string) : option string :=
  match tag with
  | [] => None
  | (name, value) :: tag' =>
      if String.eqb key name then Some value else Lookup tag' key
  end.

Definition Get (tag : StructTag) (key : string) : string :=
  match Lookup tag key with
  | Some v => v
  | None => ""
  end.

Record StructField : Type := {
  Name : string;
  Tag : StructTag
}.

End reflect.

Module grpcclient.

Definition mask : string := "*****".

(** [strValue[0:1] + "*****" + strValue[len(strValue)-1:]] *)
Definition maskLong (strValue : string) : string :=
  take_str 1 strValue +:+ mask +:+ drop_str (String.length strValue - 1) strValue.

(** The body of the loop over the fields of the message type. *)
Definition maskField (field : reflect.StructField) (data : gmap string any)
  : gmap string any :=
  match reflect.Lookup (reflect.Tag field) "sensitive" with
  | Some sensitiveTag =>
      if String.eqb sensitiveTag "true" then
        let jsonTag := reflect.Get (reflect.Tag field) "json" in
        let commaIdx := strings.Index jsonTag "," in
        let jsonFieldName :=
          if -1 <? commaIdx then take_str (Z.to_nat commaIdx) jsonTag else jsonTag in
        match data !! jsonFieldName with
        | Some value =>
            match value with
            | AString strValue =>
                if 2 <=? len strValue then
                  <[jsonFieldName := AString (maskLong strValue)]> data
                else if len strValue =? 1 then
                  <[jsonFieldName := AString (strValue +:+ mask)]> data
                else data
            | _ => data
            end
        | None => data
        end
      else data
  | None => data
  end.

(** [maskSensitiveDataUsingStructTag].  [message] is [None] for a nil
    message and otherwise lists the fields the struct type behind the
    pointer declares, in order; [data] is updated in place, the result being
    its final content. *)
Definition maskSensitiveDataUsingStructTag
    (message : option (list reflect.StructField)) (data : gmap string any)
  : gmap string any :=
  match message with
  | None => data
  | Some fields => fold_left (fun data field => maskField field data) fields data
  end.

End grpcclient.

(** ** os: the environment *)

Module os.

(** The variables that are set, with their values. *)
Definition Environ : Type := gmap string string.

(** [Getenv]: the value of the variable, empty when it is not set. *)
Definition Getenv (environ : Environ) (key : string) : string :=
  match environ !! key with
  | Some value => value
  | None => ""
  end.

End os.

(** ** Package config: config.go *)

Module config.

Module LogConfig.
Record t : Type := mk {
  Env : string;
  ServiceName : string;
  Level : string;
  UseJSON : bool;
  FileEnabled : bool;
  FilePath : string;
  FileSize : Z;
  MaxAge : Z;
  MaxBackups : Z
}.
End LogConfig.

(** Go's [int], 64 bits wide: the value an arithmetic result wraps to. *)
Definition int (z : Z) : Z := (z + 2 ^ 63) mod 2 ^ 64 - 2 ^ 63.

Definition getEnvOrDefault (environ : os.Environ) (key defaultValue : string)
  : string :=
  let value := os.Getenv environ key in
  if negb (String.eqb value "") then value else defaultValue.

Definition getEnvBoolOrDefault (rt : Runtime) (environ : os.Environ)
    (key : string) (defaultValue : bool) : bool :=
  let value := os.Getenv environ key in
  if negb (String.eqb value "") then String.eqb (strings.ToLower rt value) "true"
  else defaultValue.

(** The loop of [parseIntSafe] over the runes of the string. *)
Fixpoint parseIntSafe_loop (result : Z) (s : list Z) : Z :=
  match s with
  | [] => result
  | c :: s' =>
      if (48 <=? c) && (c <=? 57)
      then parseIntSafe_loop (int (int (result * 10) + int (c - 48))) s'
      else 0
  end.

Definition parseIntSafe (s : string) : Z := parseIntSafe_loop 0 (utf8.runes s).

Definition getEnvIntOrDefault (environ : os.Environ) (key : string)
    (defaultValue : Z) : Z :=
  let value := os.Getenv environ key in
  if negb (String.eqb value "") then
    let intValue := parseIntSafe value in
    if 0 <? intValue then intValue else defaultValue
  else defaultValue.

Definition GetDefault (env : string) : LogConfig.t :=
  if String.eqb env "local" || String.eqb env "development" then
    LogConfig.mk env "blogger-service" "debug" false false "logs/app.log" 100 30 3
  else
    LogConfig.mk env "blogger-service" "info" true false "logs/app.log" 100 30 3.

Definition LoadFromEnv (rt : Runtime) (environ : os.Environ) : LogConfig.t :=
  let defaultEnv := getEnvOrDefault environ "BLOGGER_ENV" "local" in
  let defaults := GetDefault defaultEnv in
  let config :=
    LogConfig.mk
      (getEnvOrDefault environ "BLOGGER_ENV" (LogConfig.Env defaults))
      (getEnvOrDefault environ "BLOGGER_SERVICE_NAME" (LogConfig.ServiceName defaults))
      (getEnvOrDefault environ "BLOGGER_LOG_LEVEL" (LogConfig.Level defaults))
      (getEnvBoolOrDefault rt environ "BLOGGER_USE_JSON" (LogConfig.UseJSON defaults))
      (getEnvBoolOrDefault rt environ "BLOGGER_FILE_ENABLED"
         (LogConfig.FileEnabled defaults))
      (getEnvOrDefault environ "BLOGGER_FILE_PATH" (LogConfig.FilePath defaults))
      (getEnvIntOrDefault environ "BLOGGER_FILE_SIZE" (LogConfig.FileSize defaults))
      (getEnvIntOrDefault environ "BLOGGER_MAX_AGE" (LogConfig.MaxAge defaults))
      (getEnvIntOrDefault environ "BLOGGER_MAX_BACKUPS" (LogConfig.MaxBackups defaults))
  in
  if String.eqb (LogConfig.Env config) "local"
     || String.eqb (LogConfig.Env config) "development"
  then
    LogConfig.mk (LogConfig.Env config) (LogConfig.ServiceName config) "debug" false
      (LogConfig.FileEnabled config) (LogConfig.FilePath config)
      (LogConfig.FileSize config) (LogConfig.MaxAge config)
      (LogConfig.MaxBackups config)
  else config.

(** [applyEnvOverrides]: the configuration the pointer refers to after the
    call. *)
Definition applyEnvOverrides (rt : Runtime) (environ : os.Environ)
    (config : LogConfig.t) : LogConfig.t :=
  let env := os.Getenv environ "BLOGGER_ENV" in
  let serviceName := os.Getenv environ "BLOGGER_SERVICE_NAME" in
  let level := os.Getenv environ "BLOGGER_LOG_LEVEL" in
  let useJSON := os.Getenv environ "BLOGGER_USE_JSON" in
  let fileEnabled := os.Getenv environ "BLOGGER_FILE_ENABLED" in
  let filePath := os.Getenv environ "BLOGGER_FILE_PATH" in
  LogConfig.mk
    (if negb (String.eqb env "") then env else LogConfig.Env config)
    (if negb (String.eqb serviceName "") then serviceName
     else LogConfig.ServiceName config)
    (if negb (String.eqb level "") then level else LogConfig.Level config)
    (if negb (String.eqb useJSON "")
     then String.eqb (strings.ToLower rt useJSON) "true"
     else LogConfig.UseJSON config)
    (if negb (String.eqb fileEnabled "")
     then String.eqb (strings.ToLower rt fileEnabled) "true"
     else LogConfig.FileEnabled config)
    (if negb (String.eqb filePath "") then filePath else LogConfig.FilePath config)
    (LogConfig.FileSize config) (LogConfig.MaxAge config)
    (LogConfig.MaxBackups config).

(** [LoadFromFile].  Reading the file and decoding YAML are the
    library's: [data] is what [os.ReadFile] returned and [yaml_Unmarshal]
    what decoding a document into a zero [Config] leaves in its [Log]
    field, an [inl] being the text of the error.  [%w] writes the text of
    the wrapped error. *)
Definition LoadFromFile (rt : Runtime) (environ : os.Environ)
    (data : string + string) (yaml_Unmarshal : string -> string + LogConfig.t)
  : string + LogConfig.t :=
  match data with
  | inl err => inl ("failed to read config file: " +:+ err)
  | inr data =>
      match yaml_Unmarshal data with
      | inl err => inl ("failed to unmarshal config: " +:+ err)
      | inr config => inr (applyEnvOverrides rt environ config)
      end
  end.

End config.

(** ** Package logger: set-up, handler and zap cores *)

Module zap.

Definition DebugLevel : Z := -1.
Definition InfoLevel : Z := 0.
Definition WarnLevel : Z := 1.
Definition ErrorLevel : Z := 2.
Definition DPanicLevel : Z := 3.
Definition PanicLevel : Z := 4.
Definition FatalLevel : Z := 5.

End zap.

(** go.opentelemetry.io/otel/trace: the span context a [context.Context]
    carries, the one of all zero bytes when it carries none. *)
Module trace.

Record SpanContext : Type := {
  traceID : list Z;
  spanID : list Z
}.

(** [TraceID.IsValid], [SpanID.IsValid]: some byte is not zero. *)
Definition IsValid (id : list Z) : bool := existsb (fun b => negb (b =? 0)) id.

Definition HasTraceID (sc : SpanContext) : bool := IsValid (traceID sc).
Definition HasSpanID (sc : SpanContext) : bool := IsValid (spanID sc).

Definition hextable : string := "0123456789abcdef".

Definition hexdigit (n : Z) : ascii :=
  match String.get (Z.to_nat n) hextable with
  | Some c => c
  | None => "0"%char
  end.

(** [hex.EncodeToString], which is what [String] of an identifier is. *)
Fixpoint hex (id : list Z) : string :=
  match id with
  | [] => ""
  | b :: id' =>
      String.String (hexdigit (Z.shiftr b 4))
        (String.String (hexdigit (Z.land b 0x0f)) (hex id'))
  end.

End trace.

Module logger_setup.

Module Config.
Record t : Type := mk {
  Env : string;
  ServiceName : string;
  Level : string;
  UseJSON : bool;
  FileEnabled : bool;
  FilePath : string;
  FileSize : Z;
  MaxAge : Z;
  MaxBackups : Z
}.
End Config.

(** The package-level variables [Env], [ServiceName] and [Version]. *)
Record Globals : Type := {
  Env : string;
  ServiceName : string;
  Version : string
}.

Definition getEnvOrDefault (environ : os.Environ) (key defaultValue : string)
  : string :=
  let value := os.Getenv environ key in
  if negb (String.eqb value "") then value else defaultValue.

Definition getZapLogLevel (level : string) : Z :=
  if String.eqb level "debug" then zap.DebugLevel
  else if String.eqb level "info" then zap.InfoLevel
  else if String.eqb level "warn" then zap.WarnLevel
  else if String.eqb level "error" then zap.ErrorLevel
  else if String.eqb level "panic" then zap.PanicLevel
  else if String.eqb level "fatal" then zap.FatalLevel
  else zap.InfoLevel.

Inductive Encoder : Type :=
| jsonEncoder
| consoleEncoder.

Record lumberjack_Logger : Type := {
  Filename : string;
  MaxSize : Z;
  MaxBackups : Z;
  MaxAge : Z;
  Compress : bool
}.

Inductive WriteSyncer : Type :=
| fileWriter (l : lumberjack_Logger)
| Stdout.

(** [zapcore.NewCore(enc, ws, enab)] *)
Record Core : Type := NewCore {
  enc : Encoder;
  ws : WriteSyncer;
  enab : Z
}.

(** [newZapLogger]: the cores given to [zapcore.NewTee], which the zap
    logger and the slog handler both write to. *)
Definition newZapLogger (config : Config.t) : list Core :=
  let zapLogLevel := getZapLogLevel (Config.Level config) in
  let lumberjackLogger :=
    {| Filename := Config.FilePath config;
       MaxSize := Config.FileSize config;
       MaxBackups := Config.MaxBackups config;
       MaxAge := Config.MaxAge config;
       Compress := true |} in
  let zapCoreList := [] in
  let zapCoreList :=
    if Config.FileEnabled config
    then zapCoreList ++ [NewCore jsonEncoder (fileWriter lumberjackLogger) zapLogLevel]
    else zapCoreList in
  let zapCoreList :=
    if Config.UseJSON config
    then zapCoreList ++ [NewCore jsonEncoder Stdout zapLogLevel]
    else zapCoreList in
  if (length zapCoreList =? 0)%nat
  then [NewCore consoleEncoder Stdout zapLogLevel]
  else zapCoreList.

Definition getDefaultConfig (g : Globals) (env : string) : Config.t :=
  if String.eqb env "local" || String.eqb env "development" then
    Config.mk env (ServiceName g) "debug" false false "logs/app.log" 100 30 3
  else
    Config.mk env (ServiceName g) "info" true false "logs/app.log" 100 30 3.

(** [AddDDFields]: the attributes of the record after the call, [AddAttrs]
    appending to those it has. *)
Definition AddDDFields (g : Globals) (ctx : trace.SpanContext)
    (record : list slog.Attr) : list slog.Attr :=
  let spanCtx := ctx in
  let traceID := "" in
  let spanID := "" in
  let '(traceID, record) :=
    if trace.HasTraceID spanCtx then
      let traceID := trace.hex (trace.traceID spanCtx) in
      (traceID, record ++ [slog.String "trace_id" traceID])
    else (traceID, record) in
  let '(spanID, record) :=
    if trace.HasSpanID spanCtx then
      let spanID := trace.hex (trace.spanID spanCtx) in
      (spanID, record ++ [slog.String "span_id" spanID])
    else (spanID, record) in
  record ++
  [slog.Group "dd"
     [slog.String "env" (Env g);
      slog.String "service" (ServiceName g);
      slog.String "trace_id" traceID;
      slog.String "span_id" spanID;
      slog.String "version" (Version g)]].

Section Handler.

(** The [slog.Handler] values of other packages, with their three methods
    that [Handler] forwards to. *)
Variables H Result : Type.
Variable H_Handle : H -> trace.SpanContext -> list slog.Attr -> Result.
Variable H_WithAttrs : H -> list slog.Attr -> H.
Variable H_WithGroup : H -> string -> H.

(** A [slog.Handler]: a handler of another package, or a [Handler] of this
    one around a [slog.Handler]. *)
Inductive slog_Handler : Type :=
| foreign (h : H)
| Handler (handler : slog_Handler).

Definition NewHandler (handler : slog_Handler) : slog_Handler := Handler handler.

(** [Handle], dispatched on the dynamic type. *)
Fixpoint Handle (g : Globals) (h : slog_Handler) (ctx : trace.SpanContext)
    (record : list slog.Attr) : Result :=
  match h with
  | foreign h => H_Handle h ctx record
  | Handler handler => Handle g handler ctx (AddDDFields g ctx record)
  end.

Fixpoint WithAttrs (h : slog_Handler) (attrs : list slog.Attr) : slog_Handler :=
  match h with
  | foreign h => foreign (H_WithAttrs h attrs)
  | Handler handler => Handler (WithAttrs handler attrs)
  end.

Fixpoint WithGroup (h : slog_Handler) (name : string) : slog_Handler :=
  match h with
  | foreign h => foreign (H_WithGroup h name)
  | Handler handler => WithGroup handler name
  end.

End Handler.

Arguments foreign {H} _.
Arguments Handler {H} _.
Arguments NewHandler {H} _.
Arguments Handle {H Result} _ _ _ _ _.
Arguments WithAttrs {H} _ _ _.
Arguments WithGroup {H} _ _ _.

(** [Init]: the package variables it sets, the cores of the logger it
    installs and the package state after compiling the template ([None] is
    the panic of [CompileCanonicalLogTemplate]), with the message it logs
    through the new default logger. *)
Record Initialized : Type := {
  globals : Globals;
  cores : list Core;
  package : logger.Package;
  logged : slog.Call
}.

Definition Init (environ : os.Environ) (pkg : logger.Package) (config : Config.t)
  : option Initialized :=
  let g :=
    {| Env := getEnvOrDefault environ "DD_ENV" (Config.Env config);
       ServiceName := getEnvOrDefault environ "DD_SERVICE" (Config.ServiceName config);
       Version := getEnvOrDefault environ "DD_VERSION" "unknown" |} in
  let zapLogger := newZapLogger config in
  pkg ← logger.CompileCanonicalLogTemplate pkg;
  Some {| globals := g;
          cores := zapLogger;
          package := pkg;
          logged := {| slog.method := slog.InfoContext;
                       slog.msg := "Logger initialized";
                       slog.args := [] |} |}.

Module Pathfinder.
Record t : Type := mk { svc : string }.
End Pathfinder.

Definition NewPathfinder (svc : string) : Pathfinder.t := Pathfinder.mk svc.

Definition Pathfinder_InfoContext (p : Pathfinder.t) (msg : string)
    (fields : list slog.Attr) : slog.Call :=
  {| slog.method := slog.InfoContext;
     slog.msg := "[service][" +:+ Pathfinder.svc p +:+ "] " +:+ msg;
     slog.args := fields |}.

Definition Pathfinder_ErrorContext (p : Pathfinder.t) (msg : string)
    (fields : list slog.Attr) : slog.Call :=
  {| slog.method := slog.ErrorContext;
     slog.msg := "[service][" +:+ Pathfinder.svc p +:+ "] " +:+ msg;
     slog.args := fields |}.

Definition Pathfinder_NewPathfinder (p : Pathfinder.t) (svc : string)
  : Pathfinder.t :=
  Pathfinder.mk (Pathfinder.svc p +:+ "." +:+ svc).

End logger_setup.

(** ** Package grpcclient: a message as a map *)

Module proto.

(** A [proto.Message] behind a non-nil pointer to a struct, as far as the
    package looks at it: the fields the struct type declares, in order, and
    what [protojson.MarshalOptions{EmitUnpopulated: true}.Marshal] returns
    for it, [None] being its error. *)
Record Message : Type := {
  fields : list reflect.StructField;
  protojson_Marshal : option string
}.

End proto.

Module grpcclient_map.

Inductive error : Type :=
| marshalError
| unmarshalError (err : json.error).

(** [protoMessageToMap]; [message] is [None] for a nil interface and for a
    nil pointer.  The masker only writes under a key it has found, so a nil
    map stays nil. *)
Definition protoMessageToMap (rt : Runtime) (message : option proto.Message)
  : error + option (gmap string any) :=
  match message with
  | None => inr None
  | Some m =>
      match proto.protojson_Marshal m with
      | None => inl marshalError
      | Some jsonBytes =>
          match json.Unmarshal rt jsonBytes with
          | inl err => inl (unmarshalError err)
          | inr result =>
              inr (option_map
                     (grpcclient.maskSensitiveDataUsingStructTag
                        (Some (proto.fields m)))
                     result)
          end
      end
  end.

End grpcclient_map.

(** ** Package httpserver *)

Module fmt.

(** [Sprint] of a [[]string]: the elements between brackets with a space
    between two of them. *)
Definition Sprint_strings (a : list string) : string :=
  "[" +:+ strings.Join a " " +:+ "]".

End fmt.

Module httpserver.

Definition convertHeaderAttrToString (key : string)
    (headers : gmap string (list string)) : string :=
  match headers !! key with
  | Some (header0 :: _) => header0
  | _ => ""
  end.

(** What the middleware reads from the [fiber.Ctx]: the request, and the
    response as it stands when [c.Next()] has returned. *)
Record Ctx : Type := {
  Body : string;
  Method : string;
  Path : string;
  IP : string;
  ReqHeaders : gmap string (list string);
  Response_Body : string;
  Response_StatusCode : Z
}.

Definition StatusBadRequest : Z := 400.

(** The [fields] of [Logging]. *)
Definition fields (c : Ctx) (elapse : Z) : list slog.Attr :=
  let headers := ReqHeaders c in
  [slog.String "logger_name" "canonical";
   slog.Group "httpserver_md"
     [slog.String "type" "httpserver";
      slog.String "method" (Method c);
      slog.String "path" (Path c);
      slog.String "ip" (IP c);
      slog.String "duration" (time.String_ elapse);
      slog.String "accept-language"
        (convertHeaderAttrToString "Accept-Language" headers);
      slog.String "x-request-id" (convertHeaderAttrToString "X-Request-Id" headers);
      slog.String "x-username" (convertHeaderAttrToString "X-Username" headers);
      slog.String "x-user-id" (convertHeaderAttrToString "X-User-Id" headers);
      slog.String "x-permissions"
        (fmt.Sprint_strings
           (match headers !! "X-Permissions" with Some a => a | None => [] end))]].

(** The handler [Logging] returns, from the return of [c.Next()] on: the
    call made on the logger.  [err] is what [c.Next()] returned and
    [elapse] the time it took. *)
Definition Logging (rt : Runtime) (pkg : logger.Package) (c : Ctx)
    (err : option logger.error) (elapse : Z) : slog.Call :=
  let requestBody := Body c in
  let responseBody := Response_Body c in
  let fields := fields c elapse in
  let level :=
    if StatusBadRequest <=? Response_StatusCode c then logger.Error
    else logger.Info in
  logger.CanonicalLogger rt pkg level requestBody responseBody err
    (logger.CanonicalLog.mk "http" "internal" (Method c) (Response_StatusCode c)
       (Path c) elapse "" 0)
    fields.

End httpserver.

(** ** Package grpcserver *)

Module codes.

Definition OK : Z := 0.
Definition Unknown : Z := 2.

End codes.

Module grpcserver.

(** A non-nil error a handler returns: a [*ExceptionError], an error in
    which [status.FromError] finds a gRPC status, or any other. *)
Inductive error : Type :=
| exceptionError (cErr : option logger.ExceptionError.t)
| statusError (code : Z) (text : string)
| plainError (text : string).

(** The same error as [CanonicalLogger] sees it. *)
Definition asError (err : error) : logger.error :=
  match err with
  | exceptionError cErr => logger.ExceptionErrorPtr cErr
  | statusError _ text => logger.otherError text
  | plainError text => logger.otherError text
  end.

(** [err.Error()]: the text of the error; [None] is the panic of the
    [Error] method of [*ExceptionError] on a nil receiver, whose field it
    reads. *)
Definition Error (err : error) : option string :=
  match err with
  | exceptionError None => None
  | exceptionError (Some cErr) => Some (logger.ExceptionError.Error cErr)
  | statusError _ text => Some text
  | plainError text => Some text
  end.

(** [status.Code]: [OK] for nil and the code of the status the error
    carries; for any other error the code of
    [status.New(codes.Unknown, err.Error())], the text of the error being
    taken first, a [*ExceptionError] having no [GRPCStatus] method and
    wrapping nothing.  [None] is the panic of [err.Error()]. *)
Definition status_Code (err : option error) : option Z :=
  match err with
  | None => Some codes.OK
  | Some (statusError code _) => Some code
  | Some err => _ ← Error err; Some codes.Unknown
  end.

(** [protoMessageToJsonBytes]: the bytes, nil ones being empty, and whether
    an error is returned with them. *)
Definition protoMessageToJsonBytes (message : option proto.Message)
  : string * bool :=
  match message with
  | None => ("", false)
  | Some m =>
      match proto.protojson_Marshal m with
      | None => ("", true)
      | Some jsonBytes => (jsonBytes, false)
      end
  end.

Definition healthCheck : string := "/grpc.health.v1.Health/Check".

(** The interceptor [Intercept] returns, the handler having returned [resp]
    and [err] after [elapse]: the calls made on the logger.  [req] and
    [resp] are [None] when the value is no [proto.Message].  The result is
    [None] when [status.Code] panics, which it does while the arguments of
    [CanonicalLogger] are evaluated, so before anything is logged. *)
Definition Intercept (rt : Runtime) (pkg : logger.Package) (FullMethod : string)
    (req resp : option proto.Message) (err : option error) (elapse : Z)
  : option (list slog.Call) :=
  if String.eqb FullMethod healthCheck then Some []
  else
    let requestBody := (protoMessageToJsonBytes req).1 in
    let responseBody := (protoMessageToJsonBytes resp).1 in
    let fields :=
      [slog.String "logger_name" "canonical";
       slog.Group "grpcserver_md"
         [slog.String "type" "grpcserver";
          slog.String "method" "POST";
          slog.String "path" FullMethod;
          slog.String "duration" (time.String_ elapse)]] in
    let level :=
      match err with
      | Some _ => logger.Error
      | None => logger.Info
      end in
    status ← status_Code err;
    Some
      [logger.CanonicalLogger rt pkg level requestBody responseBody
         (option_map asError err)
         (logger.CanonicalLog.mk "grpc" "internal" "POST" status
            FullMethod elapse "" 0)
         fields].

End grpcserver.

(** * Properties *)

(** A runtime to evaluate closed examples with: no number converts and the
    case tables are the identity.  The examples below use neither. *)
Definition exampleRuntime : Runtime :=
  {| strconv_ParseFloat := fun _ => None; unicode_To_LowerCase := fun r => r |}.

(** ** Strings *)

Section string_facts.

Lemma str_app_cons c (s t : string) : String c s +:+ t = String c (s +:+ t).
Proof. reflexivity. Qed.

Lemma str_app_nil_r (s : string) : s +:+ "" = s.
Proof. induction s as [|c s IH]; [reflexivity|]. by rewrite str_app_cons, IH. Qed.

Lemma str_app_assoc (s t u : string) : (s +:+ t) +:+ u = s +:+ t +:+ u.
Proof. induction s as [|c s IH]; [reflexivity|]. by rewrite !str_app_cons, IH. Qed.

Lemma str_app_length (s t : string) :
  String.length (s +:+ t) = (String.length s + String.length t)%nat.
Proof. induction s as [|c s IH]; [reflexivity|]. rewrite str_app_cons. simpl. lia. Qed.

Lemma HasPrefix_spec (s p : string) :
  strings.HasPrefix s p = true <-> exists post, s = p +:+ post.
Proof.
  revert s. induction p as [|c p IH]; intros s; simpl.
  - split; [intros _; by exists s|done].
  - destruct s as [|d s].
    + split; [done|]. intros [post H]. discriminate H.
    + rewrite andb_true_iff, IH, Ascii.eqb_eq. split.
      * intros [-> [post ->]]. by exists post.
      * intros [post H]. rewrite str_app_cons in H. injection H as -> ->. eauto.
Qed.

Lemma Index_unfold (s p : string) :
  strings.Index s p =
    if strings.HasPrefix s p then 0
    else match s with
         | "" => -1
         | String _ s' =>
             let i := strings.Index s' p in if i <? 0 then -1 else i + 1
         end.
Proof. by destruct s. Qed.

Lemma Index_lower (s p : string) : -1 <= strings.Index s p.
Proof.
  induction s as [|c s IH]; rewrite Index_unfold;
    destruct (strings.HasPrefix _ p); try lia.
  cbv zeta. destruct (Z.ltb_spec (strings.Index s p) 0); lia.
Qed.

(** [Contains] is the substring relation. *)
Lemma Contains_spec (s p : string) :
  strings.Contains s p = true <-> exists pre post, s = pre +:+ p +:+ post.
Proof.
  unfold strings.Contains. induction s as [|c s IH]; rewrite Index_unfold.
  - destruct (strings.HasPrefix "" p) eqn:E.
    + split; [|done]. intros _. apply HasPrefix_spec in E as [post E].
      by exists "", post.
    + split; [done|]. intros (pre & post & H).
      destruct pre; [|discriminate H].
      assert (strings.HasPrefix "" p = true) by (apply HasPrefix_spec; eauto).
      congruence.
  - destruct (strings.HasPrefix (String c s) p) eqn:E.
    + split; [|done]. intros _. apply HasPrefix_spec in E as [post E].
      by exists "", post.
    + cbv zeta. destruct (Z.ltb_spec (strings.Index s p) 0) as [Hi|Hi].
      * split; [done|]. intros (pre & post & H).
        destruct pre as [|d pre].
        { assert (strings.HasPrefix (String c s) p = true)
            by (apply HasPrefix_spec; eauto). congruence. }
        rewrite str_app_cons in H. injection H as -> ->.
        assert ((0 <=? strings.Index (pre +:+ p +:+ post) p) = true) as H
          by (apply IH; eauto).
        apply Z.leb_le in H. lia.
      * split; [|intros _; apply Z.leb_le; lia].
        intros _. destruct IH as [IH _].
        destruct IH as (pre & post & ->); [apply Z.leb_le; lia|].
        by exists (String c pre), post.
Qed.

End string_facts.

(** ** Splitting and joining *)

Section split_facts.

Lemma string_of_list_ascii_app (l1 l2 : list ascii) :
  string_of_list_ascii (l1 ++ l2)
  = string_of_list_ascii l1 +:+ string_of_list_ascii l2.
Proof. induction l1 as [|c l1 IH]; [reflexivity|]. simpl. by rewrite IH. Qed.

Lemma drop_str_app (a b : string) : drop_str (String.length a) (a +:+ b) = b.
Proof. induction a as [|c a IH]; [reflexivity|]. exact IH. Qed.

Lemma Join_cons (e : string) (rest : list string) (sep : string) :
  rest <> [] -> strings.Join (e :: rest) sep = e +:+ sep +:+ strings.Join rest sep.
Proof. by destruct rest. Qed.

Lemma split_from_nonempty (sep : string) (s : string) (skip : nat) (cur : list ascii) :
  strings.split_from sep skip cur s <> [].
Proof.
  revert skip cur. induction s as [|c s IH]; intros skip cur; simpl; [done|].
  destruct skip; [|apply IH].
  destruct (strings.HasPrefix _ sep); [done|apply IH].
Qed.

(** Joining what [Split] returns gives the string back. *)
Lemma Join_split_from (sep : string) (s : string) (skip : nat) (cur : list ascii) :
  sep <> "" -> (skip <= String.length s)%nat ->
  strings.Join (strings.split_from sep skip cur s) sep
  = string_of_list_ascii (rev cur) +:+ drop_str skip s.
Proof.
  intros Hsep. revert skip cur.
  induction s as [|c s IH]; intros skip cur Hskip.
  - simpl in Hskip. assert (skip = 0%nat) as -> by lia. simpl.
    by rewrite str_app_nil_r.
  - destruct skip as [|k].
    + cbn [strings.split_from drop_str].
      destruct (strings.HasPrefix (String c s) sep) eqn:E.
      * apply HasPrefix_spec in E as [post E].
        destruct sep as [|d sep']; [done|].
        rewrite str_app_cons in E. injection E as <- ->.
        rewrite Join_cons by apply split_from_nonempty.
        replace (String.length (String c sep') - 1)%nat
          with (String.length sep') by (simpl; lia).
        rewrite IH by (rewrite str_app_length; lia).
        rewrite drop_str_app. reflexivity.
      * rewrite IH by (simpl; lia). cbn [rev drop_str].
        by rewrite string_of_list_ascii_app, str_app_assoc.
    + cbn [strings.split_from drop_str]. apply IH. simpl in Hskip. lia.
Qed.

Lemma Join_Split (s sep : string) :
  sep <> "" -> strings.Join (strings.Split s sep) sep = s.
Proof.
  intros Hsep. unfold strings.Split.
  rewrite Join_split_from by (done || lia). reflexivity.
Qed.

(** *** The frame delimiter *)

Definition LF : ascii := chr 10.
Definition TAB : ascii := chr 9.

Lemma frameSep_eq : logger.frameSep = String LF (String TAB "").
Proof. reflexivity. Qed.

(** A segment free of the delimiter is passed over whole, whether the text
    ends after it or a delimiter follows. *)
Lemma split_from_segment (p : string) (cur : list ascii) (rest : string) :
  strings.Contains p logger.frameSep = false ->
  rest = "" \/ (exists r, rest = logger.frameSep +:+ r) ->
  strings.split_from logger.frameSep 0 cur (p +:+ rest)
  = strings.split_from logger.frameSep 0
      (rev (list_ascii_of_string p) ++ cur) rest.
Proof.
  intros Hp Hrest. revert cur.
  induction p as [|c p IH]; intros cur; [reflexivity|].
  unfold strings.Contains in Hp. rewrite Index_unfold in Hp.
  destruct (strings.HasPrefix (String c p) logger.frameSep) eqn:E; [done|].
  cbv zeta in Hp.
  assert (strings.Contains p logger.frameSep = false) as Hp'.
  { unfold strings.Contains.
    destruct (Z.ltb_spec (strings.Index p logger.frameSep) 0);
      apply Z.leb_gt; [lia|]. apply Z.leb_gt in Hp. lia. }
  rewrite str_app_cons. cbn [strings.split_from].
  assert (strings.HasPrefix (String c (p +:+ rest)) logger.frameSep = false) as ->.
  { rewrite frameSep_eq in *. cbn [strings.HasPrefix] in *.
    destruct (Ascii.eqb LF c); [|reflexivity]. cbn [andb] in *.
    destruct p as [|d p].
    - destruct Hrest as [->|[r ->]]; reflexivity.
    - rewrite str_app_cons. exact E. }
  rewrite IH by done. cbn [list_ascii_of_string rev].
  by rewrite <- List.app_assoc.
Qed.

Lemma split_from_frameSep (cur : list ascii) (r : string) :
  strings.split_from logger.frameSep 0 cur (logger.frameSep +:+ r)
  = string_of_list_ascii (rev cur) :: strings.split_from logger.frameSep 0 [] r.
Proof. reflexivity. Qed.

Lemma split_from_Join (segs : list string) (e : string) (cur : list ascii) :
  Forall (fun seg => strings.Contains seg logger.frameSep = false) (e :: segs) ->
  strings.split_from logger.frameSep 0 cur (strings.Join (e :: segs) logger.frameSep)
  = (string_of_list_ascii (rev cur) +:+ e) :: segs.
Proof.
  revert e cur. induction segs as [|e2 segs IH]; intros e cur H.
  - cbn [strings.Join]. rewrite <- (str_app_nil_r e) at 1.
    rewrite split_from_segment; [|by inversion H|by left].
    cbn [strings.split_from]. rewrite rev_app_distr, rev_involutive.
    by rewrite string_of_list_ascii_app, string_of_list_ascii_of_string.
  - inversion H as [|? ? He H']; subst.
    rewrite Join_cons by done.
    rewrite split_from_segment; [|done|right; eauto].
    rewrite split_from_frameSep, IH by done.
    rewrite rev_app_distr, rev_involutive.
    by rewrite string_of_list_ascii_app, string_of_list_ascii_of_string.
Qed.

(** Splitting a joined list of delimiter-free segments gives the segments. *)
Lemma Split_Join (segs : list string) :
  segs <> [] ->
  Forall (fun seg => strings.Contains seg logger.frameSep = false) segs ->
  strings.Split (strings.Join segs logger.frameSep) logger.frameSep = segs.
Proof.
  intros Hne H. destruct segs as [|e segs]; [done|].
  unfold strings.Split. by rewrite split_from_Join.
Qed.

(** *** The segments [Split] returns are free of the delimiter *)

Definition sepfree (p : string) : Prop :=
  strings.Contains p logger.frameSep = false.

Lemma sepfree_cons (c : ascii) (p : string) :
  sepfree (String c p) <->
  strings.HasPrefix (String c p) logger.frameSep = false /\ sepfree p.
Proof.
  unfold sepfree, strings.Contains. rewrite (Index_unfold (String c p)).
  destruct (strings.HasPrefix (String c p) logger.frameSep); [by split; [|intros []]|].
  cbv zeta. pose proof (Index_lower p logger.frameSep).
  destruct (Z.ltb_spec (strings.Index p logger.frameSep) 0);
    rewrite !Z.leb_gt; split; try intros [_ ?]; try split; try done; lia.
Qed.

Lemma sepfree_snoc (x : list ascii) (c : ascii) :
  sepfree (string_of_list_ascii x) ->
  (last x = Some LF -> c <> TAB) ->
  sepfree (string_of_list_ascii (x ++ [c])).
Proof.
  induction x as [|d x IH]; intros Hx Hlast.
  - apply sepfree_cons. split; [|reflexivity].
    rewrite frameSep_eq. cbn [app string_of_list_ascii strings.HasPrefix].
    apply andb_false_r.
  - cbn [app string_of_list_ascii] in *.
    apply sepfree_cons in Hx as [Hd Hx]. apply sepfree_cons. split.
    + rewrite frameSep_eq in *. cbn [strings.HasPrefix] in *.
      destruct x as [|e x]; [|exact Hd].
      cbn [app string_of_list_ascii].
      destruct (Ascii.eqb LF d) eqn:E1; [|reflexivity].
      destruct (Ascii.eqb TAB c) eqn:E2; [|reflexivity].
      apply Ascii.eqb_eq in E1, E2. subst. by destruct Hlast.
    + apply IH; [done|]. intros Hl. apply Hlast.
      destruct x; [done|]. exact Hl.
Qed.

Lemma sepfree_split_from (s : string) :
  (forall cur,
      sepfree (string_of_list_ascii (rev cur)) ->
      (head cur = Some LF -> strings.HasPrefix s (String TAB "") = false) ->
      Forall sepfree (strings.split_from logger.frameSep 0 cur s))
  /\ Forall sepfree (strings.split_from logger.frameSep 1 [] s).
Proof.
  induction s as [|c s [IH0 IH1]].
  - split; [|by repeat constructor]. intros cur Hcur _. by repeat constructor.
  - assert (Forall sepfree (strings.split_from logger.frameSep 0 [] s)) as Hnil.
    { apply IH0; [reflexivity|done]. }
    split; [|exact Hnil].
    intros cur Hcur Hhead. cbn [strings.split_from].
    destruct (strings.HasPrefix (String c s) logger.frameSep) eqn:E.
    + constructor; [exact Hcur|exact IH1].
    + apply IH0.
      * cbn [rev]. apply sepfree_snoc; [exact Hcur|].
        intros Hl ->. destruct cur as [|d cur]; [done|].
        cbn [rev] in Hl. rewrite last_snoc in Hl. injection Hl as ->.
        by specialize (Hhead eq_refl).
      * cbn [head]. intros [= ->]. rewrite frameSep_eq in E.
        cbn [strings.HasPrefix] in *. rewrite Ascii.eqb_refl in E.
        exact E.
Qed.

Lemma sepfree_Split (s : string) :
  Forall sepfree (strings.Split s logger.frameSep).
Proof. apply sepfree_split_from; [reflexivity|done]. Qed.

(** The first [n] segments of a text, joined, split into themselves. *)
Lemma Split_Join_take (s : string) (n : nat) :
  (0 < n)%nat ->
  strings.Split
    (strings.Join (take n (strings.Split s logger.frameSep)) logger.frameSep)
    logger.frameSep
  = take n (strings.Split s logger.frameSep).
Proof.
  intros Hn. apply Split_Join.
  - pose proof (split_from_nonempty logger.frameSep s 0 []) as H.
    unfold strings.Split. destruct (strings.split_from _ _ _ _); [done|].
    destruct n; [lia|done].
  - apply Forall_take, sepfree_Split.
Qed.

End split_facts.

(** ** Redaction policy *)

Section Sanitize_facts.
Variable rt : Runtime.

Lemma Sanitize_loop_spec (lower : string) (patterns : list string) :
  logger.Sanitize_loop lower patterns = true <->
  exists p, In p patterns /\ strings.Contains lower p = true.
Proof.
  induction patterns as [|q patterns IH]; simpl.
  - split; [done|]. by intros (p & [] & _).
  - destruct (strings.Contains lower q) eqn:E.
    + split; [|done]. intros _. exists q. auto.
    + rewrite IH. split.
      * intros (p & Hp & Hc). exists p. auto.
      * intros (p & [<-|Hp] & Hc); [congruence|]. exists p. auto.
Qed.

(** C6.  With the default deny-list, [Sanitize] answers true exactly when
    the lower-cased route key has one of login, refresh-token, verify-otp,
    password, token, secret, key as a substring; "/api/auth/LOGIN" is
    redacted and "/health" is not. *)
Theorem Sanitize_iff_deny_substring :
  (forall (tmpl : option template.Template) (logKey : string),
      logger.Sanitize rt
        {| logger.canonicalLogTemplate := tmpl;
           logger.DenyPatterns := logger.defaultDenyPatterns |} logKey = true
      <->
      exists denyPattern,
        In denyPattern
          ["login"; "refresh-token"; "verify-otp"; "password"; "token";
           "secret"; "key"]
        /\ exists pre post,
             strings.ToLower rt logKey = pre +:+ denyPattern +:+ post)
  /\ logger.Sanitize rt logger.init "/api/auth/LOGIN" = true
  /\ logger.Sanitize rt logger.init "/health" = false.
Proof.
  split; [|split; reflexivity].
  intros tmpl logKey. unfold logger.Sanitize. simpl logger.DenyPatterns.
  rewrite Sanitize_loop_spec. unfold logger.defaultDenyPatterns.
  split; intros (p & Hp & Hc); exists p; (split; [exact Hp|]);
    by apply Contains_spec.
Qed.

End Sanitize_facts.

(** ** The canonical log assembler *)

Section CanonicalLogger_facts.
Variable rt : Runtime.
Variable pkg : logger.Package.

(** The [response] group written for a [*ExceptionError]. *)
Definition responseGroup (cErr : logger.ExceptionError.t) : slog.Attr :=
  slog.Group "response"
    [slog.Int "status_code" (logger.ExceptionError.APIStatusCode cErr);
     slog.Any "data" ANil;
     slog.Group "error"
       [slog.Int "code" (logger.ExceptionError.Code cErr);
        slog.String "message" (logger.ExceptionError.GlobalMessage cErr);
        slog.String "debug_message" (logger.ExceptionError.DebugMessage cErr);
        slog.Any "details" (anyOfMap (logger.ExceptionError.ErrFields cErr))]].

(** The two fields every call ends with. *)
Definition mdFields (metadata : list slog.Attr) : list slog.Attr :=
  [slog.String "logger_name" "canonical"; slog.Group "md" metadata].

(** C1.  The level hint is ignored: with a non-nil error the level is
    [Error] and the call goes through [ErrorContext]; with a nil error the
    level is [Info], the call goes through [InfoContext], and the record is
    left as the caller passed it, so that the summary is rendered from the
    caller's message. *)
Theorem CanonicalLogger_level_from_error
    (level : Z) (request response : string)
    (canonicalLog : logger.CanonicalLog.t) (metadata : list slog.Attr) :
  (forall e : logger.error,
      (logger.classify rt response (Some e) canonicalLog).1.1 = logger.Error
      /\ slog.method
           (logger.CanonicalLogger rt pkg level request response (Some e)
              canonicalLog metadata) = slog.ErrorContext)
  /\ (logger.classify rt response None canonicalLog).1.1 = logger.Info
  /\ slog.method
       (logger.CanonicalLogger rt pkg level request response None
          canonicalLog metadata) = slog.InfoContext
  /\ logger.CanonicalLog.Message
       (logger.classify rt response None canonicalLog).2
     = logger.CanonicalLog.Message canonicalLog
  /\ slog.msg
       (logger.CanonicalLogger rt pkg level request response None
          canonicalLog metadata) = logger.summary pkg canonicalLog.
Proof.
  split; [|by repeat split].
  intros [[cErr|]|text]; split; reflexivity.
Qed.

(** C2.  On a route that [Sanitize] flags, the call carries the request
    and the response each as the string "REDACTED", then the logger name
    and the metadata group, whatever the payloads and the error are. *)
Theorem CanonicalLogger_redacted
    (level : Z) (request response : string) (err : option logger.error)
    (canonicalLog : logger.CanonicalLog.t) (metadata : list slog.Attr) :
  logger.Sanitize rt pkg (logger.CanonicalLog.Path canonicalLog) = true ->
  slog.args
    (logger.CanonicalLogger rt pkg level request response err canonicalLog
       metadata)
  = [slog.String "request" "REDACTED"; slog.String "response" "REDACTED";
     slog.String "logger_name" "canonical"; slog.Group "md" metadata].
Proof.
  intros H. unfold logger.CanonicalLogger. rewrite H.
  by destruct (logger.classify rt response err canonicalLog) as [[? ?] ?].
Qed.

(** What is logged for a [*ExceptionError] on a route that is not
    redacted. *)
Lemma CanonicalLogger_exception
    (level : Z) (request response : string) (cErr : logger.ExceptionError.t)
    (canonicalLog : logger.CanonicalLog.t) (metadata : list slog.Attr) :
  logger.Sanitize rt pkg (logger.CanonicalLog.Path canonicalLog) = false ->
  slog.args
    (logger.CanonicalLogger rt pkg level request response
       (Some (logger.ExceptionErrorPtr (Some cErr))) canonicalLog metadata)
  = logger.payloadField rt "request" request
      :: match logger.ExceptionError.StackErrors cErr with
         | Some stackErrors => [logger.stackGroup (Some stackErrors)]
         | None => []
         end
      ++ responseGroup cErr :: mdFields metadata.
Proof.
  intros H. unfold logger.CanonicalLogger. rewrite H. simpl.
  by destruct (logger.ExceptionError.StackErrors cErr).
Qed.

(** C4, as the code has it.  On a route that is not redacted, a
    [*ExceptionError] whose [StackErrors] is nil is logged without the
    [error] group of a stack frame; one whose [StackErrors] is empty but
    not nil is logged with that group, filled with the default frame of
    [GetStackField].  In both cases the [response] group with the status,
    the nil [data] and the nested error fields follows. *)
Theorem CanonicalLogger_no_stack_frame
    (level : Z) (request response : string) (cErr : logger.ExceptionError.t)
    (canonicalLog : logger.CanonicalLog.t) (metadata : list slog.Attr) :
  logger.Sanitize rt pkg (logger.CanonicalLog.Path canonicalLog) = false ->
  let call :=
    logger.CanonicalLogger rt pkg level request response
      (Some (logger.ExceptionErrorPtr (Some cErr))) canonicalLog metadata in
  (logger.ExceptionError.StackErrors cErr = None ->
   slog.args call
   = [logger.payloadField rt "request" request; responseGroup cErr;
      slog.String "logger_name" "canonical"; slog.Group "md" metadata])
  /\ (logger.ExceptionError.StackErrors cErr = Some [] ->
      slog.args call
      = [logger.payloadField rt "request" request;
         slog.Group "error"
           [slog.String "kind" "unknown";
            slog.String "message" "no stack information available";
            slog.String "stack" ""];
         responseGroup cErr;
         slog.String "logger_name" "canonical"; slog.Group "md" metadata]).
Proof.
  intros H call. subst call.
  split; intros E; rewrite CanonicalLogger_exception, E by done; reflexivity.
Qed.

(** C3, as the code has it.  For a [*ExceptionError] with at least one
    stack frame, on a route that is not redacted, the [error] group holds
    the kind and the message of the first frame and, as its stack, the
    first six of the segments into which the newline-tab delimiter splits
    that frame's stack text, joined by the same delimiter; no later frame
    is written.  The stack so written splits into those segments again, at
    most six; and when the text is ten delimiter-free segments joined by
    the delimiter, what is written is the first six of them joined. *)
Theorem CanonicalLogger_stack_truncated
    (level : Z) (request response : string) (cErr : logger.ExceptionError.t)
    (first : logger.StackError.t) (later : list logger.StackError.t)
    (canonicalLog : logger.CanonicalLog.t) (metadata : list slog.Attr) :
  logger.Sanitize rt pkg (logger.CanonicalLog.Path canonicalLog) = false ->
  logger.ExceptionError.StackErrors cErr = Some (first :: later) ->
  let stack :=
    strings.Join
      (take 6 (strings.Split (logger.StackError.Stack first) logger.frameSep))
      logger.frameSep in
  slog.args
    (logger.CanonicalLogger rt pkg level request response
       (Some (logger.ExceptionErrorPtr (Some cErr))) canonicalLog metadata)
  = [logger.payloadField rt "request" request;
     slog.Group "error"
       [slog.String "kind" (logger.StackError.Kind first);
        slog.String "message" (logger.StackError.Message first);
        slog.String "stack" stack];
     responseGroup cErr;
     slog.String "logger_name" "canonical"; slog.Group "md" metadata]
  /\ strings.Split stack logger.frameSep
     = take 6 (strings.Split (logger.StackError.Stack first) logger.frameSep)
  /\ (length (strings.Split stack logger.frameSep) <= 6)%nat
  /\ (forall segs : list string,
         length segs = 10%nat ->
         Forall (fun seg => strings.Contains seg logger.frameSep = false) segs ->
         logger.StackError.Stack first = strings.Join segs logger.frameSep ->
         stack = strings.Join (take 6 segs) logger.frameSep).
Proof.
  intros Hs E stack.
  assert (strings.Split stack logger.frameSep
          = take 6 (strings.Split (logger.StackError.Stack first) logger.frameSep))
    as Hsplit by (apply Split_Join_take; lia).
  split; [|split; [exact Hsplit|split]].
  - rewrite CanonicalLogger_exception, E by done.
    unfold logger.stackGroup. cbn [logger.GetStackField app].
    do 4 f_equal. subst stack.
    destruct (Nat.ltb_spec 6
                (length (strings.Split (logger.StackError.Stack first)
                           logger.frameSep))) as [Hlt|Hge]; [reflexivity|].
    rewrite take_ge by lia. by rewrite Join_Split.
  - rewrite Hsplit, length_take. lia.
  - intros segs Hlen Hfree Hstack. subst stack.
    rewrite Hstack, Split_Join; [done| |done].
    by destruct segs.
Qed.

End CanonicalLogger_facts.

(** ** The summary line *)

Section summary_facts.

(** A byte the HTML escaper copies. *)
Definition plainByte (c : ascii) : bool :=
  match template.htmlReplacementTable (byte c) with
  | None => true
  | Some _ => false
  end.

(** A string without any of NUL, the two quotes, the ampersand, the plus
    sign and the angle brackets. *)
Fixpoint plain (s : string) : bool :=
  match s with
  | "" => true
  | String c s' => plainByte c && plain s'
  end.

Lemma htmlEscaper_plain (s : string) : plain s = true -> template.htmlEscaper s = s.
Proof.
  induction s as [|c s IH]; [done|]. cbn [plain template.htmlEscaper].
  unfold plainByte. intros [Hc Hs]%andb_true_iff.
  destruct (template.htmlReplacementTable (byte c)); [done|]. by rewrite IH.
Qed.

Lemma plain_app (a b : string) : plain (a +:+ b) = plain a && plain b.
Proof.
  induction a as [|c a IH]; [reflexivity|].
  rewrite str_app_cons. cbn [plain]. by rewrite IH, andb_assoc.
Qed.

Lemma plain_uint (u : Decimal.uint) : plain (NilEmpty.string_of_uint u) = true.
Proof. induction u; cbn [NilEmpty.string_of_uint plain]; by rewrite ?IHu. Qed.

Lemma plain_FormatUint (v : Z) : plain (strconv.FormatUint v) = true.
Proof.
  unfold strconv.FormatUint, NilZero.string_of_uint.
  destruct (N.to_uint (Z.to_N v)) eqn:E; rewrite <- ?E; try apply plain_uint.
  reflexivity.
Qed.

Lemma plain_Itoa (n : Z) : plain (strconv.Itoa n) = true.
Proof.
  unfold strconv.Itoa, NilZero.string_of_int.
  destruct (Z.to_int n) as [u|u]; cbn [plain]; rewrite ?andb_true_l;
    change (plain (NilZero.string_of_uint u) = true);
    unfold NilZero.string_of_uint;
    (destruct u eqn:E; [reflexivity|rewrite <- E; apply plain_uint..]).
Qed.

Lemma plain_digit (d : Z) : 0 <= d < 10 -> plainByte (chr (d + 48)) = true.
Proof.
  intros H.
  assert (d = 0 \/ d = 1 \/ d = 2 \/ d = 3 \/ d = 4 \/ d = 5 \/ d = 6 \/ d = 7
          \/ d = 8 \/ d = 9) as Hd by lia.
  repeat destruct Hd as [->|Hd]; try reflexivity. by subst.
Qed.

Lemma plain_fmtFrac_loop (prec : nat) (buf : string) (v : Z) (print : bool) :
  plain buf = true -> plain (time.fmtFrac_loop buf v prec print).1.1 = true.
Proof.
  revert buf v print. induction prec as [|prec IH]; intros buf v print Hb; [done|].
  cbn [time.fmtFrac_loop]. apply IH.
  destruct (print || negb (v mod 10 =? 0)); [|done].
  cbn [plain]. rewrite Hb, plain_digit; [done|]. apply Z.mod_pos_bound. lia.
Qed.

Lemma plain_fmtFrac (prec : nat) (buf : string) (v : Z) :
  plain buf = true -> plain (time.fmtFrac buf v prec).1 = true.
Proof.
  intros Hb. unfold time.fmtFrac.
  pose proof (plain_fmtFrac_loop prec buf v false Hb) as H.
  destruct (time.fmtFrac_loop buf v prec false) as [[b u] pr]. cbn in *.
  destruct pr; [|done]. by rewrite plain_app, H.
Qed.

Lemma plain_fmtInt (buf : string) (v : Z) :
  plain buf = true -> plain (time.fmtInt buf v) = true.
Proof. intros Hb. unfold time.fmtInt. by rewrite plain_app, plain_FormatUint. Qed.

(** The text of a duration has nothing to escape. *)
Lemma plain_Duration (d : Z) : plain (time.String_ d) = true.
Proof.
  unfold time.String_.
  assert (forall b : string, plain b = true ->
            plain (if d <? 0 then "-" +:+ b else b) = true) as Hneg.
  { intros b Hb. destruct (d <? 0); [|done]. rewrite plain_app. by rewrite Hb. }
  apply Hneg.
  destruct (Z.abs d <? time.Second).
  - destruct (Z.abs d =? 0); [reflexivity|].
    destruct (Z.abs d <? time.Microsecond);
      [|destruct (Z.abs d <? time.Millisecond)];
      match goal with
      | |- context [time.fmtFrac ?b ?v ?p] =>
          pose proof (plain_fmtFrac p b v eq_refl) as H;
          destruct (time.fmtFrac b v p) as [buf u]
      end; by apply plain_fmtInt.
  - pose proof (plain_fmtFrac 9 "s" (Z.abs d) eq_refl) as H.
    destruct (time.fmtFrac "s" (Z.abs d) 9) as [buf u]. cbn in H.
    destruct (0 <? u / 60); [|by apply plain_fmtInt].
    assert (plain (time.fmtInt ("m" +:+ time.fmtInt buf (u mod 60))
                     (u / 60 mod 60)) = true) as Hm.
    { apply plain_fmtInt. rewrite plain_app. by rewrite plain_fmtInt. }
    destruct (0 <? u / 60 / 60); [|exact Hm].
    apply plain_fmtInt. rewrite plain_app. by rewrite Hm.
Qed.

(** The line of the specification: the template with every field value
    written as it is. *)
Definition canonicalLine (c : logger.CanonicalLog.t) : string :=
  "[" +:+ logger.CanonicalLog.Transport c +:+ "][" +:+
  logger.CanonicalLog.Traffic c +:+ "] " +:+
  logger.CanonicalLog.Method c +:+ " " +:+
  strconv.Itoa (logger.CanonicalLog.Status c) +:+ " " +:+
  logger.CanonicalLog.Path c +:+ " " +:+
  time.String_ (logger.CanonicalLog.Duration c) +:+ " - " +:+
  logger.CanonicalLog.Message c.

Lemma Parse_logTemplate :
  template.Parse logger.logTemplate
  = Some [template.TextNode "["; template.FieldNode "Transport";
          template.TextNode "]["; template.FieldNode "Traffic";
          template.TextNode "] "; template.FieldNode "Method";
          template.TextNode " "; template.FieldNode "Status";
          template.TextNode " "; template.FieldNode "Path";
          template.TextNode " "; template.FieldNode "Duration";
          template.TextNode " - "; template.FieldNode "Message"].
Proof. vm_compute. reflexivity. Qed.

Definition exampleLog : logger.CanonicalLog.t :=
  logger.CanonicalLog.mk "HTTP" "incoming" "GET" 200 "/api/users"
    (150 * time.Millisecond) "Success" 0.

(** C5, as the code has it.  Compiling the template succeeds, and the
    summary then is the fixed line with each field value passed through the
    HTML escaper of html/template: the status and the duration always come
    out as they are, and a string field does when it has none of the bytes
    the escaper rewrites.  The record of the specification renders
    "[HTTP][incoming] GET 200 /api/users 150ms - Success". *)
Theorem summary_renders_escaped_fields
    (pkg0 : logger.Package) (c : logger.CanonicalLog.t) :
  exists pkg,
    logger.CompileCanonicalLogTemplate pkg0 = Some pkg
    /\ logger.summary pkg c
       = "[" +:+ template.htmlEscaper (logger.CanonicalLog.Transport c) +:+ "][" +:+
         template.htmlEscaper (logger.CanonicalLog.Traffic c) +:+ "] " +:+
         template.htmlEscaper (logger.CanonicalLog.Method c) +:+ " " +:+
         strconv.Itoa (logger.CanonicalLog.Status c) +:+ " " +:+
         template.htmlEscaper (logger.CanonicalLog.Path c) +:+ " " +:+
         time.String_ (logger.CanonicalLog.Duration c) +:+ " - " +:+
         template.htmlEscaper (logger.CanonicalLog.Message c)
    /\ (plain (logger.CanonicalLog.Transport c) = true ->
        plain (logger.CanonicalLog.Traffic c) = true ->
        plain (logger.CanonicalLog.Method c) = true ->
        plain (logger.CanonicalLog.Path c) = true ->
        plain (logger.CanonicalLog.Message c) = true ->
        logger.summary pkg c = canonicalLine c)
    /\ logger.summary pkg exampleLog
       = "[HTTP][incoming] GET 200 /api/users 150ms - Success".
Proof.
  unfold logger.CompileCanonicalLogTemplate. rewrite Parse_logTemplate.
  eexists. split; [reflexivity|].
  assert (forall c', logger.summary
            {| logger.canonicalLogTemplate :=
                 Some [template.TextNode "["; template.FieldNode "Transport";
                       template.TextNode "]["; template.FieldNode "Traffic";
                       template.TextNode "] "; template.FieldNode "Method";
                       template.TextNode " "; template.FieldNode "Status";
                       template.TextNode " "; template.FieldNode "Path";
                       template.TextNode " "; template.FieldNode "Duration";
                       template.TextNode " - "; template.FieldNode "Message"];
               logger.DenyPatterns := logger.DenyPatterns pkg0 |} c'
          = "[" +:+ template.htmlEscaper (logger.CanonicalLog.Transport c') +:+ "][" +:+
            template.htmlEscaper (logger.CanonicalLog.Traffic c') +:+ "] " +:+
            template.htmlEscaper (logger.CanonicalLog.Method c') +:+ " " +:+
            strconv.Itoa (logger.CanonicalLog.Status c') +:+ " " +:+
            template.htmlEscaper (logger.CanonicalLog.Path c') +:+ " " +:+
            time.String_ (logger.CanonicalLog.Duration c') +:+ " - " +:+
            template.htmlEscaper (logger.CanonicalLog.Message c')) as Hsum.
  { intros c'.
    rewrite <- (htmlEscaper_plain (strconv.Itoa _) (plain_Itoa _)).
    rewrite <- (htmlEscaper_plain (time.String_ _) (plain_Duration _)).
    rewrite <- (str_app_nil_r (template.htmlEscaper (logger.CanonicalLog.Message c'))).
    reflexivity. }
  split; [apply Hsum|split].
  - intros HT HTr HM HP HMsg. rewrite Hsum.
    by rewrite !htmlEscaper_plain by done.
  - rewrite Hsum. vm_compute. reflexivity.
Qed.

End summary_facts.

(** ** The JSON decoder: which payloads it accepts *)

Section json_facts.
Variable rt : Runtime.

(** The kind of the top-level value of a JSON text.  It is fixed by the
    first significant byte and the scanner never loses track of it. *)
Inductive kind : Type := KObject | KArray | KString | KNumber | KBool | KNull.

(** The kind of value an open container will be. *)
Definition frameKind (p : json.parseState) : kind :=
  match p with
  | json.parseArrayValue _ => KArray
  | _ => KObject
  end.

(** The kind of a finished value; the nil a number that did not convert
    leaves behind counts as a number. *)
Definition valueKind (v : any) (saved : bool) : option kind :=
  match v with
  | AMap _ => Some KObject
  | ASlice _ => Some KArray
  | AString _ => Some KString
  | AFloat64 _ => Some KNumber
  | ABool _ => Some KBool
  | ANil => Some (if saved then KNumber else KNull)
  | _ => None
  end.

(** The kind of the scalar a scanner state is in the middle of. *)
Definition stepKind (s : json.state) : option kind :=
  match s with
  | json.stateInString | json.stateInStringEsc | json.stateInStringEscU _ => Some KString
  | json.stateNeg | json.state1 | json.state0 | json.stateDot | json.stateDot0
  | json.stateE | json.stateESign | json.stateE0 => Some KNumber
  | json.stateLiteral _ (ABool _) => Some KBool
  | json.stateLiteral _ ANil => Some KNull
  | _ => None
  end.

(** The invariant: the bottom of the stack, or the scalar being read, or
    the finished top-level value is of kind [k]. *)
Definition Inv (k : kind) (st : json.scanner) : Prop :=
  match json.stack st with
  | [] =>
      match json.top st with
      | Some v =>
          valueKind v (json.savedError st) = Some k
          /\ (json.step st = json.stateEndValue \/ json.step st = json.stateEndTop)
      | None => stepKind (json.step st) = Some k /\ json.savedError st = false
      end
  | p :: ps => json.top st = None /\ frameKind (List.last ps p) = k
  end.

Lemma last_head_kind (p p' : json.parseState) (ps : list json.parseState) :
  frameKind p' = frameKind p ->
  frameKind (List.last ps p') = frameKind (List.last ps p).
Proof.
  intros H. destruct ps as [|q ps]; [done|].
  revert q. induction ps as [|r ps IH]; intros q; [done|]. apply (IH r).
Qed.

Lemma Inv_head k s s' p p' ps it it' tp sv sv' :
  frameKind p' = frameKind p ->
  Inv k (json.Scanner s (p :: ps) it tp sv) ->
  Inv k (json.Scanner s' (p' :: ps) it' tp sv').
Proof.
  unfold Inv. simpl. intros Hk [-> <-]. split; [done|]. by apply last_head_kind.
Qed.

Lemma deliver_Inv k st v s st' :
  json.stack st <> [] -> Inv k st -> json.deliver st v s = Some st' -> Inv k st'.
Proof.
  unfold Inv, json.deliver. destruct st as [stp stk it tp sv]; simpl.
  intros Hne HI H. destruct stk as [|p ps]; [done|].
  destruct HI as [-> HI].
  destruct p; [destruct v|..]; simplify_eq/=; (split; [done|]).
  all: by apply last_head_kind.
Qed.

Lemma last_cons_default (q p : json.parseState) (ps : list json.parseState) :
  List.last (q :: ps) p = List.last ps q.
Proof.
  revert q p. induction ps as [|r ps IH]; intros q p; [done|].
  change (List.last (q :: r :: ps) p) with (List.last (r :: ps) p).
  by rewrite !IH.
Qed.

Lemma pop_Inv k st v st' p ps :
  Inv k st -> json.stack st = p :: ps ->
  valueKind v (json.savedError st) = Some (frameKind p) ->
  json.popParseState st v = Some st' -> Inv k st'.
Proof.
  destruct st as [stp stk it tp sv]. unfold json.popParseState. simpl.
  intros HI -> Hv H. unfold Inv in HI. simpl in HI. destruct HI as [-> HI].
  destruct ps as [|q ps].
  - unfold json.deliver in H. simplify_eq/=. unfold Inv. simpl. auto.
  - eapply deliver_Inv; [| |exact H]; [done|].
    unfold Inv. simpl. split; [done|]. by rewrite <- last_cons_default with (p := p).
Qed.

Lemma stateEndValue_Inv k st c st' :
  Inv k st -> (json.stack st = [] -> json.top st <> None) ->
  json.stateEndValue_ st c = Some st' -> Inv k st'.
Proof.
  destruct st as [stp stk it tp sv]. unfold json.stateEndValue_, json.stateEndTop_.
  simpl. intros HI Htop H. destruct stk as [|p ps].
  - destruct (json.isSpace c); [|done]. simplify_eq/=.
    unfold Inv in *. simpl in *. destruct tp; [|by destruct Htop].
    destruct HI as [HI _]. auto.
  - destruct (json.isSpace c).
    { injection H as <-. revert HI. by apply Inv_head. }
    destruct p as [m [key|]|m key|elems]; try done.
    + destruct (c =? 58); [|done]. injection H as <-.
      revert HI. by apply Inv_head.
    + destruct (c =? 44); [injection H as <-; revert HI; by apply Inv_head|].
      destruct (c =? 125); [|done].
      eapply pop_Inv; [exact HI|done| |exact H]. done.
    + destruct (c =? 44); [injection H as <-; revert HI; by apply Inv_head|].
      destruct (c =? 93); [|done].
      eapply pop_Inv; [exact HI|done| |exact H]. done.
Qed.

Lemma endNumber_Inv k st c st' :
  Inv k st -> stepKind (json.step st) = Some KNumber ->
  json.endNumber rt st c = Some st' -> Inv k st'.
Proof.
  destruct st as [stp stk it tp sv]. unfold json.endNumber. simpl.
  intros HI Hstep H.
  assert (forall v sv', valueKind v sv' = Some KNumber ->
            forall st1, json.deliver (json.Scanner stp stk it tp sv') v json.stateEndValue = Some st1 ->
            Inv k st1 /\ (json.stack st1 = [] -> json.top st1 <> None)) as Hd.
  { intros v sv' Hv st1 H1. destruct stk as [|p ps].
    - unfold json.deliver in H1. simplify_eq/=. unfold Inv in *. simpl in *.
      destruct tp as [w|].
      + destruct HI as [_ [->| ->]]; done.
      + destruct HI as [HI _]. split; [|done]. split; [congruence|auto].
    - split; [eapply deliver_Inv; [| |exact H1]; done|].
      unfold json.deliver in H1. simpl in H1.
      destruct p; [destruct v|..]; by simplify_eq/=. }
  destruct (strconv_ParseFloat rt _) as [f|].
  - destruct (json.deliver _ _ _) as [st1|] eqn:E; [|done]. simpl in H.
    destruct (Hd (AFloat64 f) sv eq_refl _ E). by eapply stateEndValue_Inv.
  - destruct (json.deliver _ _ _) as [st1|] eqn:E; [|done]. simpl in H.
    destruct (Hd ANil true eq_refl _ E). by eapply stateEndValue_Inv.
Qed.


Definition notEnd (s : json.state) : Prop :=
  s <> json.stateEndValue /\ s <> json.stateEndTop.

Ltac side := first [by split | done].

Lemma Inv_progress k s s' stk it it' tp sv :
  Inv k (json.Scanner s stk it tp sv) ->
  notEnd s -> stepKind s' = stepKind s ->
  Inv k (json.Scanner s' stk it' tp sv).
Proof.
  unfold Inv. simpl. intros HI [H1 H2] Hs'. destruct stk as [|p ps]; [|done].
  destruct tp as [v|].
  - destruct HI as [_ [->| ->]]; done.
  - by rewrite Hs'.
Qed.

Lemma deliver_scalar_Inv k st v st' :
  Inv k st -> notEnd (json.step st) ->
  (json.stack st = [] ->
   valueKind v (json.savedError st) = stepKind (json.step st)) ->
  json.deliver st v json.stateEndValue = Some st' -> Inv k st'.
Proof.
  destruct st as [stp stk it tp sv]. simpl. intros HI [H1 H2] Hv H.
  destruct stk as [|p ps]; [|eapply deliver_Inv; [| |exact H]; done].
  unfold json.deliver in H. simplify_eq/=. unfold Inv in *. simpl in *.
  destruct tp as [w|].
  - destruct HI as [_ [->| ->]]; done.
  - destruct HI as [HI _]. rewrite Hv by done. auto.
Qed.

Lemma Inv_begin k s stk it tp sv :
  Inv k (json.Scanner s stk it tp sv) ->
  stepKind s = None -> s <> json.stateEndValue -> s <> json.stateEndTop ->
  stk <> [].
Proof.
  unfold Inv. simpl. intros HI Hs H1 H2 ->. destruct tp.
  - by destruct HI as [_ [?|?]].
  - destruct HI as [HI _]. congruence.
Qed.

Lemma push_Inv k st p s st' :
  Inv k st -> json.stack st <> [] ->
  json.pushParseState st p s = Some st' -> Inv k st'.
Proof.
  destruct st as [stp stk it tp sv]. unfold json.pushParseState. simpl.
  intros HI Hne H. destruct (_ <=? _); [|done]. injection H as <-.
  destruct stk as [|q ps]; [done|]. unfold Inv in *. simpl in *.
  destruct HI as [-> <-]. split; [done|]. f_equal.
  apply (last_cons_default q p ps).
Qed.

Lemma stateBeginValue_Inv k st a st' :
  Inv k st -> json.stack st <> [] ->
  json.stateBeginValue_ st a = Some st' -> Inv k st'.
Proof.
  intros HI Hne. unfold json.stateBeginValue_.
  assert (forall s it', Inv k (json.Scanner s (json.stack st) it' (json.top st)
                                 (json.savedError st))) as Hany.
  { intros s it'. destruct st as [stp stk it tp sv]. simpl in *.
    destruct stk; [done|]. exact HI. }
  repeat (case_match; [first [by eapply push_Inv | intros [= <-]; try done; apply Hany]|]).
  done.
Qed.

Lemma stateBeginString_Inv k st a st' :
  Inv k st -> json.stack st <> [] ->
  json.stateBeginString_ st a = Some st' -> Inv k st'.
Proof.
  intros HI Hne. unfold json.stateBeginString_.
  repeat (case_match; [intros [= <-]; try done|]); [|done].
  destruct st as [stp stk it tp sv]. simpl in *. destruct stk; [done|]. exact HI.
Qed.

Lemma scan_Inv k st a st' :
  Inv k st -> json.scan rt st a = Some st' -> Inv k st'.
Proof.
  destruct st as [stp stk it tp sv]. unfold json.scan. simpl.
  intros HI H.
  assert (forall s' it', notEnd stp -> stepKind s' = stepKind stp ->
            Inv k (json.Scanner s' stk it' tp sv)) as Hprog.
  { intros s' it' Hs Hk. by eapply Inv_progress. }
  assert (stepKind stp = None -> notEnd stp -> stk <> []) as Hbegin.
  { intros ? []. by eapply Inv_begin. }
  destruct stp.
  - eapply stateBeginValue_Inv; [exact HI| |exact H]. apply Hbegin; side.
  - destruct (json.isSpace _); [by injection H as <-|].
    destruct (_ =? 125).
    + destruct stk as [|[m key| |] ps]; try done.
      eapply pop_Inv; [exact HI|done| |exact H]. done.
    + eapply stateBeginString_Inv; [exact HI| |exact H]. apply Hbegin; side.
  - eapply stateBeginString_Inv; [exact HI| |exact H]. apply Hbegin; side.
  - destruct (json.isSpace _); [by injection H as <-|].
    assert (stk <> []) by (apply Hbegin; side).
    destruct (_ =? 93).
    + eapply stateEndValue_Inv; [exact HI| |exact H]. done.
    + by eapply stateBeginValue_Inv; [exact HI| |exact H].
  - eapply stateEndValue_Inv; [exact HI| |exact H]. simpl. intros -> ->.
    unfold Inv in HI. simpl in HI. by destruct HI.
  - unfold json.stateEndTop_ in H. destruct (json.isSpace _); [|done].
    by injection H as <-.
  - destruct (_ =? 34).
    { destruct (json.unquote _); [|done].
      eapply deliver_scalar_Inv; [exact HI| | |exact H]; side. }
    destruct (_ =? 92); [injection H as <-; eapply Hprog; side|].
    destruct (_ <? 32); [done|]. injection H as <-. eapply Hprog; side.
  - destruct (_ || _); [injection H as <-; eapply Hprog; side|].
    destruct (_ =? 117); [|done]. injection H as <-. eapply Hprog; side.
  - destruct (json.hexval _); [|done]. injection H as <-.
    destruct (_ <? _)%nat; eapply Hprog; side.
  - destruct (_ =? 48); [injection H as <-; eapply Hprog; side|].
    destruct (_ && _); [|done]. injection H as <-. eapply Hprog; side.
  - destruct (json.isDigit _); [injection H as <-; eapply Hprog; side|].
    unfold json.state0_ in H.
    destruct (_ =? 46); [injection H as <-; eapply Hprog; side|].
    destruct (_ || _); [injection H as <-; eapply Hprog; side|].
    by eapply endNumber_Inv.
  - unfold json.state0_ in H.
    destruct (_ =? 46); [injection H as <-; eapply Hprog; side|].
    destruct (_ || _); [injection H as <-; eapply Hprog; side|].
    by eapply endNumber_Inv.
  - destruct (json.isDigit _); [|done]. injection H as <-. eapply Hprog; side.
  - destruct (json.isDigit _); [injection H as <-; eapply Hprog; side|].
    destruct (_ || _); [injection H as <-; eapply Hprog; side|].
    by eapply endNumber_Inv.
  - destruct (_ || _); [injection H as <-; eapply Hprog; side|].
    unfold json.stateESign_ in H.
    destruct (json.isDigit _); [|done]. injection H as <-. eapply Hprog; side.
  - unfold json.stateESign_ in H.
    destruct (json.isDigit _); [|done]. injection H as <-. eapply Hprog; side.
  - destruct (json.isDigit _); [injection H as <-; eapply Hprog; side|].
    by eapply endNumber_Inv.
  - destruct rest as [|x rest']; [done|]. destruct (_ =? x); [|done].
    destruct rest' as [|y rest''].
    + eapply deliver_scalar_Inv; [exact HI|side| |exact H]. simpl. intros ->.
      unfold Inv in HI. simpl in HI. destruct tp; [by destruct HI as [_ [|]]|].
      destruct HI as [HI ->]. by destruct v.
    + injection H as <-. eapply Hprog; side.
Qed.


Lemma scanAll_Inv k data st st' :
  Inv k st -> json.scanAll rt st data = Some st' -> Inv k st'.
Proof.
  revert st. induction data as [|a data IH]; intros st HI H.
  - by injection H as <-.
  - cbn [json.scanAll] in H. destruct (json.scan rt st a) as [st1|] eqn:E; [|done].
    eapply IH; [|exact H]. by eapply scan_Inv.
Qed.

(** JSON white space in front of the value. *)
Fixpoint skipSpace (s : string) : string :=
  match s with
  | "" => ""
  | String a s' => if json.isSpace (byte a) then skipSpace s' else s
  end.

Fixpoint allSpace (s : string) : bool :=
  match s with
  | "" => true
  | String a s' => json.isSpace (byte a) && allSpace s'
  end.

Lemma scanAll_skipSpace (data : string) :
  json.scanAll rt json.reset data = json.scanAll rt json.reset (skipSpace data).
Proof.
  induction data as [|a data IH]; [done|]. cbn [skipSpace].
  destruct (json.isSpace (byte a)) eqn:E; [|done].
  cbn [json.scanAll]. unfold json.scan at 1. cbn [json.step json.reset].
  unfold json.stateBeginValue_. by rewrite E.
Qed.

(** The kind of value a first byte announces. *)
Definition firstKind (c : Z) : option kind :=
  if c =? 123 then Some KObject
  else if c =? 91 then Some KArray
  else if c =? 34 then Some KString
  else if c =? 45 then Some KNumber
  else if c =? 48 then Some KNumber
  else if c =? 116 then Some KBool
  else if c =? 102 then Some KBool
  else if c =? 110 then Some KNull
  else if (49 <=? c) && (c <=? 57) then Some KNumber
  else None.

Lemma scan_reset (a : ascii) (st' : json.scanner) :
  json.isSpace (byte a) = false -> json.scan rt json.reset a = Some st' ->
  exists k, firstKind (byte a) = Some k /\ Inv k st'.
Proof.
  intros Hsp. unfold json.scan, json.stateBeginValue_, firstKind, json.isDigit.
  cbn [json.step json.reset]. rewrite Hsp.
  unfold json.pushParseState. cbn.
  repeat (case_match; [intros [= <-]; eexists; split; [reflexivity|by split]|]).
  done.
Qed.

Lemma eof_Inv k st st' :
  Inv k st -> json.eof rt st = Some st' -> Inv k st'.
Proof.
  unfold json.eof. intros HI H. destruct (json.endTop st); [by injection H as <-|].
  destruct (json.scan rt st " ") as [st1|] eqn:E; [|done]. cbn in H.
  destruct (json.endTop st1); [|done]. injection H as <-. by eapply scan_Inv.
Qed.

(** What the first significant byte of an accepted payload is: a brace when
    a map was stored, the letter n when the map was left nil. *)
Lemma Unmarshal_kind (data : string) (r : option (gmap string any)) :
  json.Unmarshal rt data = inr r ->
  exists a rest,
    skipSpace data = String a rest /\ json.isSpace (byte a) = false
    /\ firstKind (byte a)
       = Some (match r with Some _ => KObject | None => KNull end).
Proof.
  unfold json.Unmarshal. rewrite scanAll_skipSpace.
  assert (skipSpace data = "" \/
          exists a rest, skipSpace data = String a rest
                         /\ json.isSpace (byte a) = false) as [->|(a & rest & -> & Hsp)].
  { induction data as [|a data IH]; [by left|]. cbn [skipSpace].
    destruct (json.isSpace (byte a)) eqn:E; [exact IH|]. right. eauto. }
  { vm_compute. done. }
  cbn [json.scanAll].
  destruct (json.scan rt json.reset a) as [st1|] eqn:E1; [|done].
  destruct (scan_reset _ _ Hsp E1) as (k & Hk & HI). cbn.
  destruct (json.scanAll rt st1 rest) as [st2|] eqn:E2; [|done]. cbn.
  destruct (json.eof rt st2) as [st3|] eqn:E3; [|done].
  assert (Inv k st3) as HI3.
  { eapply eof_Inv; [|exact E3]. by eapply scanAll_Inv. }
  intros H. exists a, rest. split; [done|]. split; [done|]. rewrite Hk. f_equal.
  unfold Inv in HI3. destruct st3 as [stp stk it tp sv]. simpl in *.
  destruct tp as [v|]; [|done].
  destruct stk; [|by destruct HI3].
  destruct HI3 as [HI3 _].
  destruct v; try done; destruct sv; simplify_eq/=; done.
Qed.



Lemma chr_byte (a : ascii) : chr (byte a) = a.
Proof. unfold chr, byte. by rewrite N2Z.id, ascii_N_embedding. Qed.

Lemma byte_eq (a : ascii) (n : Z) : (byte a =? n) = true -> a = chr n.
Proof. intros H%Z.eqb_eq. by rewrite <- H, chr_byte. Qed.

(** The scanner once the top-level value [v] is complete. *)
Definition finished (v : any) (sv : bool) (st : json.scanner) : Prop :=
  json.stack st = [] /\ json.top st = Some v /\ json.savedError st = sv
  /\ (json.step st = json.stateEndValue \/ json.step st = json.stateEndTop).

Lemma scan_finished v sv st a st' :
  finished v sv st -> json.scan rt st a = Some st' ->
  json.isSpace (byte a) = true /\ finished v sv st'.
Proof.
  destruct st as [stp stk it tp sv0]. unfold finished. simpl.
  intros (-> & -> & -> & Hs) H. unfold json.scan in H. simpl in H.
  assert (json.stateEndTop_ (json.Scanner stp [] it (Some v) sv) (byte a) = Some st') as H'
    by (by destruct Hs as [-> | ->]).
  unfold json.stateEndTop_ in H'. destruct (json.isSpace (byte a)); [|done].
  injection H' as <-. simpl. repeat split; auto.
Qed.

Lemma scanAll_finished v sv post st st' :
  finished v sv st -> json.scanAll rt st post = Some st' ->
  allSpace post = true /\ finished v sv st'.
Proof.
  revert st. induction post as [|a post IH]; intros st Hf H.
  - by injection H as <-.
  - cbn [json.scanAll] in H.
    destruct (json.scan rt st a) as [st1|] eqn:E; [|done]. cbn in H.
    destruct (scan_finished _ _ _ _ _ Hf E) as [Hsp Hf1].
    destruct (IH _ Hf1 H) as [Hall Hf']. cbn [allSpace]. by rewrite Hsp, Hall.
Qed.

Lemma scanAll_spaces v sv post st :
  finished v sv st -> allSpace post = true ->
  exists st', json.scanAll rt st post = Some st' /\ finished v sv st'.
Proof.
  revert st. induction post as [|a post IH]; intros st Hf Hall; [by exists st|].
  cbn [allSpace] in Hall. apply andb_true_iff in Hall as [Hsp Hall].
  cbn [json.scanAll].
  assert (exists st1, json.scan rt st a = Some st1 /\ finished v sv st1)
    as (st1 & -> & Hf1).
  { destruct st as [stp stk it tp sv0]. destruct Hf as (Hk & Ht & Hv & Hs).
    simpl in *. subst. unfold json.scan. simpl.
    exists (json.Scanner json.stateEndTop [] it (Some v) sv).
    split; [|unfold finished; simpl; repeat split; auto].
    destruct Hs as [-> | ->]; unfold json.stateEndValue_, json.stateEndTop_; simpl;
      by rewrite Hsp. }
  cbn. by apply IH.
Qed.

Lemma eof_finished v sv st :
  finished v sv st ->
  exists st', json.eof rt st = Some st' /\ finished v sv st'.
Proof.
  intros Hf. destruct st as [stp stk it tp sv0]. destruct Hf as (Hk & Ht & Hv & Hs).
  simpl in *. subst. destruct Hs as [-> | ->].
  - eexists. split; [reflexivity|]. unfold finished. simpl. repeat split; auto.
  - eexists. split; [reflexivity|]. unfold finished. simpl. repeat split; auto.
Qed.

(** The scanner inside the literal [null] at top level, and after it. *)
Definition inNull (rest : list Z) : json.scanner :=
  json.Scanner (json.stateLiteral rest ANil) [] [] None false.

Definition afterNull : json.scanner :=
  json.Scanner json.stateEndValue [] [] (Some ANil) false.

Lemma scan_n : json.scan rt json.reset "n" = Some (inNull [117; 108; 108]).
Proof. reflexivity. Qed.

Lemma scan_inNull (x y : Z) (rest : list Z) (c : ascii) :
  json.scan rt (inNull (x :: y :: rest)) c
  = if byte c =? x then Some (inNull (y :: rest)) else None.
Proof. reflexivity. Qed.

Lemma scan_inNull_last (x : Z) (c : ascii) :
  json.scan rt (inNull [x]) c = if byte c =? x then Some afterNull else None.
Proof. reflexivity. Qed.

Lemma eof_inNull (x : Z) (rest : list Z) :
  (32 =? x) = false -> json.eof rt (inNull (x :: rest)) = None.
Proof.
  intros Hx. unfold json.eof. cbn [json.endTop json.step inNull].
  destruct rest as [|y rest].
  - rewrite scan_inNull_last. change (byte " ") with 32. by rewrite Hx.
  - rewrite scan_inNull. change (byte " ") with 32. by rewrite Hx.
Qed.

(** What [Unmarshal] makes of the scanner's outcome. *)
Definition outcome (o : option json.scanner) : json.error + option (gmap string any) :=
  match st ← o; json.eof rt st with
  | None => inl json.SyntaxError
  | Some st =>
      match json.top st with
      | Some (AMap m) =>
          if json.savedError st then inl json.UnmarshalTypeError else inr (Some m)
      | Some ANil =>
          if json.savedError st then inl json.UnmarshalTypeError else inr None
      | _ => inl json.UnmarshalTypeError
      end
  end.

Lemma Unmarshal_outcome (data : string) :
  json.Unmarshal rt data = outcome (json.scanAll rt json.reset (skipSpace data)).
Proof. unfold json.Unmarshal, outcome. by rewrite scanAll_skipSpace. Qed.

Lemma outcome_None : outcome None = inl json.SyntaxError.
Proof. reflexivity. Qed.

Lemma outcome_eof_None (st : json.scanner) :
  json.eof rt st = None -> outcome (Some st) = inl json.SyntaxError.
Proof. intros H. unfold outcome. cbn [mbind option_bind]. by rewrite H. Qed.

(** The payloads for which the map is left nil without an error: the
    literal [null], white space around it allowed. *)
Lemma Unmarshal_nil_iff (data : string) :
  json.Unmarshal rt data = inr None <->
  exists post, skipSpace data = "null" +:+ post /\ allSpace post = true.
Proof.
  split.
  - intros H. destruct (Unmarshal_kind _ _ H) as (a & rest & Hskip & Hsp & Hk).
    assert (a = "n"%char) as ->.
    { apply (byte_eq a 110). destruct (byte a =? 110) eqn:E; [done|].
      unfold firstKind in Hk. rewrite E in Hk. repeat case_match; done. }
    rewrite Unmarshal_outcome, Hskip in H.
    cbn [json.scanAll] in H. rewrite scan_n in H. cbn [mbind option_bind] in H.
    destruct rest as [|c1 rest].
    { cbn [json.scanAll] in H. by rewrite outcome_eof_None in H by by apply eof_inNull. }
    cbn [json.scanAll] in H. rewrite scan_inNull in H.
    destruct (byte c1 =? 117) eqn:E1; cbn [mbind option_bind] in H;
      [|by rewrite outcome_None in H].
    destruct rest as [|c2 rest].
    { cbn [json.scanAll] in H. by rewrite outcome_eof_None in H by by apply eof_inNull. }
    cbn [json.scanAll] in H. rewrite scan_inNull in H.
    destruct (byte c2 =? 108) eqn:E2; cbn [mbind option_bind] in H;
      [|by rewrite outcome_None in H].
    destruct rest as [|c3 post].
    { cbn [json.scanAll] in H. by rewrite outcome_eof_None in H by by apply eof_inNull. }
    cbn [json.scanAll] in H. rewrite scan_inNull_last in H.
    destruct (byte c3 =? 108) eqn:E3; cbn [mbind option_bind] in H;
      [|by rewrite outcome_None in H].
    apply byte_eq in E1, E2, E3. subst. exists post. split; [exact Hskip|].
    destruct (json.scanAll rt afterNull post) as [st2|] eqn:E;
      [|by rewrite outcome_None in H].
    eapply scanAll_finished; [|exact E]. unfold finished, afterNull. simpl.
    repeat split; auto.
  - intros (post & Hskip & Hall). rewrite Unmarshal_outcome, Hskip.
    change (json.scanAll rt json.reset ("null" +:+ post))
      with (json.scanAll rt afterNull post).
    destruct (scanAll_spaces ANil false post afterNull)
      as (st1 & -> & Hf1); [unfold finished, afterNull; simpl; repeat split; auto|done|].
    unfold outcome. cbn [mbind option_bind].
    destruct (eof_finished _ _ _ Hf1) as (st2 & -> & (_ & -> & -> & _)).
    reflexivity.
Qed.

Lemma Unmarshal_object (data : string) (m : gmap string any) :
  json.Unmarshal rt data = inr (Some m) ->
  exists rest, skipSpace data = "{" +:+ rest.
Proof.
  intros H. destruct (Unmarshal_kind _ _ H) as (a & rest & Hskip & Hsp & Hk).
  exists rest. rewrite Hskip.
  assert (a = "{"%char) as ->; [|reflexivity].
  apply (byte_eq a 123). destruct (byte a =? 123) eqn:E; [done|].
  unfold firstKind in Hk. rewrite E in Hk. repeat case_match; done.
Qed.

End json_facts.


(** ** Payload normalization *)

(** JSON text is written below with an apostrophe where the quotation mark
    goes. *)
Definition dq (s : string) : string :=
  strings.mapBytes (fun c => if Ascii.eqb c "'"%char then chr 34 else c) s.

Section payload_facts.
Variable rt : Runtime.

(** C7, as the code has it.  The payload field is always built: it is the
    map [json.Unmarshal] stored when it reports no error, and the payload
    itself as a string when it reports one.  A stored map means the payload
    starts, after white space, with the brace of an object.  The map is left
    nil without an error exactly for the JSON literal null, white space
    around it allowed, so that payload is logged as the nil map and not as
    a string.  "invalid json" is logged as that string and an object as its
    map. *)
Theorem payloadField_total (key payload : string) :
  match json.Unmarshal rt payload with
  | inr (Some m) => logger.payloadField rt key payload = slog.Any key (AMap m)
  | inr None => logger.payloadField rt key payload = slog.Any key ANilMap
  | inl _ => logger.payloadField rt key payload = slog.String key payload
  end
  /\ (forall m, json.Unmarshal rt payload = inr (Some m) ->
                exists rest, skipSpace payload = "{" +:+ rest)
  /\ (json.Unmarshal rt payload = inr None <->
      exists post, skipSpace payload = "null" +:+ post /\ allSpace post = true)
  /\ logger.payloadField rt key "invalid json" = slog.String key "invalid json"
  /\ logger.payloadField rt key (dq "{'username': 'user', 'tags': [true, null]}")
     = slog.Any key
         (AMap (<["username" := AString "user"]>
                  (<["tags" := ASlice [ABool true; ANil]]> ∅)))
  /\ logger.payloadField rt key " null " = slog.Any key ANilMap.
Proof.
  split; [|split; [|split; [|split; [|split]]]].
  - unfold logger.payloadField.
    by destruct (json.Unmarshal rt payload) as [e|[m|]].
  - intros m. apply Unmarshal_object.
  - apply Unmarshal_nil_iff.
  - reflexivity.
  - unfold logger.payloadField.
    assert (json.Unmarshal rt (dq "{'username': 'user', 'tags': [true, null]}")
            = inr (Some (<["username" := AString "user"]>
                           (<["tags" := ASlice [ABool true; ANil]]> ∅)))) as ->
      by (vm_compute; reflexivity).
    reflexivity.
  - reflexivity.
Qed.

End payload_facts.

(** ** The encoder wrapper *)

Section CoolEncoder_facts.
Variables Entry Encoded : Type.

(** A field the wrapper lets through. *)
Definition kept (field : zapcore.Field) : bool :=
  negb (String.eqb (zapcore.Key field) "skip"
        || zapcore.isInt64Type (zapcore.Type_ field)).

Lemma filter_loop_spec (fields filtered : list zapcore.Field) :
  CoolEncoder.filter_loop fields filtered = filtered ++ List.filter kept fields.
Proof.
  revert filtered. induction fields as [|f fields IH]; intros filtered.
  - by rewrite app_nil_r.
  - cbn [CoolEncoder.filter_loop List.filter]. unfold kept at 1.
    destruct (String.eqb (zapcore.Key f) "skip"
              || zapcore.isInt64Type (zapcore.Type_ f)); cbn [negb].
    + apply IH.
    + by rewrite IH, <- List.app_assoc.
Qed.

(** C9.  [EncodeEntry] hands the wrapped encoder the entry and the fields
    that are neither keyed "skip" nor of type [Int64Type], in the order
    they came in: no field so keyed or so typed is passed, every other
    field is, and the fields passed are a sublist of the fields given. *)
Theorem EncodeEntry_filters
    (c : CoolEncoder.t Entry Encoded) (entry : Entry)
    (fields : list zapcore.Field) :
  let passed := List.filter kept fields in
  CoolEncoder.EncodeEntry c entry fields
    = CoolEncoder.Encoder_EncodeEntry c entry passed
  /\ (forall f, In f passed ->
                zapcore.Key f <> "skip" /\ zapcore.Type_ f <> zapcore.Int64Type)
  /\ (forall f, In f fields -> zapcore.Key f <> "skip" ->
                zapcore.Type_ f <> zapcore.Int64Type -> In f passed)
  /\ sublist passed fields.
Proof.
  intros passed. subst passed. split; [|split; [|split]].
  - unfold CoolEncoder.EncodeEntry. by rewrite filter_loop_spec.
  - intros f [_ Hk]%filter_In. unfold kept in Hk.
    apply negb_true_iff, orb_false_iff in Hk as [Hkey Hty].
    apply String.eqb_neq in Hkey. split; [done|].
    intros E. by rewrite E in Hty.
  - intros f Hin Hkey Hty. apply filter_In. split; [done|].
    unfold kept. apply negb_true_iff, orb_false_iff. split.
    + by apply String.eqb_neq.
    + by destruct (zapcore.Type_ f).
  - induction fields as [|f fields' IH]; [constructor|].
    cbn [List.filter]. destruct (kept f); by constructor.
Qed.

End CoolEncoder_facts.

(** ** The sensitive-field masker *)

Section masker_facts.

(** A field carries the marker when its tag has [sensitive:"true"]. *)
Definition sensitive (field : reflect.StructField) : bool :=
  match reflect.Lookup (reflect.Tag field) "sensitive" with
  | Some sensitiveTag => String.eqb sensitiveTag "true"
  | None => false
  end.

(** The map key of a field: its [json] tag up to the first comma. *)
Definition jsonFieldName (field : reflect.StructField) : string :=
  let jsonTag := reflect.Get (reflect.Tag field) "json" in
  let commaIdx := strings.Index jsonTag "," in
  if -1 <? commaIdx then take_str (Z.to_nat commaIdx) jsonTag else jsonTag.

Fixpoint lastByte (s : string) : string :=
  match s with
  | "" => ""
  | String c "" => String c ""
  | String _ s' => lastByte s'
  end.

(** The masked form of the specification: the first character, the mask
    and the last character; for a single character, that character and the
    mask; the empty string stays. *)
Definition masked (s : string) : string :=
  match s with
  | "" => ""
  | String c "" => String c "" +:+ "*****"
  | String c _ => String c "" +:+ "*****" +:+ lastByte s
  end.

Lemma drop_str_last (s : string) : drop_str (String.length s - 1) s = lastByte s.
Proof.
  induction s as [|c s IH]; [reflexivity|].
  cbn [String.length]. rewrite Nat.sub_succ, Nat.sub_0_r.
  destruct s as [|d s]; [reflexivity|].
  cbn [String.length drop_str lastByte] in *.
  by rewrite Nat.sub_succ, Nat.sub_0_r in IH.
Qed.

Lemma maskField_unfold (field : reflect.StructField) (data : gmap string any) :
  grpcclient.maskField field data =
    if sensitive field then
      match data !! jsonFieldName field with
      | Some (AString strValue) =>
          if (2 <=? len strValue) || (len strValue =? 1)
          then <[jsonFieldName field := AString (masked strValue)]> data
          else data
      | _ => data
      end
    else data.
Proof.
  unfold grpcclient.maskField, sensitive.
  destruct (reflect.Lookup (reflect.Tag field) "sensitive") as [t|]; [|done].
  destruct (String.eqb t "true"); [|done].
  fold (jsonFieldName field).
  destruct (data !! jsonFieldName field) as [[]|]; try done.
  unfold len. destruct s as [|c [|d s]]; try reflexivity.
  assert ((2 <=? Z.of_nat (String.length (String c (String d s)))) = true) as ->
    by (apply Z.leb_le; cbn [String.length]; lia).
  cbn [orb]. unfold grpcclient.maskLong. rewrite drop_str_last. reflexivity.
Qed.

Lemma masked_empty (s : string) : len s = 0 -> masked s = s.
Proof. by destruct s. Qed.

Lemma lastByte_single (c : ascii) (s : string) :
  exists e, lastByte (String c s) = String e "".
Proof.
  revert c. induction s as [|d s IH]; intros c; [by exists c|]. apply (IH d).
Qed.

Lemma masked_cons2 (c d : ascii) (s : string) :
  masked (String c (String d s))
  = String c ("*****" +:+ lastByte (String d s)).
Proof. reflexivity. Qed.

(** Masking a string of two or more bytes a second time changes nothing. *)
Lemma masked_idem (s : string) : 2 <= len s -> masked (masked s) = masked s.
Proof.
  destruct s as [|c [|d s]]; unfold len; cbn [String.length]; try lia.
  intros _. rewrite masked_cons2.
  destruct (lastByte_single d s) as [e ->]. reflexivity.
Qed.

Lemma masked_long (s : string) : 2 <= len s -> 2 <= len (masked s).
Proof.
  destruct s as [|c [|d s]]; unfold len; cbn [String.length]; try lia.
  intros _. rewrite masked_cons2. cbn [String.length].
  rewrite str_app_length. cbn [String.length]. lia.
Qed.

Lemma maskField_other (field : reflect.StructField) (data : gmap string any)
    (k : string) :
  sensitive field = false \/ jsonFieldName field <> k ->
  grpcclient.maskField field data !! k = data !! k.
Proof.
  intros H. rewrite maskField_unfold.
  destruct (sensitive field); [|done].
  destruct H as [|H]; [done|].
  destruct (data !! jsonFieldName field) as [[]|]; try done.
  destruct (_ || _); [|done]. by rewrite lookup_insert_ne.
Qed.

Lemma maskField_string (field : reflect.StructField) (data : gmap string any)
    (s : string) :
  sensitive field = true ->
  data !! jsonFieldName field = Some (AString s) ->
  grpcclient.maskField field data !! jsonFieldName field
  = Some (AString (masked s)).
Proof.
  intros Hs Hd. rewrite maskField_unfold, Hs, Hd.
  destruct ((2 <=? len s) || (len s =? 1)) eqn:E.
  - by rewrite lookup_insert_eq.
  - rewrite Hd. apply orb_false_iff in E as [E1 E2].
    rewrite masked_empty; [done|]. unfold len in *. lia.
Qed.

Lemma maskField_not_string (field : reflect.StructField)
    (data : gmap string any) (k : string) :
  (forall s, data !! k <> Some (AString s)) ->
  grpcclient.maskField field data !! k = data !! k.
Proof.
  intros H. destruct (decide (jsonFieldName field = k)) as [<-|Hne].
  - rewrite maskField_unfold. destruct (sensitive field); [|done].
    destruct (data !! jsonFieldName field) as [[]|] eqn:E; try done.
    by destruct (H s).
  - apply maskField_other. by right.
Qed.

(** How often the loop writes to the key [k]. *)
Fixpoint writes (k : string) (fields : list reflect.StructField) : nat :=
  match fields with
  | [] => 0
  | f :: fields' =>
      (if sensitive f && String.eqb (jsonFieldName f) k then 1 else 0)
      + writes k fields'
  end.

Lemma mask_string (fields : list reflect.StructField) (data : gmap string any)
    (k s : string) :
  data !! k = Some (AString s) ->
  grpcclient.maskSensitiveDataUsingStructTag (Some fields) data !! k
  = Some (AString (Nat.iter (writes k fields) masked s)).
Proof.
  cbn [grpcclient.maskSensitiveDataUsingStructTag].
  revert data s. induction fields as [|f fields IH]; intros data s Hd; [done|].
  cbn [fold_left writes].
  destruct (sensitive f) eqn:Hs; cbn [andb].
  - destruct (String.eqb_spec (jsonFieldName f) k) as [<-|Hne].
    + rewrite (IH _ (masked s)) by by apply maskField_string.
      cbn [Nat.add]. by rewrite Nat.iter_succ_r.
    + apply IH. rewrite maskField_other; [done|by right].
  - apply IH. rewrite maskField_other; [done|by left].
Qed.

Lemma mask_not_string (fields : list reflect.StructField)
    (data : gmap string any) (k : string) :
  (forall s, data !! k <> Some (AString s)) ->
  grpcclient.maskSensitiveDataUsingStructTag (Some fields) data !! k = data !! k.
Proof.
  cbn [grpcclient.maskSensitiveDataUsingStructTag].
  revert data. induction fields as [|f fields IH]; intros data H; [done|].
  cbn [fold_left]. rewrite IH; [by apply maskField_not_string|].
  intros s. rewrite maskField_not_string by done. apply H.
Qed.

Lemma mask_untouched (fields : list reflect.StructField)
    (data : gmap string any) (k : string) :
  (forall f, In f fields -> sensitive f = true -> jsonFieldName f <> k) ->
  grpcclient.maskSensitiveDataUsingStructTag (Some fields) data !! k = data !! k.
Proof.
  cbn [grpcclient.maskSensitiveDataUsingStructTag].
  revert data. induction fields as [|f fields IH]; intros data H; [done|].
  cbn [fold_left]. rewrite IH by (intros; apply H; [by right|done]).
  apply maskField_other. destruct (sensitive f) eqn:E; [right|by left].
  apply H; [by left|done].
Qed.

Lemma writes_pos (k : string) (fields : list reflect.StructField)
    (field : reflect.StructField) :
  In field fields -> sensitive field = true -> jsonFieldName field = k ->
  (1 <= writes k fields)%nat.
Proof.
  induction fields as [|f fields IH]; [done|]. intros [->|Hin] Hs Hk.
  - cbn [writes]. rewrite Hs, <- Hk, String.eqb_refl. cbn. lia.
  - cbn [writes]. specialize (IH Hin Hs Hk). lia.
Qed.

Lemma iter_masked_long (n : nat) (s : string) :
  2 <= len s -> (1 <= n)%nat -> Nat.iter n masked s = masked s.
Proof.
  intros Hs Hn. destruct n as [|n]; [lia|]. clear Hn.
  induction n as [|n IH]; [reflexivity|].
  rewrite Nat.iter_succ, IH. by apply masked_idem.
Qed.

Lemma iter_masked_empty (n : nat) (s : string) :
  len s = 0 -> Nat.iter n masked s = s.
Proof.
  intros Hs. induction n as [|n IH]; [reflexivity|].
  rewrite Nat.iter_succ, IH. by apply masked_empty.
Qed.

Lemma iter_masked_one (n : nat) (s : string) :
  len s = 1 -> (2 <= n)%nat -> Nat.iter n masked s = s +:+ "******".
Proof.
  intros Hs Hn. destruct n as [|[|n]]; [lia..|].
  destruct s as [|c [|d s]];
    [done| |unfold len in Hs; cbn [String.length] in Hs; lia].
  rewrite Nat.iter_succ_r, iter_masked_long; [reflexivity| |lia].
  change (masked (String c "")) with (String c "*****").
  unfold len. cbn [String.length]. lia.
Qed.

(** C8, as the code has it, lengths and positions being counted in bytes.
    For a field carrying the marker whose map entry is the string
    [strValue], one pass of the loop body replaces the entry by the masked
    form of [strValue]: the first byte, "*****" and the last byte when
    there are two or more bytes, the byte and "*****" when there is one,
    the empty string as it is.  After the whole loop the entry is that
    masked form when [strValue] has two or more bytes or none, and also
    when it has one byte and no other sensitive field shares the key; when
    it has one byte and two or more sensitive fields have the key, the
    entry is the byte followed by "******".  Entries under keys that are
    not the key of a sensitive field are not touched.  "secret123" becomes
    "s*****3" and "x" becomes "x*****". *)
Theorem mask_sensitive_string
    (fields : list reflect.StructField) (data : gmap string any)
    (field : reflect.StructField) (strValue : string) :
  In field fields ->
  sensitive field = true ->
  data !! jsonFieldName field = Some (AString strValue) ->
  let key := jsonFieldName field in
  let result := grpcclient.maskSensitiveDataUsingStructTag (Some fields) data in
  grpcclient.maskField field data !! key = Some (AString (masked strValue))
  /\ (2 <= len strValue -> result !! key = Some (AString (masked strValue)))
  /\ (len strValue = 1 -> writes key fields = 1%nat ->
      result !! key = Some (AString (masked strValue)))
  /\ (len strValue = 0 -> result !! key = Some (AString strValue))
  /\ (forall k,
         (forall f, In f fields -> sensitive f = true -> jsonFieldName f <> k) ->
         result !! k = data !! k)
  /\ masked "secret123" = "s*****3"
  /\ masked "x" = "x*****"
  /\ (len strValue = 1 -> (2 <= writes key fields)%nat ->
      result !! key = Some (AString (strValue +:+ "******"))).
Proof.
  intros Hin Hs Hd key result. subst key result.
  split; [by apply maskField_string|].
  split; [|split; [|split; [|split; [|split; [done|split; [done|]]]]]].
  - intros Hlen. rewrite (mask_string _ _ _ strValue) by done.
    rewrite iter_masked_long; [done..|]. by eapply writes_pos.
  - intros _ Hw. rewrite (mask_string _ _ _ strValue) by done. by rewrite Hw.
  - intros Hlen. rewrite (mask_string _ _ _ strValue) by done.
    by rewrite iter_masked_empty.
  - intros k Hk. by apply mask_untouched.
  - intros Hlen Hw. rewrite (mask_string _ _ _ strValue) by done.
    by rewrite iter_masked_one.
Qed.

(** C10.  For a field carrying the marker whose key is absent from the map
    or holds anything but a string, the loop body returns the map as it
    is, and after the whole loop the entry under that key is what it was;
    a nil message leaves the whole map as it is. *)
Theorem mask_skips_non_strings
    (fields : list reflect.StructField) (data : gmap string any)
    (field : reflect.StructField) :
  In field fields ->
  sensitive field = true ->
  (forall s, data !! jsonFieldName field <> Some (AString s)) ->
  grpcclient.maskField field data = data
  /\ grpcclient.maskSensitiveDataUsingStructTag (Some fields) data
       !! jsonFieldName field
     = data !! jsonFieldName field
  /\ grpcclient.maskSensitiveDataUsingStructTag None data = data.
Proof.
  intros _ Hs Hd. split; [|split; [by apply mask_not_string|done]].
  rewrite maskField_unfold, Hs.
  destruct (data !! jsonFieldName field) as [[]|] eqn:E; try done.
  by destruct (Hd s).
Qed.

End masker_facts.

(** * The cases of the test suite *)

Section tests.
Variable rt : Runtime.

(** TestSanitize *)
Example TestSanitize :
  map (logger.Sanitize rt logger.init)
    ["/api/auth/login"; "/api/user/change-password"; "/api/auth/refresh-token";
     "/api/config/secret"; "/api/encryption/key"; "/api/auth/verify-otp";
     "/api/auth/LOGIN"; "/api/users"; "/api/user/profile"; "/health"]
  = [true; true; true; true; true; true; true; false; false; false].
Proof. vm_compute. reflexivity. Qed.

(** TestGetStackField *)
Example TestGetStackField :
  logger.GetStackField
    (Some [logger.StackError.mk "Error1" "First error" "stack1";
           logger.StackError.mk "Error2" "Second error" "stack2"])
  = logger.StackError.mk "Error1" "First error" "stack1"
  /\ logger.GetStackField (Some [])
     = logger.StackError.mk "unknown" "no stack information available" ""
  /\ logger.GetStackField None
     = logger.StackError.mk "unknown" "no stack information available" "".
Proof. by repeat split. Qed.

(** TestCanonicalLogger_InvalidJSON: both payloads are logged as strings. *)
Example TestCanonicalLogger_InvalidJSON :
  slog.args
    (logger.CanonicalLogger rt logger.init logger.Info "invalid json"
       "also invalid json" None
       (logger.CanonicalLog.mk "HTTP" "incoming" "POST" 400 "/api/test"
          (10 * time.Millisecond) "Bad request" 0) [])
  = [slog.String "request" "invalid json";
     slog.String "response" "also invalid json";
     slog.String "logger_name" "canonical"; slog.Group "md" []].
Proof. vm_compute. reflexivity. Qed.

(** How durations print. *)
Example Duration_String :
  map time.String_
    [0; 1; 1500; 150 * time.Millisecond; 1500 * time.Millisecond;
     60 * time.Second; 3723 * time.Second + 5; - (2 ^ 63)]
  = ["0s"; "1ns"; of_bytes [49; 46; 53; 0xC2; 0xB5; 115]; "150ms"; "1.5s";
     "1m0s"; "1h2m3.000000005s"; "-2562047h47m16.854775808s"].
Proof. vm_compute. reflexivity. Qed.

(** What the decoder accepts and what it rejects. *)
Example Unmarshal_cases :
  json.Unmarshal rt "{}" = inr (Some ∅)
  /\ json.Unmarshal rt (dq "{'a': 'b', 'a': 'c'}") = inr (Some {["a" := AString "c"]})
  /\ json.Unmarshal rt (dq "{'k': {'n': [false, 'x\né']}}")
     = inr (Some {["k" := AMap {["n" := ASlice
                    [ABool false; AString (of_bytes [120; 10; 0xC3; 0xA9])]]}]})
  /\ json.Unmarshal rt "" = inl json.SyntaxError
  /\ json.Unmarshal rt (dq "{'a': 'x',}") = inl json.SyntaxError
  /\ json.Unmarshal rt (dq "{'a': tru}") = inl json.SyntaxError
  /\ json.Unmarshal rt "{} x" = inl json.SyntaxError
  /\ json.Unmarshal rt "[]" = inl json.UnmarshalTypeError
  /\ json.Unmarshal rt "true" = inl json.UnmarshalTypeError
  /\ json.Unmarshal rt (dq "'text'") = inl json.UnmarshalTypeError.
Proof. repeat split; vm_compute; reflexivity. Qed.

(** A number is stored as [strconv.ParseFloat] converts it, and a number
    that does not convert makes the payload a string field. *)
Example Unmarshal_number :
  json.Unmarshal rt (dq "{'user_id': 999}")
  = match strconv_ParseFloat rt "999" with
    | Some f => inr (Some {["user_id" := AFloat64 f]})
    | None => inl json.UnmarshalTypeError
    end.
Proof. destruct rt as [pf tl]. vm_compute. by destruct (pf _). Qed.

(** TestMaskSensitiveDataUsingStructTag *)
Example TestMaskSensitiveDataUsingStructTag :
  grpcclient.maskSensitiveDataUsingStructTag
    (Some [ {| reflect.Name := "PublicField";
               reflect.Tag := [("json", "public_field")] |};
            {| reflect.Name := "SensitiveField";
               reflect.Tag := [("json", "sensitive_field"); ("sensitive", "true")] |} ])
    (<["public_field" := AString "public_value"]>
       (<["sensitive_field" := AString "x"]> ∅))
  = <["public_field" := AString "public_value"]>
      (<["sensitive_field" := AString "x*****"]> ∅).
Proof. vm_compute. reflexivity. Qed.

End tests.

(** * Closed instances *)

(** ** Inputs taken from the test suite *)

Definition loginLog : logger.CanonicalLog.t :=
  logger.CanonicalLog.mk "HTTP" "incoming" "POST" 200 "/api/auth/login"
    (200 * time.Millisecond) "Login successful" 0.

Definition userLog : logger.CanonicalLog.t :=
  logger.CanonicalLog.mk "HTTP" "incoming" "GET" 404 "/api/user/999"
    (50 * time.Millisecond) "User not found" 0.

Definition tenLines : list string :=
  ["line1"; "line2"; "line3"; "line4"; "line5"; "line6"; "line7"; "line8";
   "line9"; "line10"].

Definition exceptionWith (stackErrors : option (list logger.StackError.t))
  : logger.ExceptionError.t :=
  logger.ExceptionError.mk 500 "Internal Error" "Stack trace truncation test" 500
    None false "" stackErrors.

Definition frameWith (stack : string) : logger.StackError.t :=
  logger.StackError.mk "RuntimeError" "Test error with long stack" stack.

Definition testProtoMessage : list reflect.StructField :=
  [ {| reflect.Name := "PublicField";
       reflect.Tag := [("json", "public_field")] |};
    {| reflect.Name := "SensitiveField";
       reflect.Tag := [("json", "sensitive_field"); ("sensitive", "true")] |} ].

Definition sensitiveField : reflect.StructField :=
  {| reflect.Name := "SensitiveField";
     reflect.Tag := [("json", "sensitive_field"); ("sensitive", "true")] |}.

(** ** Instances of the theorems that have premises *)

Lemma CanonicalLogger_redacted_login :
  logger.Sanitize exampleRuntime logger.init (logger.CanonicalLog.Path loginLog) = true
  /\ slog.args
       (logger.CanonicalLogger exampleRuntime logger.init logger.Info
          (dq "{'username': 'user', 'password': 'secret123'}")
          (dq "{'token': 'jwt-token-here', 'user_id': 123}") None loginLog [])
     = [slog.String "request" "REDACTED"; slog.String "response" "REDACTED";
        slog.String "logger_name" "canonical"; slog.Group "md" []].
Proof.
  split; [reflexivity|].
  apply (CanonicalLogger_redacted exampleRuntime logger.init). reflexivity.
Defined.

Lemma CanonicalLogger_stack_truncated_ten_lines :
  logger.Sanitize exampleRuntime logger.init (logger.CanonicalLog.Path userLog) = false
  /\ slog.args
       (logger.CanonicalLogger exampleRuntime logger.init logger.Error "{}" "{}"
          (Some (logger.ExceptionErrorPtr
                   (Some (exceptionWith
                            (Some [frameWith (strings.Join tenLines logger.frameSep)])))))
          userLog [])
     = [logger.payloadField exampleRuntime "request" "{}";
        slog.Group "error"
          [slog.String "kind" "RuntimeError";
           slog.String "message" "Test error with long stack";
           slog.String "stack"
             (strings.Join
                (take 6 (strings.Split (strings.Join tenLines logger.frameSep)
                           logger.frameSep))
                logger.frameSep)];
        responseGroup
          (exceptionWith (Some [frameWith (strings.Join tenLines logger.frameSep)]));
        slog.String "logger_name" "canonical"; slog.Group "md" []].
Proof.
  split; [reflexivity|].
  apply (CanonicalLogger_stack_truncated exampleRuntime logger.init logger.Error
           "{}" "{}"
           (exceptionWith (Some [frameWith (strings.Join tenLines logger.frameSep)]))
           (frameWith (strings.Join tenLines logger.frameSep)) [] userLog []);
    reflexivity.
Defined.

Lemma CanonicalLogger_no_stack_frame_nil :
  logger.Sanitize exampleRuntime logger.init (logger.CanonicalLog.Path userLog) = false
  /\ slog.args
       (logger.CanonicalLogger exampleRuntime logger.init logger.Info "{}" "{}"
          (Some (logger.ExceptionErrorPtr (Some (exceptionWith None)))) userLog [])
     = [logger.payloadField exampleRuntime "request" "{}";
        responseGroup (exceptionWith None);
        slog.String "logger_name" "canonical"; slog.Group "md" []].
Proof.
  split; [reflexivity|].
  apply (CanonicalLogger_no_stack_frame exampleRuntime logger.init logger.Info
           "{}" "{}" (exceptionWith None) userLog []); reflexivity.
Defined.

Lemma mask_sensitive_string_secret123 :
  grpcclient.maskSensitiveDataUsingStructTag (Some testProtoMessage)
    (<["public_field" := AString "public_value"]>
       (<["sensitive_field" := AString "secret123"]> ∅))
    !! "sensitive_field"
  = Some (AString "s*****3").
Proof.
  refine (proj1 (proj2
            (mask_sensitive_string testProtoMessage
               (<["public_field" := AString "public_value"]>
                  (<["sensitive_field" := AString "secret123"]> ∅))
               sensitiveField "secret123" _ _ _)) _).
  - right. left. reflexivity.
  - reflexivity.
  - vm_compute. reflexivity.
  - vm_compute. discriminate.
Defined.

Lemma mask_skips_non_strings_number :
  grpcclient.maskSensitiveDataUsingStructTag (Some testProtoMessage)
    (<["sensitive_field" := AInt 123]> ∅) !! "sensitive_field"
  = Some (AInt 123).
Proof.
  refine (eq_trans
            (proj1 (proj2
               (mask_skips_non_strings testProtoMessage
                  (<["sensitive_field" := AInt 123]> ∅) sensitiveField _ _ _)))
            _).
  - right. left. reflexivity.
  - reflexivity.
  - intros s. vm_compute. discriminate.
  - vm_compute. reflexivity.
Defined.

(** ** Inputs on which a sentence of the specification fails *)

Definition newline : string := String LF "".

(** A stack text of ten lines separated by newlines alone is one segment
    for the newline-tab delimiter, and is logged whole. *)
Lemma stack_of_ten_newline_lines_logged_whole :
  slog.args
    (logger.CanonicalLogger exampleRuntime logger.init logger.Error "{}" "{}"
       (Some (logger.ExceptionErrorPtr
                (Some (exceptionWith
                         (Some [frameWith (strings.Join tenLines newline)])))))
       userLog [])
  = [slog.Any "request" (AMap ∅);
     slog.Group "error"
       [slog.String "kind" "RuntimeError";
        slog.String "message" "Test error with long stack";
        slog.String "stack" (strings.Join tenLines newline)];
     responseGroup (exceptionWith (Some [frameWith (strings.Join tenLines newline)]));
     slog.String "logger_name" "canonical"; slog.Group "md" []]
  /\ strings.Split (strings.Join tenLines newline) newline = tenLines
  /\ strings.Join tenLines newline
     <> strings.Join (take 6 tenLines) newline.
Proof. split; [|split]; vm_compute; [reflexivity|reflexivity|discriminate]. Qed.

(** An [*ExceptionError] whose [StackErrors] is empty but not nil is logged
    with the [error] group of the default frame. *)
Lemma empty_stack_list_logs_default_frame :
  slog.args
    (logger.CanonicalLogger exampleRuntime logger.init logger.Info "{}" "{}"
       (Some (logger.ExceptionErrorPtr (Some (exceptionWith (Some [])))))
       userLog [])
  = [slog.Any "request" (AMap ∅);
     slog.Group "error"
       [slog.String "kind" "unknown";
        slog.String "message" "no stack information available";
        slog.String "stack" ""];
     responseGroup (exceptionWith (Some []));
     slog.String "logger_name" "canonical"; slog.Group "md" []].
Proof. vm_compute. reflexivity. Qed.

Definition searchLog : logger.CanonicalLog.t :=
  logger.CanonicalLog.mk "HTTP" "incoming" "GET" 200 "/api/search?q=a&b=c+d"
    (150 * time.Millisecond) "Success" 0.

Definition compiled : logger.Package :=
  {| logger.canonicalLogTemplate := template.Parse logger.logTemplate;
     logger.DenyPatterns := logger.defaultDenyPatterns |}.

(** An ampersand and a plus sign in the path come out escaped. *)
Lemma summary_escapes_the_path :
  logger.CompileCanonicalLogTemplate logger.init = Some compiled
  /\ logger.summary compiled searchLog
     = "[HTTP][incoming] GET 200 /api/search?q=a&amp;b=c&#43;d 150ms - Success"
  /\ canonicalLine searchLog
     = "[HTTP][incoming] GET 200 /api/search?q=a&b=c+d 150ms - Success"
  /\ logger.summary compiled searchLog <> canonicalLine searchLog.
Proof.
  split; [|split; [|split]]; vm_compute; [reflexivity..|discriminate].
Qed.

(** The payload [null] is no JSON object, yet it is logged as the nil map
    and not as the string "null". *)
Lemma null_payload_logged_as_nil_map :
  json.Unmarshal exampleRuntime "null" = inr None
  /\ logger.payloadField exampleRuntime "request" "null" = slog.Any "request" ANilMap
  /\ logger.payloadField exampleRuntime "request" "null"
     <> slog.String "request" "null".
Proof. split; [|split]; vm_compute; [reflexivity..|discriminate]. Qed.

Definition pinFields : list reflect.StructField :=
  [ {| reflect.Name := "Pin";
       reflect.Tag := [("json", "pin"); ("sensitive", "true")] |};
    {| reflect.Name := "PinCheck";
       reflect.Tag := [("json", "pin,omitempty"); ("sensitive", "true")] |} ].

(** The letter e with an acute accent: one character, two bytes. *)
Definition eAcute : string := of_bytes [0xC3; 0xA9].

(** A one-byte string under a key that two sensitive fields share gets a
    sixth asterisk, and a string of one character that takes two bytes is
    cut between its bytes. *)
Lemma mask_repeats_and_splits_characters :
  grpcclient.maskSensitiveDataUsingStructTag (Some pinFields)
    (<["pin" := AString "x"]> ∅) !! "pin"
  = Some (AString "x******")
  /\ grpcclient.maskSensitiveDataUsingStructTag (Some pinFields)
       (<["pin" := AString "x"]> ∅) !! "pin"
     <> Some (AString "x*****")
  /\ utf8.runes eAcute = [0xE9]
  /\ grpcclient.maskSensitiveDataUsingStructTag (Some testProtoMessage)
       (<["sensitive_field" := AString eAcute]> ∅) !! "sensitive_field"
     = Some (AString (of_bytes [0xC3; 42; 42; 42; 42; 42; 0xA9]))
  /\ grpcclient.maskSensitiveDataUsingStructTag (Some testProtoMessage)
       (<["sensitive_field" := AString eAcute]> ∅) !! "sensitive_field"
     <> Some (AString (eAcute +:+ "*****")).
Proof.
  split; [|split; [|split; [|split]]]; vm_compute;
    [reflexivity|discriminate|reflexivity|reflexivity|discriminate].
Qed.

(** * Further properties of the code *)

(** ** Deny lists other than the default one *)

Section Sanitize_more.
Variable rt : Runtime.

(** An upper-case ASCII letter. *)
Definition upperByte (c : ascii) : bool := (65 <=? byte c) && (byte c <=? 90).

Fixpoint hasUpper (s : string) : bool :=
  match s with
  | "" => false
  | String c s' => upperByte c || hasUpper s'
  end.

Lemma hasUpper_app (a b : string) : hasUpper (a +:+ b) = hasUpper a || hasUpper b.
Proof.
  induction a as [|c a IH]; [reflexivity|].
  rewrite str_app_cons. cbn [hasUpper]. by rewrite IH, orb_assoc.
Qed.

Lemma byte_chr (n : Z) : 0 <= n < 256 -> byte (chr n) = n.
Proof.
  intros H. unfold byte, chr. rewrite N_ascii_embedding by lia. lia.
Qed.

Lemma upperByte_chr (n : Z) :
  0 <= n < 256 -> ~ (65 <= n <= 90) -> upperByte (chr n) = false.
Proof.
  intros H Hn. unfold upperByte. rewrite byte_chr by done.
  apply andb_false_iff. lia.
Qed.

Lemma lowerByte_lower (c : ascii) : upperByte (strings.lowerByte c) = false.
Proof.
  unfold strings.lowerByte.
  destruct ((65 <=? byte c) && (byte c <=? 90)) eqn:E; [|exact E].
  apply andb_true_iff in E as [?%Z.leb_le ?%Z.leb_le].
  apply upperByte_chr; lia.
Qed.

Lemma mapBytes_lower (s : string) :
  hasUpper (strings.mapBytes strings.lowerByte s) = false.
Proof.
  induction s as [|c s IH]; [reflexivity|].
  cbn [strings.mapBytes hasUpper]. by rewrite lowerByte_lower, IH.
Qed.

(** [Z.lor] of a leading pattern with the bits below it is their sum. *)
Lemma lor_low (C x k : Z) :
  0 <= k -> C mod 2 ^ k = 0 -> 0 <= x < 2 ^ k -> Z.lor C x = C + x.
Proof.
  intros Hk HC Hx.
  assert (Z.land C x = 0) as Hland.
  { rewrite <- (Z.mod_small x (2 ^ k)) by done.
    rewrite <- (Z.land_ones x k) by done.
    rewrite (Z.land_comm x), Z.land_assoc, (Z.land_ones C k), HC by done.
    apply Z.land_0_l. }
  pose proof (Z.add_lor_land C x). lia.
Qed.

Lemma land_0x3F (r : Z) : Z.land r 0x3F = r mod 64.
Proof. exact (Z.land_ones r 6 ltac:(lia)). Qed.

Lemma hasUpper_of_bytes (l : list Z) :
  Forall (fun y => 0 <= y < 256 /\ ~ (65 <= y <= 90)) l ->
  hasUpper (of_bytes l) = false.
Proof.
  induction 1 as [|y l [Hy Hn] _ IH]; [reflexivity|].
  cbn [of_bytes hasUpper]. by rewrite upperByte_chr, IH.
Qed.

Lemma EncodeRune_lower (r : Z) :
  ~ (65 <= r <= 90) -> hasUpper (utf8.EncodeRune r) = false.
Proof.
  intros Hr. unfold utf8.EncodeRune, utf8.encode3, utf8.MaxRune.
  repeat case_match; try reflexivity;
    repeat match goal with
    | H : _ && _ = true |- _ => apply andb_true_iff in H as [? ?]
    | H : _ || _ = false |- _ => apply orb_false_iff in H as [? ?]
    | H : _ && _ = false |- _ => apply andb_false_iff in H
    | H : (_ <=? _) = true |- _ => apply Z.leb_le in H
    | H : (_ <? _) = true |- _ => apply Z.ltb_lt in H
    | H : (_ <? _) = false |- _ => apply Z.ltb_ge in H
    end;
    apply hasUpper_of_bytes; repeat constructor;
    rewrite ?land_0x3F, ?Z.shiftr_div_pow2 by lia;
    try lia.
  all: try (rewrite (lor_low _ _ 6) by (try reflexivity; try lia;
              apply Z.mod_pos_bound; lia);
            pose proof (Z.mod_pos_bound r 64 ltac:(lia));
            pose proof (Z.mod_pos_bound (r / 2 ^ 6) 64 ltac:(lia));
            pose proof (Z.mod_pos_bound (r / 2 ^ 12) 64 ltac:(lia)); lia).
  all: match goal with
       | |- context [Z.lor 192 ?x] =>
           assert (0 <= x < 2 ^ 5) by
             (split; [apply Z.div_pos; lia|apply Z.div_lt_upper_bound; lia]);
           rewrite (lor_low 192 x 5) by (reflexivity || lia)
       | |- context [Z.lor 224 ?x] =>
           assert (0 <= x < 2 ^ 4) by
             (split; [apply Z.div_pos; lia|apply Z.div_lt_upper_bound; lia]);
           rewrite (lor_low 224 x 4) by (reflexivity || lia)
       | |- context [Z.lor 240 ?x] =>
           assert (0 <= x < 2 ^ 3) by
             (split; [apply Z.div_pos; lia|apply Z.div_lt_upper_bound; lia]);
           rewrite (lor_low 240 x 3) by (reflexivity || lia)
       end; lia.
Qed.

(** What Go's case tables satisfy: no rune above U+007F has an upper-case
    ASCII letter as its lower case. *)
Definition lowerTable : Prop :=
  forall r, unicode.MaxASCII < r -> ~ (65 <= unicode_To_LowerCase rt r <= 90).

Lemma unicode_ToLower_lower (r : Z) :
  lowerTable -> ~ (65 <= unicode.ToLower rt r <= 90).
Proof.
  intros Hrt. unfold unicode.ToLower.
  destruct (Z.leb_spec r unicode.MaxASCII) as [Hle|Hgt]; [|by apply Hrt].
  destruct ((65 <=? r) && (r <=? 90)) eqn:E.
  - apply andb_true_iff in E as [?%Z.leb_le ?%Z.leb_le]. lia.
  - apply andb_false_iff in E as [?%Z.leb_gt|?%Z.leb_gt]; lia.
Qed.

Lemma concat_lower (l : list string) :
  Forall (fun s => hasUpper s = false) l -> hasUpper (String.concat "" l) = false.
Proof.
  induction 1 as [|s l Hs _ IH]; [reflexivity|].
  cbn [String.concat]. destruct l as [|s' l]; [done|].
  change (hasUpper (s +:+ "" +:+ String.concat "" (s' :: l)) = false).
  by rewrite !hasUpper_app, Hs, IH.
Qed.

(** The lower-cased text has no upper-case ASCII letter. *)
Lemma ToLower_lower (s : string) :
  lowerTable -> hasUpper (strings.ToLower rt s) = false.
Proof.
  intros Hrt. unfold strings.ToLower.
  destruct (strings.isASCII s); [apply mapBytes_lower|].
  unfold strings.Map. apply concat_lower, Forall_map, Forall_forall.
  intros c _. cbn beta zeta.
  destruct (0 <=? unicode.ToLower rt c); [|reflexivity].
  by apply EncodeRune_lower, unicode_ToLower_lower.
Qed.

Lemma Contains_upper (l p : string) :
  hasUpper l = false -> hasUpper p = true -> strings.Contains l p = false.
Proof.
  intros Hl Hp. apply not_true_is_false. intros (pre & post & ->)%Contains_spec.
  rewrite !hasUpper_app, Hp in Hl. by destruct (hasUpper pre).
Qed.

Lemma Sanitize_loop_upper (l : string) (patterns : list string) :
  hasUpper l = false ->
  logger.Sanitize_loop l patterns
  = logger.Sanitize_loop l (List.filter (fun p => negb (hasUpper p)) patterns).
Proof.
  intros Hl. induction patterns as [|p patterns IH]; [reflexivity|].
  cbn [logger.Sanitize_loop List.filter].
  destruct (hasUpper p) eqn:Hp; cbn [negb logger.Sanitize_loop].
  - by rewrite Contains_upper.
  - by rewrite IH.
Qed.

(** X1.  Whatever the deny list holds, a key is flagged exactly when its
    lower-cased text contains one of the patterns.  So with an empty list
    no key is flagged, and with the empty pattern in the list every key
    is. *)
Theorem Sanitize_any_deny_list (pkg : logger.Package) (logKey : string) :
  (logger.Sanitize rt pkg logKey = true <->
   exists denyPattern pre post,
     In denyPattern (logger.DenyPatterns pkg)
     /\ strings.ToLower rt logKey = pre +:+ denyPattern +:+ post)
  /\ (logger.DenyPatterns pkg = [] -> logger.Sanitize rt pkg logKey = false)
  /\ (In "" (logger.DenyPatterns pkg) -> logger.Sanitize rt pkg logKey = true).
Proof.
  assert (logger.Sanitize rt pkg logKey = true <->
          exists denyPattern pre post,
            In denyPattern (logger.DenyPatterns pkg)
            /\ strings.ToLower rt logKey = pre +:+ denyPattern +:+ post) as Hiff.
  { unfold logger.Sanitize. rewrite Sanitize_loop_spec. split.
    - intros (p & Hin & (pre & post & E)%Contains_spec). by exists p, pre, post.
    - intros (p & pre & post & Hin & E). exists p. split; [done|].
      apply Contains_spec. by exists pre, post. }
  split; [exact Hiff|split].
  - intros E. unfold logger.Sanitize. by rewrite E.
  - intros Hin. apply Hiff. by exists "", "", (strings.ToLower rt logKey).
Qed.

(** X2.  A deny pattern with an upper-case ASCII letter in it never
    matches, the key being compared in lower case: dropping every such
    pattern from the list changes the answer for no key. *)
Theorem Sanitize_ignores_uppercase_patterns
    (tmpl : option template.Template) (patterns : list string) (logKey : string) :
  lowerTable ->
  logger.Sanitize rt
    {| logger.canonicalLogTemplate := tmpl; logger.DenyPatterns := patterns |}
    logKey
  = logger.Sanitize rt
      {| logger.canonicalLogTemplate := tmpl;
         logger.DenyPatterns := List.filter (fun p => negb (hasUpper p)) patterns |}
      logKey.
Proof.
  intros Hrt. unfold logger.Sanitize. cbn [logger.DenyPatterns].
  by apply Sanitize_loop_upper, ToLower_lower.
Qed.

End Sanitize_more.

Lemma Sanitize_ignores_uppercase_patterns_Token :
  logger.Sanitize exampleRuntime
    {| logger.canonicalLogTemplate := None;
       logger.DenyPatterns := ["Token"; "secret"] |} "/api/auth/Token"
  = logger.Sanitize exampleRuntime
      {| logger.canonicalLogTemplate := None; logger.DenyPatterns := ["secret"] |}
      "/api/auth/Token".
Proof.
  apply (Sanitize_ignores_uppercase_patterns exampleRuntime None
           ["Token"; "secret"] "/api/auth/Token").
  intros r Hr. unfold unicode.MaxASCII in Hr. cbn [unicode_To_LowerCase exampleRuntime].
  lia.
Defined.

(** ** The canonical log assembler: what else it does and does not *)

Section CanonicalLogger_more.
Variable rt : Runtime.
Variable pkg : logger.Package.

Lemma Join_take (l : list string) (sep : string) (n : nat) :
  (0 < n)%nat ->
  strings.Join l sep
  = strings.Join (take n l) sep +:+
    (if (n <? length l)%nat then sep +:+ strings.Join (drop n l) sep else "").
Proof.
  revert n. induction l as [|e l IH]; intros n Hn.
  { by destruct n. }
  destruct n as [|m]; [lia|]. cbn [take drop length].
  destruct l as [|e' l].
  { rewrite take_nil. cbn. by rewrite str_app_nil_r. }
  rewrite Join_cons by done.
  destruct m as [|m].
  { cbn [take drop]. reflexivity. }
  rewrite (IH (S m)) by lia.
  rewrite Join_cons by done. cbn [length].
  change (S (S m) <? S (S (length l)))%nat with (S m <? S (length l))%nat.
  by rewrite !str_app_assoc.
Qed.

(** X3.  The stack text written into the [error] group is a prefix of the
    first frame's stack text: all of it when the delimiter cuts it into at
    most six segments, and otherwise what precedes the sixth delimiter,
    the remainder and every later frame being left out. *)
Theorem stackGroup_logs_a_prefix
    (first : logger.StackError.t) (later : list logger.StackError.t) :
  let segments := strings.Split (logger.StackError.Stack first) logger.frameSep in
  exists stack rest,
    logger.stackGroup (Some (first :: later))
    = slog.Group "error"
        [slog.String "kind" (logger.StackError.Kind first);
         slog.String "message" (logger.StackError.Message first);
         slog.String "stack" stack]
    /\ logger.StackError.Stack first = stack +:+ rest
    /\ rest = (if (6 <? length segments)%nat
               then logger.frameSep +:+ strings.Join (drop 6 segments) logger.frameSep
               else "").
Proof.
  intros segments. unfold logger.stackGroup. cbn [logger.GetStackField].
  fold segments.
  pose proof (Join_take segments logger.frameSep 6 ltac:(lia)) as HJ.
  unfold segments at 1 in HJ. rewrite Join_Split in HJ by done.
  destruct (6 <? length segments)%nat.
  - eexists _, _. split; [reflexivity|]. split; [exact HJ|reflexivity].
  - exists (logger.StackError.Stack first), "".
    split; [reflexivity|]. split; [by rewrite str_app_nil_r|reflexivity].
Qed.

(** X4.  An error that is not a non-nil [*ExceptionError] (any other error
    type, or a nil [*ExceptionError] in the interface) changes the level
    and nothing else: the attributes and the message are those of the call
    without an error, and the text of the error is not logged. *)
Theorem CanonicalLogger_opaque_error
    (level : Z) (request response : string) (err : logger.error)
    (canonicalLog : logger.CanonicalLog.t) (metadata : list slog.Attr) :
  (forall cErr, err <> logger.ExceptionErrorPtr (Some cErr)) ->
  let withErr :=
    logger.CanonicalLogger rt pkg level request response (Some err) canonicalLog
      metadata in
  let without :=
    logger.CanonicalLogger rt pkg level request response None canonicalLog
      metadata in
  slog.method withErr = slog.ErrorContext
  /\ slog.msg withErr = slog.msg without
  /\ slog.args withErr = slog.args without.
Proof.
  intros Hn. destruct err as [[cErr|]|text]; [by destruct (Hn cErr)|..];
    by repeat split.
Qed.

(** X5.  With a non-nil [*ExceptionError] the summary is rendered from the
    record with its message replaced by the debug message of the error,
    so the message the caller put into the record has no effect on the
    call. *)
Theorem CanonicalLogger_exception_message
    (level : Z) (request response : string) (cErr : logger.ExceptionError.t)
    (canonicalLog : logger.CanonicalLog.t) (metadata : list slog.Attr) :
  let call (c : logger.CanonicalLog.t) :=
    logger.CanonicalLogger rt pkg level request response
      (Some (logger.ExceptionErrorPtr (Some cErr))) c metadata in
  slog.msg (call canonicalLog)
  = logger.summary pkg
      (logger.CanonicalLog.withMessage canonicalLog
         (logger.ExceptionError.DebugMessage cErr))
  /\ forall message,
       call (logger.CanonicalLog.withMessage canonicalLog message)
       = call canonicalLog.
Proof. split; [reflexivity|]. intros message. reflexivity. Qed.

(** X6.  While the template has not been compiled the message is the
    fixed text saying so; the method and the attributes are those the call
    has with a template. *)
Theorem CanonicalLogger_without_template
    (level : Z) (request response : string) (err : option logger.error)
    (canonicalLog : logger.CanonicalLog.t) (metadata : list slog.Attr) :
  logger.canonicalLogTemplate pkg = None ->
  let call (p : logger.Package) :=
    logger.CanonicalLogger rt p level request response err canonicalLog metadata in
  slog.msg (call pkg) = "failed to get canonical log template"
  /\ forall tmpl,
       let pkg' := {| logger.canonicalLogTemplate := tmpl;
                      logger.DenyPatterns := logger.DenyPatterns pkg |} in
       slog.method (call pkg') = slog.method (call pkg)
       /\ slog.args (call pkg') = slog.args (call pkg).
Proof.
  intros E call. subst call. cbn beta. unfold logger.CanonicalLogger.
  destruct (logger.classify rt response err canonicalLog) as [[l f] c].
  cbn [slog.msg slog.method slog.args]. unfold logger.summary,
    logger.GetCanonicalLogTemplate. rewrite E. split; [reflexivity|].
  intros tmpl. split; reflexivity.
Qed.

Lemma Key_payloadField (key payload : string) :
  slog.Key (logger.payloadField rt key payload) = key.
Proof. unfold logger.payloadField. by destruct (json.Unmarshal rt payload). Qed.

(** Whether the call carries the [error] group of a stack frame. *)
Definition logsFrame (err : option logger.error) (canonicalLog : logger.CanonicalLog.t)
  : bool :=
  negb (logger.Sanitize rt pkg (logger.CanonicalLog.Path canonicalLog))
  && match err with
     | Some (logger.ExceptionErrorPtr (Some cErr)) =>
         match logger.ExceptionError.StackErrors cErr with
         | Some _ => true
         | None => false
         end
     | _ => false
     end.

(** X7.  The attributes of a call always have the keys [request],
    [response], [logger_name] and [md], in this order, with the key
    [error] between the first two exactly when a non-nil
    [*ExceptionError] with a non-nil list of frames is logged on a route
    that is not redacted. *)
Theorem CanonicalLogger_keys
    (level : Z) (request response : string) (err : option logger.error)
    (canonicalLog : logger.CanonicalLog.t) (metadata : list slog.Attr) :
  map slog.Key
    (slog.args
       (logger.CanonicalLogger rt pkg level request response err canonicalLog
          metadata))
  = "request"
      :: (if logsFrame err canonicalLog then ["error"] else [])
      ++ ["response"; "logger_name"; "md"].
Proof.
  unfold logsFrame, logger.CanonicalLogger.
  destruct (logger.Sanitize rt pkg (logger.CanonicalLog.Path canonicalLog)).
  - by destruct (logger.classify rt response err canonicalLog) as [[l f] c].
  - destruct err as [[[cErr|]|text]|]; cbn; rewrite ?Key_payloadField; try done.
    by destruct (logger.ExceptionError.StackErrors cErr).
Qed.

End CanonicalLogger_more.

Lemma CanonicalLogger_opaque_error_nil_pointer :
  slog.method
    (logger.CanonicalLogger exampleRuntime logger.init logger.Info "{}" "{}"
       (Some (logger.ExceptionErrorPtr None)) userLog [])
  = slog.ErrorContext
  /\ slog.args
       (logger.CanonicalLogger exampleRuntime logger.init logger.Info "{}" "{}"
          (Some (logger.ExceptionErrorPtr None)) userLog [])
     = slog.args
         (logger.CanonicalLogger exampleRuntime logger.init logger.Info "{}" "{}"
            None userLog []).
Proof.
  pose proof (CanonicalLogger_opaque_error exampleRuntime logger.init logger.Info
                "{}" "{}" (logger.ExceptionErrorPtr None) userLog []
                ltac:(discriminate)) as (Hm & _ & Ha).
  split; [exact Hm|exact Ha].
Defined.

Lemma CanonicalLogger_without_template_init :
  slog.msg
    (logger.CanonicalLogger exampleRuntime logger.init logger.Info "{}" "{}" None
       userLog [])
  = "failed to get canonical log template".
Proof.
  exact (proj1 (CanonicalLogger_without_template exampleRuntime logger.init
                  logger.Info "{}" "{}" None userLog [] eq_refl)).
Defined.

(** ** The summary line once the template is compiled *)

Section summary_more.

(** The template with every string field passed through the escaper. *)
Definition escapedLine (c : logger.CanonicalLog.t) : string :=
  "[" +:+ template.htmlEscaper (logger.CanonicalLog.Transport c) +:+ "][" +:+
  template.htmlEscaper (logger.CanonicalLog.Traffic c) +:+ "] " +:+
  template.htmlEscaper (logger.CanonicalLog.Method c) +:+ " " +:+
  strconv.Itoa (logger.CanonicalLog.Status c) +:+ " " +:+
  template.htmlEscaper (logger.CanonicalLog.Path c) +:+ " " +:+
  time.String_ (logger.CanonicalLog.Duration c) +:+ " - " +:+
  template.htmlEscaper (logger.CanonicalLog.Message c).

Lemma summary_compiled (pkg0 pkg : logger.Package) (c : logger.CanonicalLog.t) :
  logger.CompileCanonicalLogTemplate pkg0 = Some pkg ->
  logger.summary pkg c = escapedLine c.
Proof.
  unfold logger.CompileCanonicalLogTemplate. rewrite Parse_logTemplate.
  intros [= <-]. unfold escapedLine.
  rewrite <- (htmlEscaper_plain (strconv.Itoa _) (plain_Itoa _)).
  rewrite <- (htmlEscaper_plain (time.String_ _) (plain_Duration _)).
  rewrite <- (str_app_nil_r (template.htmlEscaper (logger.CanonicalLog.Message c))).
  reflexivity.
Qed.

(** NUL, the two quotes, the plus sign and the angle brackets. *)
Definition rawByte (c : ascii) : bool :=
  (byte c =? 0) || (byte c =? 34) || (byte c =? 39) || (byte c =? 43)
  || (byte c =? 60) || (byte c =? 62).

Fixpoint raw (s : string) : bool :=
  match s with
  | "" => false
  | String c s' => rawByte c || raw s'
  end.

Lemma raw_app (a b : string) : raw (a +:+ b) = raw a || raw b.
Proof.
  induction a as [|c a IH]; [reflexivity|].
  rewrite str_app_cons. cbn [raw]. by rewrite IH, orb_assoc.
Qed.

Lemma raw_replacement (b : Z) (repl : string) :
  template.htmlReplacementTable b = Some repl -> raw repl = false.
Proof.
  unfold template.htmlReplacementTable.
  repeat case_match; intros [= <-]; reflexivity.
Qed.

Lemma rawByte_copied (c : ascii) :
  template.htmlReplacementTable (byte c) = None -> rawByte c = false.
Proof.
  unfold template.htmlReplacementTable, rawByte.
  repeat case_match; try discriminate; reflexivity.
Qed.

Lemma raw_htmlEscaper (s : string) : raw (template.htmlEscaper s) = false.
Proof.
  induction s as [|c s IH]; [reflexivity|]. cbn [template.htmlEscaper].
  destruct (template.htmlReplacementTable (byte c)) as [repl|] eqn:E.
  - by rewrite raw_app, (raw_replacement _ _ E), IH.
  - cbn [raw]. by rewrite rawByte_copied, IH.
Qed.

Lemma raw_plain (s : string) : plain s = true -> raw s = false.
Proof. intros H. rewrite <- (htmlEscaper_plain s H). apply raw_htmlEscaper. Qed.

(** X8.  Once the template is compiled the summary line holds no NUL byte,
    no quote, no plus sign and no angle bracket, whatever the record
    holds, and it is neither of the two texts that report a failure. *)
Theorem summary_has_no_markup
    (pkg0 pkg : logger.Package) (c : logger.CanonicalLog.t) :
  logger.CompileCanonicalLogTemplate pkg0 = Some pkg ->
  raw (logger.summary pkg c) = false
  /\ logger.summary pkg c <> "failed to get canonical log template"
  /\ logger.summary pkg c <> "failed to execute canonical log template".
Proof.
  intros E. rewrite (summary_compiled pkg0 pkg c E). split; [|by split].
  unfold escapedLine.
  by rewrite !raw_app, !raw_htmlEscaper, (raw_plain _ (plain_Itoa _)),
    (raw_plain _ (plain_Duration _)).
Qed.

End summary_more.

Lemma summary_has_no_markup_search :
  raw (logger.summary compiled searchLog) = false.
Proof.
  exact (proj1 (summary_has_no_markup logger.init compiled searchLog eq_refl)).
Defined.

(** ** The masker: keys, repeated masking and the tag options *)

Section masker_more.

Lemma maskField_dom (field : reflect.StructField) (data : gmap string any) :
  dom (grpcclient.maskField field data) =@{gset string} dom data.
Proof.
  rewrite maskField_unfold. repeat case_match; try done.
  apply dom_insert_lookup_L. by eexists.
Qed.

Lemma mask_dom (fields : list reflect.StructField) (data : gmap string any) :
  dom (grpcclient.maskSensitiveDataUsingStructTag (Some fields) data)
  =@{gset string} dom data.
Proof.
  unfold grpcclient.maskSensitiveDataUsingStructTag.
  revert data. induction fields as [|f fields IH]; intros data; [done|].
  cbn [fold_left]. by rewrite IH, maskField_dom.
Qed.

(** X9.  Masking neither adds a key to the map nor removes one, whatever
    the message type declares. *)
Theorem mask_preserves_keys
    (message : option (list reflect.StructField)) (data : gmap string any) :
  dom (grpcclient.maskSensitiveDataUsingStructTag message data)
  =@{gset string} dom data.
Proof. destruct message as [fields|]; [apply mask_dom|done]. Qed.

Lemma iter_masked_twice (n : nat) (s : string) :
  (len s = 1 -> n = 0%nat) ->
  Nat.iter n masked (Nat.iter n masked s) = Nat.iter n masked s.
Proof.
  intros H1. destruct n as [|n]; [done|].
  assert (0 <= len s) as H0 by (unfold len; lia).
  destruct (Z.eq_dec (len s) 0) as [E0|N0].
  { by rewrite !(iter_masked_empty (S n) s E0). }
  assert (2 <= len s) as H2 by (assert (len s <> 1) by (intros E; by apply H1 in E); lia).
  rewrite (iter_masked_long (S n) s) by (done || lia).
  rewrite iter_masked_long by (by apply masked_long || lia).
  by apply masked_idem.
Qed.

(** X10.  Masking a map that has been masked changes nothing, provided no
    string of exactly one byte sits under the key of a sensitive field. *)
Theorem mask_idempotent
    (fields : list reflect.StructField) (data : gmap string any) :
  (forall k s, data !! k = Some (AString s) -> len s = 1 ->
               writes k fields = 0%nat) ->
  let mask := grpcclient.maskSensitiveDataUsingStructTag (Some fields) in
  mask (mask data) = mask data.
Proof.
  intros H1 mask. subst mask. apply map_eq. intros k.
  destruct (data !! k) as [v|] eqn:E.
  - destruct v as [| | | |s| | |];
      try (rewrite !mask_not_string; [done|rewrite E; congruence|
           rewrite mask_not_string; rewrite E; congruence]).
    rewrite (mask_string fields data k s E).
    rewrite (mask_string fields _ k _ (mask_string fields data k s E)).
    rewrite iter_masked_twice; [done|]. intros Hs. by apply (H1 k s).
  - rewrite !mask_not_string; [done|rewrite E; congruence|
      rewrite mask_not_string; rewrite E; congruence].
Qed.

Lemma Index_comma (name opts : string) :
  strings.Contains name "," = false ->
  strings.Index (name +:+ "," +:+ opts) "," = len name.
Proof.
  induction name as [|c name IH]; intros Hn; [reflexivity|].
  rewrite str_app_cons, Index_unfold.
  unfold strings.Contains in Hn. rewrite Index_unfold in Hn.
  cbn [strings.HasPrefix] in Hn |- *.
  destruct (Ascii.eqb "," c); cbn [andb] in Hn |- *; [done|].
  cbn zeta in Hn.
  destruct (Z.ltb_spec (strings.Index name ",") 0) as [Hlt|Hge].
  - rewrite IH by (unfold strings.Contains; apply Z.leb_gt; lia).
    unfold len. cbn [String.length].
    destruct (Z.ltb_spec (Z.of_nat (String.length name)) 0); lia.
  - apply Z.leb_gt in Hn. lia.
Qed.

Lemma take_str_app (a b : string) : take_str (String.length a) (a +:+ b) = a.
Proof.
  induction a as [|c a IH]; [by destruct b|].
  rewrite str_app_cons. cbn [String.length take_str]. by rewrite IH.
Qed.

(** X11.  The key a sensitive field is looked up under is its [json] tag up
    to the first comma: with the tag [name,options] a string under [name]
    is masked, and with a tag that has no comma the whole tag is the
    key. *)
Theorem maskField_strips_tag_options
    (field : reflect.StructField) (data : gmap string any) (name : string)
    (strValue : string) :
  sensitive field = true ->
  strings.Contains name "," = false ->
  data !! name = Some (AString strValue) ->
  (reflect.Get (reflect.Tag field) "json" = name
   \/ exists options, reflect.Get (reflect.Tag field) "json" = name +:+ "," +:+ options) ->
  grpcclient.maskField field data !! name = Some (AString (masked strValue))
  /\ forall k, k <> name -> grpcclient.maskField field data !! k = data !! k.
Proof.
  intros Hs Hn Hd Htag.
  assert (jsonFieldName field = name) as Hname.
  { unfold jsonFieldName. destruct Htag as [->|[options ->]].
    - unfold strings.Contains in Hn. apply Z.leb_gt in Hn.
      destruct (Z.ltb_spec (-1) (strings.Index name ",")); [lia|done].
    - rewrite Index_comma by done. unfold len.
      destruct (Z.ltb_spec (-1) (Z.of_nat (String.length name))); [|lia].
      by rewrite Nat2Z.id, take_str_app. }
  split.
  - rewrite <- Hname in Hd |- *. by apply maskField_string.
  - intros k Hk. apply maskField_other. right. congruence.
Qed.

End masker_more.

Definition passwordField : reflect.StructField :=
  {| reflect.Name := "Password";
     reflect.Tag := [("protobuf", "bytes,2,opt,name=password,proto3");
                     ("json", "password,omitempty"); ("sensitive", "true")] |}.

Lemma mask_idempotent_secret123 :
  grpcclient.maskSensitiveDataUsingStructTag (Some testProtoMessage)
    (grpcclient.maskSensitiveDataUsingStructTag (Some testProtoMessage)
       (<["sensitive_field" := AString "secret123"]> ∅))
  = grpcclient.maskSensitiveDataUsingStructTag (Some testProtoMessage)
      (<["sensitive_field" := AString "secret123"]> ∅).
Proof.
  apply (mask_idempotent testProtoMessage
           (<["sensitive_field" := AString "secret123"]> ∅)).
  intros k s Hk Hs.
  destruct (decide (k = "sensitive_field")) as [->|Hne].
  - rewrite lookup_insert_eq in Hk. injection Hk as <-. vm_compute in Hs. lia.
  - rewrite lookup_insert_ne, lookup_empty in Hk by done. discriminate.
Defined.

Lemma maskField_strips_tag_options_password :
  grpcclient.maskField passwordField (<["password" := AString "hunter2"]> ∅)
    !! "password"
  = Some (AString "h*****2").
Proof.
  refine (proj1 (maskField_strips_tag_options passwordField
                   (<["password" := AString "hunter2"]> ∅) "password" "hunter2"
                   _ _ _ _)).
  - reflexivity.
  - reflexivity.
  - apply lookup_insert_eq.
  - right. exists "omitempty". reflexivity.
Defined.

(** ** A message as a map *)

Section protoMessageToMap_facts.
Variable rt : Runtime.

(** X12.  For a message that protojson encodes as a JSON object, the map
    returned has the keys of that object; a value that is not a string,
    and any value under a key that is the name of no sensitive field, is
    the decoded one; and a string of two bytes or more under the name of
    a sensitive field comes back masked. *)
Theorem protoMessageToMap_masks
    (m : proto.Message) (jsonBytes : string) (data : gmap string any) :
  proto.protojson_Marshal m = Some jsonBytes ->
  json.Unmarshal rt jsonBytes = inr (Some data) ->
  exists result,
    grpcclient_map.protoMessageToMap rt (Some m) = inr (Some result)
    /\ dom result =@{gset string} dom data
    /\ (forall k, (forall s, data !! k <> Some (AString s)) ->
                  result !! k = data !! k)
    /\ (forall k,
           (forall f, In f (proto.fields m) -> sensitive f = true ->
                      jsonFieldName f <> k) ->
           result !! k = data !! k)
    /\ (forall field s,
           In field (proto.fields m) -> sensitive field = true ->
           data !! jsonFieldName field = Some (AString s) -> 2 <= len s ->
           result !! jsonFieldName field = Some (AString (masked s))).
Proof.
  intros HM HU. unfold grpcclient_map.protoMessageToMap. rewrite HM, HU.
  eexists. split; [reflexivity|]. split; [apply mask_dom|]. split; [|split].
  - intros k Hk. by apply mask_not_string.
  - intros k Hk. by apply mask_untouched.
  - intros field s Hin Hs Hd Hlen.
    rewrite (mask_string _ _ _ _ Hd), iter_masked_long; [done..|].
    by eapply writes_pos.
Qed.

(** X13.  A nil message gives the nil map without an error; an error comes
    back exactly when protojson fails or its output does not decode to an
    object or [null]; and no message gives a map when its JSON text does
    not start, after white space, with an opening brace. *)
Theorem protoMessageToMap_outcome (message : option proto.Message) :
  grpcclient_map.protoMessageToMap rt None = inr None
  /\ (forall e, grpcclient_map.protoMessageToMap rt message = inl e <->
        exists m, message = Some m
          /\ match proto.protojson_Marshal m with
             | None => e = grpcclient_map.marshalError
             | Some jsonBytes =>
                 exists err, json.Unmarshal rt jsonBytes = inl err
                             /\ e = grpcclient_map.unmarshalError err
             end)
  /\ (forall result,
        grpcclient_map.protoMessageToMap rt message = inr (Some result) ->
        exists m jsonBytes rest,
          message = Some m /\ proto.protojson_Marshal m = Some jsonBytes
          /\ skipSpace jsonBytes = "{" +:+ rest).
Proof.
  split; [reflexivity|]. unfold grpcclient_map.protoMessageToMap. split.
  - intros e. split.
    + destruct message as [m|]; [|done]. intros H. exists m. split; [done|].
      destruct (proto.protojson_Marshal m) as [jsonBytes|]; [|congruence].
      destruct (json.Unmarshal rt jsonBytes) as [err|r]; [|done].
      exists err. split; congruence.
    + intros (m & -> & H).
      destruct (proto.protojson_Marshal m) as [jsonBytes|]; [|congruence].
      destruct H as (err & -> & ->). reflexivity.
  - intros result H. destruct message as [m|]; [|done].
    destruct (proto.protojson_Marshal m) as [jsonBytes|] eqn:EM; [|done].
    destruct (json.Unmarshal rt jsonBytes) as [err|[data|]] eqn:EU; [done| |done].
    destruct (Unmarshal_object rt jsonBytes data EU) as [rest Hrest].
    by exists m, jsonBytes, rest.
Qed.

End protoMessageToMap_facts.

Definition loginRequest : proto.Message :=
  {| proto.fields := [passwordField];
     proto.protojson_Marshal := Some (dq "{'password': 'hunter2'}") |}.

Definition loginData : gmap string any := <["password" := AString "hunter2"]> ∅.

Lemma protoMessageToMap_masks_login :
  exists result,
    grpcclient_map.protoMessageToMap exampleRuntime (Some loginRequest)
    = inr (Some result)
    /\ result !! "password" = Some (AString "h*****2").
Proof.
  destruct (protoMessageToMap_masks exampleRuntime loginRequest
              (dq "{'password': 'hunter2'}") loginData
              eq_refl ltac:(vm_compute; reflexivity))
    as (result & Hr & _ & _ & _ & Hmask).
  exists result. split; [exact Hr|].
  apply (Hmask passwordField "hunter2").
  - left. reflexivity.
  - reflexivity.
  - vm_compute. reflexivity.
  - vm_compute. discriminate.
Defined.

(** ** The HTTP middleware *)

Section httpserver_facts.
Variable rt : Runtime.

(** X14.  The value logged for a header is the first value of the header
    when this is not empty; it is empty exactly when the header is absent,
    has no value, or has the empty string as its first value. *)
Theorem convertHeaderAttrToString_first
    (key : string) (headers : gmap string (list string)) :
  (forall v, v <> "" ->
     (httpserver.convertHeaderAttrToString key headers = v
      <-> exists rest, headers !! key = Some (v :: rest)))
  /\ (httpserver.convertHeaderAttrToString key headers = ""
      <-> headers !! key = None \/ headers !! key = Some []
          \/ exists rest, headers !! key = Some ("" :: rest)).
Proof.
  unfold httpserver.convertHeaderAttrToString.
  destruct (headers !! key) as [[|v0 rest]|]; split.
  - intros v Hv. split; [congruence|]. by intros [r ?].
  - split; [auto|done].
  - intros v Hv. split; [intros ->; by exists rest|]. intros [r ?]. congruence.
  - split.
    + intros ->. right. right. by exists rest.
    + intros [?|[?|[r ?]]]; congruence.
  - intros v Hv. split; [congruence|]. by intros [r ?].
  - split; [auto|done].
Qed.

(** X15.  The status code of the response decides nothing about the level:
    the entry goes through [ErrorContext] exactly when the handler chain
    returned an error, so that a response with status 500 and no error is
    logged through [InfoContext], and the call is the one made for any
    other status hint. *)
Theorem Logging_level_from_error_only
    (pkg : logger.Package) (c : httpserver.Ctx) (err : option logger.error)
    (elapse : Z) :
  slog.method (httpserver.Logging rt pkg c err elapse)
  = match err with
    | Some _ => slog.ErrorContext
    | None => slog.InfoContext
    end
  /\ forall level,
       httpserver.Logging rt pkg c err elapse
       = logger.CanonicalLogger rt pkg level (httpserver.Body c)
           (httpserver.Response_Body c) err
           (logger.CanonicalLog.mk "http" "internal" (httpserver.Method c)
              (httpserver.Response_StatusCode c) (httpserver.Path c) elapse "" 0)
           (httpserver.fields c elapse).
Proof.
  split; [by destruct err as [[[cErr|]|text]|]|].
  intros level. by destruct err as [[[cErr|]|text]|].
Qed.

(** X16.  With the template compiled, the message of the entry is the
    line [[http][internal] METHOD STATUS PATH DURATION - MESSAGE], the
    method, the path and the message escaped, the message being the debug
    message of a non-nil [*ExceptionError] and empty otherwise. *)
Theorem Logging_summary
    (pkg0 pkg : logger.Package) (c : httpserver.Ctx) (err : option logger.error)
    (elapse : Z) :
  logger.CompileCanonicalLogTemplate pkg0 = Some pkg ->
  slog.msg (httpserver.Logging rt pkg c err elapse)
  = "[http][internal] " +:+ template.htmlEscaper (httpserver.Method c) +:+ " " +:+
    strconv.Itoa (httpserver.Response_StatusCode c) +:+ " " +:+
    template.htmlEscaper (httpserver.Path c) +:+ " " +:+
    time.String_ elapse +:+ " - " +:+
    template.htmlEscaper
      match err with
      | Some (logger.ExceptionErrorPtr (Some cErr)) =>
          logger.ExceptionError.DebugMessage cErr
      | _ => ""
      end.
Proof.
  intros E. unfold httpserver.Logging, logger.CanonicalLogger.
  destruct err as [[[cErr|]|text]|]; cbn [logger.classify slog.msg];
    by rewrite (summary_compiled pkg0 pkg _ E).
Qed.

(** X17.  On a route the deny list flags, the bodies of the request and of
    the response have no influence on the entry: it is the same for any
    other two bodies, and its attributes are the two [REDACTED] strings,
    the logger name and the metadata group with the method, the path, the
    address and the headers. *)
Theorem Logging_redacted_bodies
    (pkg : logger.Package) (c : httpserver.Ctx) (err : option logger.error)
    (elapse : Z) (body response : string) :
  logger.Sanitize rt pkg (httpserver.Path c) = true ->
  let c' :=
    {| httpserver.Body := body;
       httpserver.Method := httpserver.Method c;
       httpserver.Path := httpserver.Path c;
       httpserver.IP := httpserver.IP c;
       httpserver.ReqHeaders := httpserver.ReqHeaders c;
       httpserver.Response_Body := response;
       httpserver.Response_StatusCode := httpserver.Response_StatusCode c |} in
  httpserver.Logging rt pkg c' err elapse = httpserver.Logging rt pkg c err elapse
  /\ slog.args (httpserver.Logging rt pkg c err elapse)
     = [slog.String "request" "REDACTED"; slog.String "response" "REDACTED";
        slog.String "logger_name" "canonical";
        slog.Group "md" (httpserver.fields c elapse)].
Proof.
  intros H c'. unfold httpserver.Logging, logger.CanonicalLogger.
  cbn [logger.CanonicalLog.Path httpserver.Path httpserver.Body
         httpserver.Response_Body httpserver.Method httpserver.Response_StatusCode
         c']. rewrite H.
  by destruct err as [[[cErr|]|text]|].
Qed.

End httpserver_facts.

Definition loginCtx : httpserver.Ctx :=
  {| httpserver.Body := dq "{'username': 'user', 'password': 'secret123'}";
     httpserver.Method := "POST";
     httpserver.Path := "/api/auth/login";
     httpserver.IP := "10.0.0.7";
     httpserver.ReqHeaders := <["X-Username" := ["user"]]> ∅;
     httpserver.Response_Body := dq "{'token': 'jwt-token-here'}";
     httpserver.Response_StatusCode := 500 |}.

Lemma Logging_summary_login :
  slog.msg
    (httpserver.Logging exampleRuntime compiled loginCtx None (200 * time.Millisecond))
  = "[http][internal] POST 500 /api/auth/login 200ms - ".
Proof.
  exact (Logging_summary exampleRuntime logger.init compiled loginCtx None
           (200 * time.Millisecond) eq_refl).
Defined.

Lemma Logging_redacted_bodies_login :
  slog.args
    (httpserver.Logging exampleRuntime logger.init loginCtx None
       (200 * time.Millisecond))
  = [slog.String "request" "REDACTED"; slog.String "response" "REDACTED";
     slog.String "logger_name" "canonical";
     slog.Group "md" (httpserver.fields loginCtx (200 * time.Millisecond))].
Proof.
  exact (proj2 (Logging_redacted_bodies exampleRuntime logger.init loginCtx None
                  (200 * time.Millisecond) "" "" eq_refl)).
Defined.

(** ** The gRPC server interceptor *)

Section grpcserver_facts.
Variable rt : Runtime.

Lemma healthCheck_eqb (FullMethod : string) :
  FullMethod <> grpcserver.healthCheck ->
  String.eqb FullMethod grpcserver.healthCheck = false.
Proof. intros H. by apply String.eqb_neq. Qed.

(** X18.  A call of the health check is not logged.  For any other call:
    when the error the handler returned is a nil [*ExceptionError],
    [status.Code] panics on its [Error] method and nothing is logged;
    otherwise the call is logged once, through [ErrorContext] when the
    handler returned an error and through [InfoContext] when it did not,
    and with the template compiled the message is
    [[grpc][internal] POST CODE METHOD DURATION - MESSAGE], the code being
    the one [status.Code] gives for the error: 0 without an error, 2 for a
    [*ExceptionError] whatever its own codes are. *)
Theorem Intercept_logs_once
    (pkg0 pkg : logger.Package) (FullMethod : string)
    (req resp : option proto.Message) (err : option grpcserver.error)
    (elapse : Z) :
  logger.CompileCanonicalLogTemplate pkg0 = Some pkg ->
  grpcserver.Intercept rt pkg grpcserver.healthCheck req resp err elapse = Some []
  /\ (FullMethod <> grpcserver.healthCheck ->
      match err with
      | Some (grpcserver.exceptionError None) =>
          grpcserver.Intercept rt pkg FullMethod req resp err elapse = None
      | _ =>
          exists call,
            grpcserver.Intercept rt pkg FullMethod req resp err elapse
            = Some [call]
            /\ slog.method call
               = match err with
                 | Some _ => slog.ErrorContext
                 | None => slog.InfoContext
                 end
            /\ slog.msg call
               = "[grpc][internal] POST " +:+
                 strconv.Itoa
                   match err with
                   | None => 0
                   | Some (grpcserver.statusError code _) => code
                   | Some _ => 2
                   end +:+ " " +:+
                 template.htmlEscaper FullMethod +:+ " " +:+
                 time.String_ elapse +:+ " - " +:+
                 template.htmlEscaper
                   match err with
                   | Some (grpcserver.exceptionError (Some cErr)) =>
                       logger.ExceptionError.DebugMessage cErr
                   | _ => ""
                   end
      end).
Proof.
  intros E. split; [reflexivity|]. intros Hne.
  unfold grpcserver.Intercept. rewrite healthCheck_eqb by done.
  destruct err as [[[cErr|]|code text|text]|];
    cbn [grpcserver.status_Code grpcserver.Error mbind option_bind];
    [|reflexivity|..];
    (eexists; split; [reflexivity|]);
    unfold logger.CanonicalLogger;
    cbn [option_map grpcserver.asError logger.classify slog.msg slog.method];
    (split; [reflexivity|]); by rewrite (summary_compiled pkg0 pkg _ E).
Qed.

Lemma Unmarshal_empty : json.Unmarshal rt "" = inl json.SyntaxError.
Proof. reflexivity. Qed.

(** X19.  A request that is no proto message, a nil one, or one protojson
    fails on is logged, on a route that is not redacted and when the
    error is no nil [*ExceptionError], as the empty string under
    [request]. *)
Theorem Intercept_request_without_bytes
    (pkg : logger.Package) (FullMethod : string)
    (req resp : option proto.Message) (err : option grpcserver.error)
    (elapse : Z) :
  FullMethod <> grpcserver.healthCheck ->
  logger.Sanitize rt pkg FullMethod = false ->
  err <> Some (grpcserver.exceptionError None) ->
  match req with
  | Some m => proto.protojson_Marshal m = None
  | None => True
  end ->
  exists call rest,
    grpcserver.Intercept rt pkg FullMethod req resp err elapse = Some [call]
    /\ slog.args call = slog.String "request" "" :: rest.
Proof.
  intros Hne Hs Herr Hreq. unfold grpcserver.Intercept.
  rewrite healthCheck_eqb by done.
  assert ((grpcserver.protoMessageToJsonBytes req).1 = "") as ->.
  { destruct req as [m|]; [|done]. cbn. by rewrite Hreq. }
  assert (exists status, grpcserver.status_Code err = Some status) as [status ->].
  { destruct err as [[[cErr|]|code text|text]|]; [by eexists|done|by eexists..]. }
  cbn [mbind option_bind].
  unfold logger.CanonicalLogger.
  cbn [logger.CanonicalLog.Path]. rewrite Hs.
  unfold logger.payloadField at 1. rewrite Unmarshal_empty.
  destruct (logger.classify _ _ _ _) as [[l f] c].
  eexists _, _. split; reflexivity.
Qed.

End grpcserver_facts.

Definition notFound : logger.ExceptionError.t :=
  logger.ExceptionError.mk 404 "User not found" "User with ID 999 does not exist"
    404 None false "" None.

Lemma Intercept_logs_once_exception :
  exists call,
    grpcserver.Intercept exampleRuntime compiled "/user.UserService/GetUser" None
      None (Some (grpcserver.exceptionError (Some notFound))) (50 * time.Millisecond)
    = Some [call]
    /\ slog.method call = slog.ErrorContext
    /\ slog.msg call
       = "[grpc][internal] POST 2 /user.UserService/GetUser 50ms - User with ID 999 does not exist".
Proof.
  exact (proj2 (Intercept_logs_once exampleRuntime logger.init compiled
                  "/user.UserService/GetUser" None None
                  (Some (grpcserver.exceptionError (Some notFound)))
                  (50 * time.Millisecond) eq_refl)
           ltac:(discriminate)).
Defined.

Lemma Intercept_request_without_bytes_nil :
  exists call rest,
    grpcserver.Intercept exampleRuntime logger.init "/user.UserService/GetUser"
      None None None (50 * time.Millisecond)
    = Some [call]
    /\ slog.args call = slog.String "request" "" :: rest.
Proof.
  exact (Intercept_request_without_bytes exampleRuntime logger.init
           "/user.UserService/GetUser" None None None (50 * time.Millisecond)
           ltac:(discriminate) eq_refl ltac:(discriminate) I).
Defined.

(** ** Setting the loggers up *)

Section setup_facts.

(** X20.  [newZapLogger] always builds one core or two, all at the level
    the configuration names.  The file core is there exactly when the file
    is enabled, a core writes to the standard output exactly when JSON is
    asked for or the file is not enabled, and the console encoder is used
    only when neither is: with the file enabled and JSON off nothing goes
    to the standard output. *)
Theorem newZapLogger_cores (config : logger_setup.Config.t) :
  let cores := logger_setup.newZapLogger config in
  let level := logger_setup.getZapLogLevel (logger_setup.Config.Level config) in
  (1 <= length cores <= 2)%nat
  /\ Forall (fun core => logger_setup.enab core = level) cores
  /\ (Exists (fun core => exists l, logger_setup.ws core = logger_setup.fileWriter l)
        cores
      <-> logger_setup.Config.FileEnabled config = true)
  /\ (Exists (fun core => logger_setup.ws core = logger_setup.Stdout) cores
      <-> logger_setup.Config.UseJSON config = true
          \/ logger_setup.Config.FileEnabled config = false)
  /\ (Exists (fun core => logger_setup.enc core = logger_setup.consoleEncoder) cores
      <-> logger_setup.Config.UseJSON config = false
          /\ logger_setup.Config.FileEnabled config = false).
Proof.
  intros cores level. subst cores level. unfold logger_setup.newZapLogger.
  destruct (logger_setup.Config.FileEnabled config),
    (logger_setup.Config.UseJSON config); cbn.
  all: split; [lia|].
  all: split; [by repeat constructor|].
  all: rewrite ?Exists_cons, ?Exists_nil; cbn.
  all: repeat split; intros; try done; try tauto; eauto.
  all: repeat match goal with
       | H : _ \/ _ |- _ => destruct H
       | H : _ /\ _ |- _ => destruct H
       | H : ex _ |- _ => destruct H
       end; try done.
Qed.

(** X21.  With the default configuration there is a single core, on the
    standard output: the console encoder at the debug level for the
    environments [local] and [development], the JSON encoder at the info
    level for every other. *)
Theorem newZapLogger_default (g : logger_setup.Globals) (env : string) :
  logger_setup.newZapLogger (logger_setup.getDefaultConfig g env)
  = if String.eqb env "local" || String.eqb env "development"
    then [logger_setup.NewCore logger_setup.consoleEncoder logger_setup.Stdout
            zap.DebugLevel]
    else [logger_setup.NewCore logger_setup.jsonEncoder logger_setup.Stdout
            zap.InfoLevel].
Proof.
  unfold logger_setup.getDefaultConfig.
  by destruct (String.eqb env "local" || String.eqb env "development").
Qed.

Lemma getEnvOrDefault_cases (environ : os.Environ) (key defaultValue : string) :
  logger_setup.getEnvOrDefault environ key defaultValue
  = match environ !! key with
    | Some value => if decide (value = "") then defaultValue else value
    | None => defaultValue
    end.
Proof.
  unfold logger_setup.getEnvOrDefault, os.Getenv.
  destruct (environ !! key) as [value|]; [|done].
  destruct (String.eqb_spec value ""); by destruct (decide (value = "")).
Qed.

(** X22.  [Init] does not panic.  It takes the environment name and the
    service name from [DD_ENV] and [DD_SERVICE] when these are set and not
    empty, else from the configuration; the version is never empty; the
    deny list is left as it is; and from then on the canonical logger
    renders its summary line from the template. *)
Theorem Init_sets_up
    (rt : Runtime) (environ : os.Environ) (pkg : logger.Package)
    (config : logger_setup.Config.t) :
  exists r,
    logger_setup.Init environ pkg config = Some r
    /\ logger_setup.Env (logger_setup.globals r)
       = match environ !! "DD_ENV" with
         | Some value =>
             if decide (value = "") then logger_setup.Config.Env config else value
         | None => logger_setup.Config.Env config
         end
    /\ logger_setup.ServiceName (logger_setup.globals r)
       = match environ !! "DD_SERVICE" with
         | Some value =>
             if decide (value = "") then logger_setup.Config.ServiceName config
             else value
         | None => logger_setup.Config.ServiceName config
         end
    /\ logger_setup.Version (logger_setup.globals r) <> ""
    /\ logger_setup.cores r = logger_setup.newZapLogger config
    /\ logger.DenyPatterns (logger_setup.package r) = logger.DenyPatterns pkg
    /\ forall level request response canonicalLog metadata,
         slog.msg
           (logger.CanonicalLogger rt (logger_setup.package r) level request
              response None canonicalLog metadata)
         = escapedLine canonicalLog.
Proof.
  unfold logger_setup.Init.
  destruct (logger.CompileCanonicalLogTemplate pkg) as [pkg'|] eqn:E.
  2:{ unfold logger.CompileCanonicalLogTemplate in E.
      by rewrite Parse_logTemplate in E. }
  eexists. split; [reflexivity|]. cbn [logger_setup.globals logger_setup.cores
    logger_setup.package logger_setup.Env logger_setup.ServiceName
    logger_setup.Version].
  rewrite !getEnvOrDefault_cases.
  split; [done|]. split; [done|]. split.
  { destruct (environ !! "DD_VERSION") as [value|]; [|done].
    by destruct (decide (value = "")). }
  split; [done|]. split.
  { unfold logger.CompileCanonicalLogTemplate in E.
    rewrite Parse_logTemplate in E. by injection E as <-. }
  intros level request response canonicalLog metadata.
  exact (summary_compiled pkg pkg' canonicalLog E).
Qed.

Lemma hex_length (id : list Z) :
  String.length (trace.hex id) = (2 * length id)%nat.
Proof. induction id as [|b id IH]; cbn [trace.hex String.length length]; lia. Qed.

(** X23.  [AddDDFields] keeps the attributes of the record, in order, and
    appends to them: [trace_id] when the context has a valid trace
    identifier, [span_id] when it has a valid span identifier, and always,
    last, the group [dd] with the environment, the service, the two
    identifiers and the version.  An identifier in the group is the one
    added before it, and is empty when none was. *)
Theorem AddDDFields_appends
    (g : logger_setup.Globals) (ctx : trace.SpanContext)
    (record : list slog.Attr) :
  let traceID :=
    if trace.HasTraceID ctx then trace.hex (trace.traceID ctx) else "" in
  let spanID :=
    if trace.HasSpanID ctx then trace.hex (trace.spanID ctx) else "" in
  logger_setup.AddDDFields g ctx record
  = record
    ++ (if trace.HasTraceID ctx then [slog.String "trace_id" traceID] else [])
    ++ (if trace.HasSpanID ctx then [slog.String "span_id" spanID] else [])
    ++ [slog.Group "dd"
          [slog.String "env" (logger_setup.Env g);
           slog.String "service" (logger_setup.ServiceName g);
           slog.String "trace_id" traceID;
           slog.String "span_id" spanID;
           slog.String "version" (logger_setup.Version g)]]
  /\ (trace.HasTraceID ctx = true -> traceID <> "")
  /\ (trace.HasSpanID ctx = true -> spanID <> "").
Proof.
  intros traceID spanID. subst traceID spanID. unfold logger_setup.AddDDFields.
  assert (forall id, trace.IsValid id = true -> trace.hex id <> "") as Hne.
  { intros [|b id]; [done|]. intros _. done. }
  split; [|split].
  - destruct (trace.HasTraceID ctx), (trace.HasSpanID ctx); cbn;
      by rewrite <- ?List.app_assoc.
  - intros H. rewrite H. by apply Hne.
  - intros H. rewrite H. by apply Hne.
Qed.

Section Handler_facts.
Variables H Result : Type.
Variable H_Handle : H -> trace.SpanContext -> list slog.Attr -> Result.
Variable H_WithAttrs : H -> list slog.Attr -> H.
Variable H_WithGroup : H -> string -> H.

(** The handler of another package at the core of a handler. *)
Fixpoint coreOf (h : logger_setup.slog_Handler H) : H :=
  match h with
  | logger_setup.foreign h => h
  | logger_setup.Handler handler => coreOf handler
  end.

(** How many [Handler] values of this package are around it. *)
Fixpoint layersOf (h : logger_setup.slog_Handler H) : nat :=
  match h with
  | logger_setup.foreign _ => 0
  | logger_setup.Handler handler => S (layersOf handler)
  end.

(** X24.  A handler passes the record to the handler at its core after
    adding the DD fields once for every [Handler] around it.  [WithAttrs]
    keeps these layers; [WithGroup] returns the handler of the core with
    no layer left, so a logger derived with [WithGroup] adds no DD field
    any more. *)
Theorem Handler_WithGroup_drops_DD_fields
    (g : logger_setup.Globals) (h : logger_setup.slog_Handler H)
    (ctx : trace.SpanContext) (record : list slog.Attr)
    (attrs : list slog.Attr) (name : string) :
  logger_setup.Handle H_Handle g h ctx record
  = H_Handle (coreOf h) ctx (Nat.iter (layersOf h) (logger_setup.AddDDFields g ctx) record)
  /\ logger_setup.Handle H_Handle g (logger_setup.WithAttrs H_WithAttrs h attrs)
       ctx record
     = H_Handle (H_WithAttrs (coreOf h) attrs) ctx
         (Nat.iter (layersOf h) (logger_setup.AddDDFields g ctx) record)
  /\ logger_setup.Handle H_Handle g (logger_setup.WithGroup H_WithGroup h name)
       ctx record
     = H_Handle (H_WithGroup (coreOf h) name) ctx record.
Proof.
  split; [|split]; revert record; induction h as [h|h IH]; intros record;
    cbn [logger_setup.Handle logger_setup.WithAttrs logger_setup.WithGroup
           coreOf layersOf]; try done.
  - by rewrite IH, Nat.iter_succ_r.
  - by rewrite IH, Nat.iter_succ_r.
Qed.

End Handler_facts.

Lemma Join_dot (s n : string) (names : list string) :
  strings.Join ((s +:+ "." +:+ n) :: names) "." = strings.Join (s :: n :: names) ".".
Proof.
  rewrite (Join_cons s (n :: names)) by done.
  destruct names as [|n' names]; [done|].
  rewrite !Join_cons by done. by rewrite !str_app_assoc.
Qed.

(** X25.  A pathfinder made by nesting names under a first one carries
    these names joined by dots, and writes them between brackets in front
    of every message, the fields being passed on as they are. *)
Theorem Pathfinder_nested
    (svc : string) (names : list string) (msg : string) (fields : list slog.Attr) :
  let p :=
    fold_left logger_setup.Pathfinder_NewPathfinder names
      (logger_setup.NewPathfinder svc) in
  logger_setup.Pathfinder.svc p = strings.Join (svc :: names) "."
  /\ logger_setup.Pathfinder_InfoContext p msg fields
     = {| slog.method := slog.InfoContext;
          slog.msg := "[service][" +:+ strings.Join (svc :: names) "." +:+ "] " +:+ msg;
          slog.args := fields |}
  /\ logger_setup.Pathfinder_ErrorContext p msg fields
     = {| slog.method := slog.ErrorContext;
          slog.msg := "[service][" +:+ strings.Join (svc :: names) "." +:+ "] " +:+ msg;
          slog.args := fields |}.
Proof.
  intros p.
  assert (logger_setup.Pathfinder.svc p = strings.Join (svc :: names) ".") as E.
  { subst p. unfold logger_setup.NewPathfinder. revert svc.
    induction names as [|n names IH]; intros svc; [done|].
    cbn [fold_left]. unfold logger_setup.Pathfinder_NewPathfinder at 2.
    cbn [logger_setup.Pathfinder.svc]. by rewrite IH, Join_dot. }
  unfold logger_setup.Pathfinder_InfoContext, logger_setup.Pathfinder_ErrorContext.
  by rewrite E.
Qed.

End setup_facts.

(** ** Package config *)

Section config_facts.

Lemma int_small (z : Z) : - 2 ^ 63 <= z < 2 ^ 63 -> config.int z = z.
Proof.
  intros H. unfold config.int.
  rewrite Z.mod_small by lia. lia.
Qed.

Lemma runes_from_ascii (c : ascii) (s : string) :
  byte c < utf8.RuneSelf ->
  utf8.runes_from 0 (String c s) = byte c :: utf8.runes_from 0 s.
Proof.
  intros Hc. cbn [utf8.runes_from].
  assert (utf8.DecodeRuneInString (String c s) = (byte c, 1%nat)) as ->.
  { unfold utf8.DecodeRuneInString. cbn [take_str bytes list_ascii_of_string map].
    by destruct (Z.ltb_spec (byte c) utf8.RuneSelf); [|lia]. }
  reflexivity.
Qed.

Lemma runes_ascii (s : string) :
  strings.isASCII s = true -> utf8.runes s = bytes s.
Proof.
  unfold utf8.runes, strings.isASCII, bytes.
  induction s as [|c s IH]; [done|].
  cbn [list_ascii_of_string forallb map].
  intros [Hc Hs]%andb_true_iff. apply Z.ltb_lt in Hc.
  by rewrite runes_from_ascii, IH.
Qed.

(** The number a string of decimal digits denotes, read from the left. *)
Fixpoint uintValue (acc : Z) (u : Decimal.uint) : Z :=
  match u with
  | Decimal.Nil => acc
  | Decimal.D0 u => uintValue (acc * 10 + 0) u
  | Decimal.D1 u => uintValue (acc * 10 + 1) u
  | Decimal.D2 u => uintValue (acc * 10 + 2) u
  | Decimal.D3 u => uintValue (acc * 10 + 3) u
  | Decimal.D4 u => uintValue (acc * 10 + 4) u
  | Decimal.D5 u => uintValue (acc * 10 + 5) u
  | Decimal.D6 u => uintValue (acc * 10 + 6) u
  | Decimal.D7 u => uintValue (acc * 10 + 7) u
  | Decimal.D8 u => uintValue (acc * 10 + 8) u
  | Decimal.D9 u => uintValue (acc * 10 + 9) u
  end.

Lemma uintValue_mono (u : Decimal.uint) (acc : Z) :
  0 <= acc -> acc <= uintValue acc u.
Proof.
  revert acc. induction u as [|u IH|u IH|u IH|u IH|u IH|u IH|u IH|u IH|u IH|u IH];
    intros acc Hacc; cbn [uintValue]; [lia|..];
    match goal with
    | |- _ <= uintValue ?a _ => specialize (IH a ltac:(lia)); lia
    end.
Qed.

Lemma parseIntSafe_loop_digit (result d : Z) (s : list Z) :
  0 <= d <= 9 -> 0 <= result -> result * 10 + d < 2 ^ 63 ->
  config.parseIntSafe_loop result (48 + d :: s)
  = config.parseIntSafe_loop (result * 10 + d) s.
Proof.
  intros Hd Hr Hlt. cbn [config.parseIntSafe_loop].
  destruct (Z.leb_spec 48 (48 + d)); [|lia].
  destruct (Z.leb_spec (48 + d) 57); [|lia]. cbn [andb].
  replace (48 + d - 48) with d by lia.
  by rewrite (int_small (result * 10)), (int_small d), int_small by lia.
Qed.

Lemma parseIntSafe_loop_uint (u : Decimal.uint) (acc : Z) :
  0 <= acc -> uintValue acc u < 2 ^ 63 ->
  config.parseIntSafe_loop acc (utf8.runes_from 0 (NilEmpty.string_of_uint u))
  = uintValue acc u.
Proof.
  revert acc. induction u as [|u IH|u IH|u IH|u IH|u IH|u IH|u IH|u IH|u IH|u IH];
    intros acc Hacc Hlt; cbn [NilEmpty.string_of_uint uintValue] in Hlt |- *;
    [done|..];
    rewrite runes_from_ascii by (vm_compute; reflexivity);
    match goal with
    | H : uintValue (?a * 10 + ?d) _ < _ |- _ =>
        pose proof (uintValue_mono u (a * 10 + d) ltac:(lia));
        change (config.parseIntSafe_loop a (48 + d :: utf8.runes_from 0
                  (NilEmpty.string_of_uint u)) = uintValue (a * 10 + d) u);
        rewrite parseIntSafe_loop_digit by lia; apply IH; lia
    end.
Qed.

Lemma uintValue_acc (u : Decimal.uint) (p : positive) :
  uintValue (Z.pos p) u = Z.pos (Pos.of_uint_acc u p).
Proof.
  revert p. induction u as [|u IH|u IH|u IH|u IH|u IH|u IH|u IH|u IH|u IH|u IH];
    intros p; cbn [uintValue Pos.of_uint_acc]; [done|..];
    rewrite <- IH; f_equal; lia.
Qed.

Lemma uintValue_of_uint (u : Decimal.uint) :
  uintValue 0 u = Z.of_N (Pos.of_uint u).
Proof.
  induction u as [|u IH|u IH|u IH|u IH|u IH|u IH|u IH|u IH|u IH|u IH];
    cbn [uintValue Pos.of_uint]; [done|exact IH|..];
    match goal with
    | |- uintValue ?a _ = _ =>
        let a' := eval cbv in a in change a with a'
    end; by rewrite uintValue_acc.
Qed.

Lemma parseIntSafe_loop_zero (s : list Z) :
  Exists (fun c => ~ (48 <= c <= 57)) s ->
  forall result, config.parseIntSafe_loop result s = 0.
Proof.
  induction 1 as [c s Hc|c s _ IH]; intros result; cbn [config.parseIntSafe_loop].
  - destruct (Z.leb_spec 48 c), (Z.leb_spec c 57); try done. lia.
  - by destruct ((48 <=? c) && (c <=? 57)).
Qed.

(** X26.  [parseIntSafe] reads back the decimal text of every number from
    0 to the largest [int]. *)
Theorem parseIntSafe_Itoa (n : Z) :
  0 <= n < 2 ^ 63 -> config.parseIntSafe (strconv.Itoa n) = n.
Proof.
  intros Hn. unfold config.parseIntSafe, strconv.Itoa, utf8.runes.
  destruct n as [|p|p]; [reflexivity| |lia].
  cbn [Z.to_int NilZero.string_of_int].
  assert (uintValue 0 (Pos.to_uint p) = Z.pos p) as Hv
    by (by rewrite uintValue_of_uint, Unsigned.of_to).
  assert (NilZero.string_of_uint (Pos.to_uint p)
          = NilEmpty.string_of_uint (Pos.to_uint p)) as ->.
  { unfold NilZero.string_of_uint. by destruct (Pos.to_uint p). }
  rewrite parseIntSafe_loop_uint; [done|lia|rewrite Hv; lia].
Qed.

(** X27.  [parseIntSafe] gives 0 for the empty string and for every string
    with a rune other than an ASCII digit in it, a sign or a space
    included: for a string of ASCII bytes, as soon as one byte is no
    digit. *)
Theorem parseIntSafe_rejects (s : string) :
  config.parseIntSafe "" = 0
  /\ (Exists (fun c => ~ (48 <= c <= 57)) (utf8.runes s) ->
      config.parseIntSafe s = 0)
  /\ (strings.isASCII s = true ->
      Exists (fun b => ~ (48 <= b <= 57)) (bytes s) ->
      config.parseIntSafe s = 0).
Proof.
  split; [reflexivity|]. split.
  - intros H. by apply parseIntSafe_loop_zero.
  - intros Ha H. apply parseIntSafe_loop_zero. by rewrite runes_ascii.
Qed.

Lemma getEnvIntOrDefault_positive
    (environ : os.Environ) (key : string) (defaultValue : Z) :
  0 < defaultValue -> 0 < config.getEnvIntOrDefault environ key defaultValue.
Proof.
  intros Hd. unfold config.getEnvIntOrDefault.
  destruct (negb _); [|done].
  by destruct (Z.ltb_spec 0 (config.parseIntSafe (os.Getenv environ key))).
Qed.

(** X28.  Whatever the environment holds, the configuration [LoadFromEnv]
    returns has a positive file size, a positive maximal age and a
    positive number of backups: a value that is no number, is zero or
    overflows gives way to the default. *)
Theorem LoadFromEnv_sizes_positive (rt : Runtime) (environ : os.Environ) :
  let c := config.LoadFromEnv rt environ in
  0 < config.LogConfig.FileSize c
  /\ 0 < config.LogConfig.MaxAge c
  /\ 0 < config.LogConfig.MaxBackups c.
Proof.
  intros c. subst c. unfold config.LoadFromEnv, config.GetDefault.
  repeat match goal with
         | |- context [if ?b then _ else _] => destruct b
         end; cbn [config.LogConfig.FileSize config.LogConfig.MaxAge
                     config.LogConfig.MaxBackups];
    repeat split; by apply getEnvIntOrDefault_positive.
Qed.

Lemma config_getEnvOrDefault_twice (environ : os.Environ) (key d : string) :
  config.getEnvOrDefault environ key (config.getEnvOrDefault environ key d)
  = config.getEnvOrDefault environ key d.
Proof. unfold config.getEnvOrDefault. by destruct (negb _). Qed.

Lemma GetDefault_Env (env : string) :
  config.LogConfig.Env (config.GetDefault env) = env.
Proof. unfold config.GetDefault. by destruct (_ || _). Qed.

(** X29.  The environment name of the configuration [LoadFromEnv] returns
    is [BLOGGER_ENV] when this is set and not empty, else [local]; when it
    is [local] or [development] the level is [debug] and JSON is off,
    whatever [BLOGGER_LOG_LEVEL] and [BLOGGER_USE_JSON] hold; and in an
    empty environment the configuration is the default one of [local]. *)
Theorem LoadFromEnv_local_forces_debug (rt : Runtime) (environ : os.Environ) :
  let c := config.LoadFromEnv rt environ in
  config.LogConfig.Env c = config.getEnvOrDefault environ "BLOGGER_ENV" "local"
  /\ (config.LogConfig.Env c = "local" \/ config.LogConfig.Env c = "development" ->
      config.LogConfig.Level c = "debug" /\ config.LogConfig.UseJSON c = false)
  /\ config.LoadFromEnv rt ∅ = config.GetDefault "local".
Proof.
  intros c. subst c. unfold config.LoadFromEnv.
  cbn [config.LogConfig.Env]. rewrite GetDefault_Env, config_getEnvOrDefault_twice.
  set (env := config.getEnvOrDefault environ "BLOGGER_ENV" "local").
  split; [|split].
  - by destruct (String.eqb env "local" || String.eqb env "development").
  - destruct (String.eqb env "local" || String.eqb env "development") eqn:E;
      [done|]. cbn [config.LogConfig.Env].
    apply orb_false_iff in E as [E1%String.eqb_neq E2%String.eqb_neq].
    by intros [?|?].
  - reflexivity.
Qed.

(** X30.  [applyEnvOverrides] never changes the file size, the maximal age
    and the number of backups, and applying it again changes nothing; so
    a configuration loaded from a file has these three values from the
    file, and each other value from the environment variable when this is
    set and not empty. *)
Theorem applyEnvOverrides_idempotent
    (rt : Runtime) (environ : os.Environ) (config : config.LogConfig.t) :
  let c := config.applyEnvOverrides rt environ config in
  config.applyEnvOverrides rt environ c = c
  /\ config.LogConfig.FileSize c = config.LogConfig.FileSize config
  /\ config.LogConfig.MaxAge c = config.LogConfig.MaxAge config
  /\ config.LogConfig.MaxBackups c = config.LogConfig.MaxBackups config
  /\ config.LogConfig.Env c
     = config.getEnvOrDefault environ "BLOGGER_ENV" (config.LogConfig.Env config)
  /\ config.LogConfig.Level c
     = config.getEnvOrDefault environ "BLOGGER_LOG_LEVEL"
         (config.LogConfig.Level config)
  /\ forall data yaml_Unmarshal,
       yaml_Unmarshal data = inr config ->
       config.LoadFromFile rt environ (inr data) yaml_Unmarshal = inr c.
Proof.
  intros c. subst c. unfold config.applyEnvOverrides.
  cbn [config.LogConfig.Env config.LogConfig.ServiceName config.LogConfig.Level
         config.LogConfig.UseJSON config.LogConfig.FileEnabled
         config.LogConfig.FilePath config.LogConfig.FileSize
         config.LogConfig.MaxAge config.LogConfig.MaxBackups].
  split; [|repeat split].
  - f_equal; by destruct (negb _).
  - intros data yaml_Unmarshal E. unfold config.LoadFromFile. by rewrite E.
Qed.

End config_facts.

Lemma parseIntSafe_Itoa_200 : config.parseIntSafe (strconv.Itoa 200) = 200.
Proof. apply (parseIntSafe_Itoa 200). lia. Defined.
